(** * Simple-Simul-Radio: a shallow embedding of [app.py]

    Part I holds the definitions:
    - [PyStr]: the [str] methods the program calls ([endswith],
      [startswith], [strip], [lower], [in]), and [PyBytes]: [strip] and
      the truth value of the [bytes] lines of an undecoded body;
    - the values, the exceptions, and a world that records the effects of
      the program (requests, dialogs, libvlc calls, writes to the stations
      file) next to the application object, with what the outside decides:
      the answers of the network, the faults of the disk, of libvlc and of
      the standard output;
    - [Control]: statements with Python's three ways of leaving a block
      (fall through, [return], [raise]);
    - [resolve_playlist];
    - [Json]: the text [json.dump] writes and the grammar [json.load]
      reads;
    - [load_stations], [RadioPlayer] and the handlers of [RadioApp]: the
      station registry, the directory search and the add-from-search path;
    - the vocabulary of the statements, sample worlds and tactics, and the
      vocabulary of the further properties: the editor, the handlers as
      one family, the main loop.

    Part II holds the properties: facts about [str], the resolution of a
    playlist, the directory search, the station registry, and the round
    trip through the stations file.  Part III holds further properties of
    the handlers, of the player and of the start-up. *)

From Stdlib Require Import String Ascii Strings.Byte List Bool Arith ZArith Lia.
From Stdlib Require Import Decimal DecimalString DecimalZ DecimalFacts DecimalPos.
Import ListNotations.

Open Scope string_scope.

(** ** Python [str]

    A [str] is modelled by a [string] whose characters are the code points
    below 256.  The tables below ([is_space], [lower_char]) are Python's,
    restricted to that range. *)
Module PyStr.

Definition str := string.

(** Truth value of a [str]: only the empty string is false. *)
Definition truthy (s : str) : bool :=
  match s with EmptyString => false | String _ _ => true end.

(** [s.startswith(p)] *)
Definition startswith (s p : str) : bool := String.prefix p s.

(** [s.endswith(p)] *)
Definition endswith (s p : str) : bool :=
  let n := String.length s in
  let m := String.length p in
  (m <=? n)%nat && String.eqb (String.substring (n - m) m s) p.

(** [s.endswith((p1, ..., pk))] *)
Definition endswith_any (s : str) (ps : list str) : bool :=
  existsb (endswith s) ps.

(** The code points below 256 for which [str.isspace] holds: TAB, LF, VT,
    FF, CR, FS, GS, RS, US, SPACE, NEL and NBSP. *)
Definition is_space (c : ascii) : bool :=
  let n := nat_of_ascii c in
  ((9 <=? n) && (n <=? 13) || (28 <=? n) && (n <=? 32)
   || (n =? 133) || (n =? 160))%nat.

Fixpoint lstrip (s : str) : str :=
  match s with
  | EmptyString => EmptyString
  | String c s' => if is_space c then lstrip s' else s
  end.

Fixpoint rstrip (s : str) : str :=
  match s with
  | EmptyString => EmptyString
  | String c s' =>
      match rstrip s' with
      | EmptyString => if is_space c then EmptyString else String c EmptyString
      | r => String c r
      end
  end.

(** [s.strip()] *)
Definition strip (s : str) : str := rstrip (lstrip s).

(** Lower-casing of one code point below 256: A-Z, and the Latin-1 capitals
    U+00C0..U+00DE except the multiplication sign U+00D7. *)
Definition lower_char (c : ascii) : ascii :=
  let n := nat_of_ascii c in
  if ((65 <=? n) && (n <=? 90)
      || (192 <=? n) && (n <=? 222) && negb (n =? 215))%nat
  then ascii_of_nat (n + 32) else c.

(** [s.lower()] *)
Fixpoint lower (s : str) : str :=
  match s with
  | EmptyString => EmptyString
  | String c s' => String (lower_char c) (lower s')
  end.

(** [p in s] for two strings. *)
Fixpoint contains (p s : str) : bool :=
  String.prefix p s
  || match s with
     | EmptyString => false
     | String _ s' => contains p s'
     end.

End PyStr.

(** ** Python [bytes]

    The two operations the program applies to a line of an undecoded body:
    [strip()], which removes ASCII whitespace at both ends, and the truth
    value. *)
Module PyBytes.

Definition bytes := list byte.

(** [b" \t\n\r\x0b\x0c"], the bytes that [bytes.strip()] removes *)
Definition is_space (b : byte) : bool :=
  let n := Byte.to_nat b in
  ((9 <=? n) && (n <=? 13) || (n =? 32))%nat.

Fixpoint lstrip (b : bytes) : bytes :=
  match b with
  | [] => []
  | x :: b' => if is_space x then lstrip b' else b
  end.

Fixpoint rstrip (b : bytes) : bytes :=
  match b with
  | [] => []
  | x :: b' =>
      match rstrip b' with
      | [] => if is_space x then [] else [x]
      | r => x :: r
      end
  end.

(** [b.strip()] *)
Definition strip (b : bytes) : bytes := rstrip (lstrip b).

(** [bool(b)] *)
Definition truthy (b : bytes) : bool :=
  match b with
  | [] => false
  | _ => true
  end.

(** The bytes of an ASCII or Latin-1 text. *)
Definition of_text (s : string) : bytes := list_byte_of_string s.

End PyBytes.
Import PyStr.

(** ** Exceptions

    Every exception here is an instance of Python's [Exception]; the
    handlers of the program are all [except Exception]. *)
Inductive exn : Type :=
| ConnectionError
| ReadTimeout
| MissingSchema
| HTTPError
| JSONDecodeError
| UnicodeDecodeError
| UnicodeEncodeError
| OSError
| TypeError
| AttributeError
| IndexError
| KeyError
| VLCError
(** not a Python exception: the input leaves the model (a float literal, a
    code point above U+00FF) *)
| Unmodelled.

(** ** Python values

    The values that travel through the program: what [json.load] and
    [r.json()] produce and what [json.dump] accepts.  A [dict] keeps its
    insertion order, so it is an association list (Python itself guarantees
    that keys are unique; see [dict_set]).  Floating-point numbers are not
    modelled. *)
#[warnings="-register-all"]
Inductive value : Type :=
| VNone
| VBool (b : bool)
| VInt (z : Z)
| VStr (s : str)
| VList (items : list value)
| VDict (entries : list (str * value)).

(** Truth value of an object, as [if x], [not x] and [x or y] use it. *)
Definition value_truthy (v : value) : bool :=
  match v with
  | VNone => false
  | VBool b => b
  | VInt z => negb (z =? 0)%Z
  | VStr s => truthy s
  | VList l => match l with [] => false | _ => true end
  | VDict d => match d with [] => false | _ => true end
  end.

(** [x or y] *)
Definition py_or (x y : value) : value := if value_truthy x then x else y.

(** [d.get(k)] and [d.get(k, default)] on the entries of a dict. *)
Fixpoint entries_get (d : list (str * value)) (k : str) : option value :=
  match d with
  | [] => None
  | (k', v) :: d' => if String.eqb k' k then Some v else entries_get d' k
  end.

(** [d[k] = v] on the entries of a dict: an existing key keeps its place. *)
Fixpoint dict_set (d : list (str * value)) (k : str) (v : value)
  : list (str * value) :=
  match d with
  | [] => [(k, v)]
  | (k', v') :: d' =>
      if String.eqb k' k then (k', v) :: d' else (k', v') :: dict_set d' k v
  end.

(** ** The outside world *)

Inductive http_method : Type := HEAD | GET.

(** One call of [requests.head] or [requests.get] with its keyword
    arguments. *)
Record request : Type := mkRequest {
  rq_method : http_method;
  rq_url : str;
  rq_params : list (str * value);
  rq_timeout : Z;
  rq_allow_redirects : bool;
  rq_stream : bool
}.

(** An item that [r.iter_lines(decode_unicode=True)] yields: a [str] when
    the response declares an encoding (a charset, or a [text/...] content
    type), the undecoded [bytes] when it declares none. *)
Inductive body_line : Type :=
| StrLine (s : str)
| BytesLine (b : PyBytes.bytes).

(** What the program observes of a [requests.Response]. *)
Record Response : Type := mkResponse {
  (** [r.headers.get("content-type")]; [None] when the header is missing *)
  content_type_header : option str;
  (** whether [getattr(r, "iter_lines", None)] is true *)
  has_iter_lines : bool;
  (** the items [r.iter_lines(decode_unicode=True)] yields, in order *)
  body_lines : list (option body_line);
  (** the exception that ends the iteration, if it does not end normally *)
  body_error : option exn;
  (** the exception [r.close()] raises, if any *)
  close_error : option exn;
  (** the exception [r.raise_for_status()] raises, if any *)
  status_error : option exn;
  (** [r.json()] *)
  json_body : exn + value
}.

Inductive dialog : Type := showinfo | showerror | askyesno.

(** The label of a list-box row, before Tk renders it: the two values of
    the f-string [f"{name} - {info}"]. *)
Record label : Type := mkLabel { label_name : value; label_info : value }.

Inductive event : Type :=
| EvRequest (rq : request)
| EvClose (r : Response)
| EvVlcStop
| EvVlcPlay (url : value)
| EvDialog (d : dialog) (title : str)
| EvListboxInsert (index : nat) (l : label)
| EvListboxDelete (index : nat)
| EvOpenForWrite
| EvWrite (text : str).

(** The stations file on disk, as [open(path, "r", encoding="utf-8")] and
    [f.read()] see it. *)
Inductive file : Type :=
| Absent
| Unreadable (e : exn)
| Text (s : str).

(** What happens to the next [open(..., "w")] and to the [json.dump] that
    follows it.  [OpenFails e]: [open] raises [e].  [WriteFails e n]: the
    dump raises [e] when [n] characters of its text have reached the file,
    which keeps them: a device error, or, with [UnicodeEncodeError], text
    that the file's utf-8 encoder refuses (a lone surrogate).  [NoFault]:
    the file opens and takes the whole text. *)
Inductive disk_fault : Type :=
| NoFault
| OpenFails (e : exn)
| WriteFails (e : exn) (written : nat).

(** ** The objects of the process *)

(** The attributes of [RadioPlayer] that the program reads; the libvlc
    player behind it belongs to the world. *)
Record RadioPlayer : Type := mkPlayer {
  current_url : value;
  playing : bool
}.

(** One row of the search-results list box: name, country and url of a
    result, before Tk renders them. *)
Record result_row : Type := mkRow {
  row_name : value;
  row_country : value;
  row_url : value
}.

(** The attributes of [RadioApp] and the state of its widgets. *)
Record RadioApp : Type := mkApp {
  stations : value;
  player : RadioPlayer;
  _search_results : value;
  listbox : list label;
  results_listbox : list result_row;
  status_var : str;
  search_btn_enabled : bool;
  add_search_btn_enabled : bool;
  _add_search_prev_status : str
}.

Record world : Type := mkWorld {
  (** every effect so far on the network, libvlc, the dialogs, the list box
      and the stations file, oldest first *)
  trace : list event;
  (** the remote side: the answer to a request, given what happened before *)
  network : list event -> request -> exn + Response;
  (** [STATIONS_FILE] *)
  stations_file : file;
  disk : disk_fault;
  (** the exception libvlc's [player.stop()] / [player.play()] raises *)
  vlc_stop_error : option exn;
  vlc_play_error : option exn;
  (** the exception [print] raises when the text it formats from the given
      objects does not pass the encoder of [sys.stdout] *)
  stdout_error : list value -> option exn;
  (** the application object *)
  self : RadioApp
}.

Definition emit (ev : event) (w : world) : world :=
  mkWorld (trace w ++ [ev]) (network w) (stations_file w) (disk w)
          (vlc_stop_error w) (vlc_play_error w) (stdout_error w) (self w).

Definition set_file (f : file) (w : world) : world :=
  mkWorld (trace w) (network w) f (disk w)
          (vlc_stop_error w) (vlc_play_error w) (stdout_error w) (self w).

Definition set_self (a : RadioApp) (w : world) : world :=
  mkWorld (trace w) (network w) (stations_file w) (disk w)
          (vlc_stop_error w) (vlc_play_error w) (stdout_error w) a.

Definition with_stations (v : value) (a : RadioApp) : RadioApp :=
  mkApp v (player a) (_search_results a) (listbox a) (results_listbox a)
        (status_var a) (search_btn_enabled a) (add_search_btn_enabled a)
        (_add_search_prev_status a).

Definition with_player (p : RadioPlayer) (a : RadioApp) : RadioApp :=
  mkApp (stations a) p (_search_results a) (listbox a) (results_listbox a)
        (status_var a) (search_btn_enabled a) (add_search_btn_enabled a)
        (_add_search_prev_status a).

Definition with_search_results (v : value) (a : RadioApp) : RadioApp :=
  mkApp (stations a) (player a) v (listbox a) (results_listbox a)
        (status_var a) (search_btn_enabled a) (add_search_btn_enabled a)
        (_add_search_prev_status a).

Definition with_listbox (l : list label) (a : RadioApp) : RadioApp :=
  mkApp (stations a) (player a) (_search_results a) l (results_listbox a)
        (status_var a) (search_btn_enabled a) (add_search_btn_enabled a)
        (_add_search_prev_status a).

Definition with_results_listbox (l : list result_row) (a : RadioApp)
  : RadioApp :=
  mkApp (stations a) (player a) (_search_results a) (listbox a) l
        (status_var a) (search_btn_enabled a) (add_search_btn_enabled a)
        (_add_search_prev_status a).

Definition with_status (s : str) (a : RadioApp) : RadioApp :=
  mkApp (stations a) (player a) (_search_results a) (listbox a)
        (results_listbox a) s (search_btn_enabled a)
        (add_search_btn_enabled a) (_add_search_prev_status a).

Definition with_search_btn (b : bool) (a : RadioApp) : RadioApp :=
  mkApp (stations a) (player a) (_search_results a) (listbox a)
        (results_listbox a) (status_var a) b (add_search_btn_enabled a)
        (_add_search_prev_status a).

Definition with_add_search_btn (b : bool) (a : RadioApp) : RadioApp :=
  mkApp (stations a) (player a) (_search_results a) (listbox a)
        (results_listbox a) (status_var a) (search_btn_enabled a) b
        (_add_search_prev_status a).

Definition with_prev_status (s : str) (a : RadioApp) : RadioApp :=
  mkApp (stations a) (player a) (_search_results a) (listbox a)
        (results_listbox a) (status_var a) (search_btn_enabled a)
        (add_search_btn_enabled a) s.

(** ** Control flow

    A statement either falls through with a value, executes a [return], or
    raises.  [R] is the type the enclosing function returns. *)
Module Control.

Inductive flow (R A : Type) : Type :=
| Next (a : A)
| Return (r : R)
| Raise (e : exn).
Arguments Next {R A} a.
Arguments Return {R A} r.
Arguments Raise {R A} e.

Definition stmt (R A : Type) : Type := world -> flow R A * world.

Definition ret {R A} (a : A) : stmt R A := fun w => (Next a, w).
Definition do_return {R A} (r : R) : stmt R A := fun w => (Return r, w).
Definition raise {R A} (e : exn) : stmt R A := fun w => (Raise e, w).
Definition effect {R} (ev : event) : stmt R unit :=
  fun w => (Next tt, emit ev w).

Definition bind {R A B} (c : stmt R A) (k : A -> stmt R B) : stmt R B :=
  fun w =>
    match c w with
    | (Next a, w') => k a w'
    | (Return r, w') => (Return r, w')
    | (Raise e, w') => (Raise e, w')
    end.

(** [if c: body] *)
Definition when {R} (c : bool) (body : stmt R unit) : stmt R unit :=
  if c then body else ret tt.

(** [try: body / except Exception: handler] *)
Definition try_except {R A} (body : stmt R A) (handler : exn -> stmt R A)
  : stmt R A :=
  fun w =>
    match body w with
    | (Raise e, w') => handler e w'
    | other => other
    end.

(** [try: body / finally: final]: the final block always runs; when it
    falls through, the body's way of leaving stands. *)
Definition try_finally {R A} (body : stmt R A) (final : stmt R unit)
  : stmt R A :=
  fun w =>
    let (o, w1) := body w in
    match final w1 with
    | (Next _, w2) => (o, w2)
    | (Return r, w2) => (Return r, w2)
    | (Raise e, w2) => (Raise e, w2)
    end.

(** What a caller sees of a function call. *)
Inductive result (R : Type) : Type :=
| Value (r : R)
| Exception (e : exn).
Arguments Value {R} r.
Arguments Exception {R} e.

Definition fn (R : Type) : Type := world -> result R * world.

(** A function whose body leaves through [return] or [raise] on every
    path: the body cannot fall through. *)
Definition def_ {R} (body : stmt R Empty_set) : fn R :=
  fun w =>
    match body w with
    | (Next a, _) => match a with end
    | (Return r, w') => (Value r, w')
    | (Raise e, w') => (Exception e, w')
    end.

(** A function without a result: falling through and a bare [return]
    both give [None]. *)
Definition proc (body : stmt unit unit) : fn unit :=
  fun w =>
    match body w with
    | (Next _, w') => (Value tt, w')
    | (Return _, w') => (Value tt, w')
    | (Raise e, w') => (Exception e, w')
    end.

(** A call as a statement of the caller. *)
Definition call {R R'} (f : fn R) : stmt R' R :=
  fun w =>
    match f w with
    | (Value r, w') => (Next r, w')
    | (Exception e, w') => (Raise e, w')
    end.

End Control.
Import Control.

Declare Scope py_scope.
Delimit Scope py_scope with py.
Notation "x <- c ;; k" := (bind c (fun x => k))
  (at level 61, c at next level, right associativity) : py_scope.
Notation "c ;; k" := (bind c (fun _ => k))
  (at level 61, right associativity) : py_scope.
Open Scope py_scope.

(** ** [requests] *)

Definition send {R} (rq : request) : stmt R Response :=
  fun w =>
    let w' := emit (EvRequest rq) w in
    match network w (trace w) rq with
    | inl e => (Raise e, w')
    | inr r => (Next r, w')
    end.

(** [requests.head(url, timeout=timeout, allow_redirects=True)] *)
Definition head_request (url : str) (timeout : Z) : request :=
  mkRequest HEAD url [] timeout true false.

Definition requests_head {R} (url : str) (timeout : Z) : stmt R Response :=
  send (head_request url timeout).

(** [requests.get(url, timeout=timeout, allow_redirects=True, stream=True)] *)
Definition get_request (url : str) (timeout : Z) : request :=
  mkRequest GET url [] timeout true true.

Definition requests_get_stream {R} (url : str) (timeout : Z)
  : stmt R Response :=
  send (get_request url timeout).

(** [r.headers.get("content-type", "") or ""] *)
Definition content_type_of (r : Response) : str :=
  match content_type_header r with
  | Some s => s
  | None => ""
  end.

(** [r.close()] *)
Definition close {R} (r : Response) : stmt R unit :=
  fun w =>
    let w' := emit (EvClose r) w in
    match close_error r with
    | Some e => (Raise e, w')
    | None => (Next tt, w')
    end.

(** [try: r.close() / except Exception: pass] (the guard [r is not None]
    holds wherever the program reaches this block: both probes have either
    bound [r] or returned). *)
Definition close_quietly {R} (r : Response) : stmt R unit :=
  try_except (close r) (fun _ => ret tt).

(** ** [resolve_playlist] *)

Definition max_lines : nat := 64.

Definition stream_extensions : list str :=
  [".mp3"; ".aac"; ".m3u8"; ".pls"; ".m3u"].

(** Lines 77-87: the [for] loop over [r.iter_lines(decode_unicode=True)].
    [items] are the items not yet consumed, [err] the exception the
    iterator ends with, [lines_read] the counter. *)
Fixpoint scan_lines (items : list (option body_line)) (err : option exn)
         (lines_read : nat) : stmt str unit :=
  match items with
  | [] =>
      match err with
      | Some e => raise e
      | None => ret tt
      end
  | None :: rest => scan_lines rest err lines_read
  | Some (StrLine raw) :: rest =>
      let line := strip raw in
      let lines_read := S lines_read in
      (if negb (truthy line) || startswith line "#" then ret tt
       else if startswith line "http://" || startswith line "https://"
            then do_return line
            else ret tt) ;;
      if (max_lines <=? lines_read)%nat then ret tt
      else scan_lines rest err lines_read
  | Some (BytesLine raw) :: rest =>
      (* [not line] is decided first; [line.startswith("#")] with a [str]
         prefix raises [TypeError] on [bytes] *)
      let line := PyBytes.strip raw in
      let lines_read := S lines_read in
      (if negb (PyBytes.truthy line) then ret tt else raise TypeError) ;;
      if (max_lines <=? lines_read)%nat then ret tt
      else scan_lines rest err lines_read
  end.

(** Lines 70-96: the [try / except / finally] statement.  Its first
    statement may rebind [r]; the [finally] clause closes the response that
    [r] names when the block is left. *)
Definition sniff (url : str) (timeout : Z) (r : Response) : stmt str unit :=
  fun w =>
    let rebind : stmt str Response :=
      if negb (has_iter_lines r) then requests_get_stream url timeout
      else ret r in
    match rebind w with
    | (Next r', w1) =>
        try_finally
          (try_except (scan_lines (body_lines r') (body_error r') 0)
                      (fun _ => do_return url))
          (close_quietly r') w1
    | (Return v, w1) => try_finally (do_return v) (close_quietly r) w1
    | (Raise e, w1) => try_finally (do_return url) (close_quietly r) w1
    end.

Definition resolve_playlist (url : str) (timeout : Z) : fn str :=
  def_
    (try_except
       (when (endswith_any url stream_extensions) (do_return url) ;;
        probe <- try_except
                   (r <- requests_head url timeout ;;
                    ret (r, content_type_of r))
                   (fun _ =>
                      try_except
                        (r <- requests_get_stream url timeout ;;
                         ret (r, content_type_of r))
                        (fun _ => do_return url)) ;;
        let (r, content_type) := probe : Response * str in
        when (contains "audio" (lower content_type)
              || endswith_any url [".mp3"; ".aac"; ".m3u8"])
             (close_quietly r ;; do_return url) ;;
        sniff url timeout r ;;
        do_return url)
       (fun _ => do_return url)).

(** ** JSON text

    [json.dump(obj, f, ensure_ascii=False, indent=2)] and [json.load(f)] are
    library calls.  They are modelled by the text the encoder writes for a
    [value] and by the decoder's grammar on that text. *)
Module Json.

Definition dquote : ascii := ascii_of_nat 34.
Definition backslash : ascii := ascii_of_nat 92.
Definition newline : ascii := ascii_of_nat 10.

Definition code (c : ascii) : nat := nat_of_ascii c.

Definition hex_digit (n : nat) : ascii :=
  if (n <? 10)%nat then ascii_of_nat (48 + n) else ascii_of_nat (87 + n).

(** The encoder's replacement for one character (its [ESCAPE_DCT]): the
    quote, the backslash and the control characters are escaped, everything
    else stands for itself. *)
Definition escape_char (c : ascii) : str :=
  let n := code c in
  if (n =? 34)%nat then String backslash (String dquote "")
  else if (n =? 92)%nat then String backslash (String backslash "")
  else if (n =? 8)%nat then String backslash "b"
  else if (n =? 12)%nat then String backslash "f"
  else if (n =? 10)%nat then String backslash "n"
  else if (n =? 13)%nat then String backslash "r"
  else if (n =? 9)%nat then String backslash "t"
  else if (n <? 32)%nat then
    String backslash
      (String "u" (String "0" (String "0"
         (String (hex_digit (n / 16)) (String (hex_digit (n mod 16)) "")))))
  else String c "".

Fixpoint escape (s : str) : str :=
  match s with
  | EmptyString => EmptyString
  | String c s' => escape_char c ++ escape s'
  end.

(** [encode_basestring]: a string in quotes. *)
Definition encode_basestring (s : str) : str :=
  String dquote (escape s ++ String dquote "").

(** [int.__repr__] *)
Definition int_repr (z : Z) : str := NilZero.string_of_int (Z.to_int z).

Fixpoint spaces (n : nat) : str :=
  match n with
  | O => EmptyString
  | S n' => String " " (spaces n')
  end.

(** ['\n' + _indent * level] with [_indent] two spaces *)
Definition newline_indent (level : nat) : str :=
  String newline (spaces (2 * level)).

(** [_iterencode] at nesting depth [level], with the item separator [","]
    and the key separator [": "] that [indent=2] selects. *)
Fixpoint encode (level : nat) (v : value) : str :=
  match v with
  | VNone => "null"
  | VBool true => "true"
  | VBool false => "false"
  | VInt z => int_repr z
  | VStr s => encode_basestring s
  | VList [] => "[]"
  | VList items =>
      "[" ++ newline_indent (S level)
      ++ String.concat ("," ++ newline_indent (S level))
                       (map (encode (S level)) items)
      ++ newline_indent level ++ "]"
  | VDict [] => "{}"
  | VDict entries =>
      "{" ++ newline_indent (S level)
      ++ String.concat ("," ++ newline_indent (S level))
           (map (fun kv : str * value =>
                   let (k, x) := kv in
                   encode_basestring k ++ ": " ++ encode (S level) x)
                entries)
      ++ newline_indent level ++ "}"
  end.

(** [json.dumps(obj, ensure_ascii=False, indent=2)] *)
Definition json_dumps (v : value) : str := encode 0 v.

(** *** The decoder *)

(** The decoder's whitespace: space, TAB, LF, CR. *)
Definition is_ws (c : ascii) : bool :=
  let n := code c in
  ((n =? 32) || (n =? 9) || (n =? 10) || (n =? 13))%nat.

Fixpoint skip_ws (s : str) : str :=
  match s with
  | EmptyString => EmptyString
  | String c s' => if is_ws c then skip_ws s' else s
  end.

Definition is_digit (c : ascii) : bool :=
  ((48 <=? code c) && (code c <=? 57))%nat.

Definition hex_value (c : ascii) : option nat :=
  let n := code c in
  if ((48 <=? n) && (n <=? 57))%nat then Some (n - 48)
  else if ((97 <=? n) && (n <=? 102))%nat then Some (n - 87)
  else if ((65 <=? n) && (n <=? 70))%nat then Some (n - 55)
  else None.

(** The character a one-letter escape stands for (the decoder's
    [BACKSLASH] table). *)
Definition unescape (c : ascii) : option ascii :=
  let n := code c in
  if (n =? 34)%nat then Some dquote
  else if (n =? 92)%nat then Some backslash
  else if (n =? 47)%nat then Some "/"%char
  else if (n =? 98)%nat then Some (ascii_of_nat 8)
  else if (n =? 102)%nat then Some (ascii_of_nat 12)
  else if (n =? 110)%nat then Some (ascii_of_nat 10)
  else if (n =? 114)%nat then Some (ascii_of_nat 13)
  else if (n =? 116)%nat then Some (ascii_of_nat 9)
  else None.

Definition parsed (A : Type) : Type := (exn + A * str)%type.

Definition map_parsed {A B} (f : A -> B) (p : parsed A) : parsed B :=
  match p with
  | inl e => inl e
  | inr (a, rest) => inr (f a, rest)
  end.

(** [scanstring] in strict mode, entered after the opening quote: the
    decoded string and the text after the closing quote. *)
Fixpoint scanstring (s : str) : parsed str :=
  match s with
  | EmptyString => inl JSONDecodeError
  | String c r =>
      if (code c =? 34)%nat then inr (EmptyString, r)
      else if (code c =? 92)%nat then
        match r with
        | EmptyString => inl JSONDecodeError
        | String e r1 =>
            if (code e =? 117)%nat then
              match r1 with
              | String h1 (String h2 (String h3 (String h4 r2))) =>
                  match hex_value h1, hex_value h2, hex_value h3, hex_value h4
                  with
                  | Some a, Some b, Some c', Some d =>
                      let n := ((a * 16 + b) * 16 + c') * 16 + d in
                      if (n <? 256)%nat
                      then map_parsed (String (ascii_of_nat n)) (scanstring r2)
                      else inl Unmodelled
                  | _, _, _, _ => inl JSONDecodeError
                  end
              | _ => inl JSONDecodeError
              end
            else
              match unescape e with
              | Some ch => map_parsed (String ch) (scanstring r1)
              | None => inl JSONDecodeError
              end
        end
      else if (code c <? 32)%nat then inl JSONDecodeError
      else map_parsed (String c) (scanstring r)
  end.

(** The longest run of digits at the head of [s], as a decimal number, and
    the text after it. *)
Fixpoint scan_digits (s : str) : uint * str :=
  match s with
  | EmptyString => (Nil, EmptyString)
  | String c r =>
      if is_digit c then
        let (u, r') := scan_digits r in
        match uint_of_char c (Some u) with
        | Some u' => (u', r')
        | None => (Nil, s)
        end
      else (Nil, s)
  end.

(** Whether a fraction or an exponent follows the integer part. *)
Definition starts_float (r : str) : bool :=
  match r with
  | String c (String d r') =>
      ((code c =? 46)%nat && is_digit d)
      || (((code c =? 101) || (code c =? 69))%nat
          && (is_digit d
              || (((code d =? 43) || (code d =? 45))%nat
                  && match r' with
                     | String x _ => is_digit x
                     | EmptyString => false
                     end)))
  | _ => false
  end.

(** The decoder's number match: an optional minus sign, then [0] or a run of
    digits that does not start with [0]. *)
Definition parse_number (s : str) : parsed value :=
  let (negative, s1) :=
    match s with
    | String c r => if (code c =? 45)%nat then (true, r) else (false, s)
    | EmptyString => (false, s)
    end in
  match s1 with
  | EmptyString => inl JSONDecodeError
  | String c r =>
      if negb (is_digit c) then inl JSONDecodeError
      else
        let (u, rest) :=
          if (code c =? 48)%nat then (D0 Nil, r) else scan_digits s1 in
        if starts_float rest then inl Unmodelled
        else inr (VInt (Z.of_int (if negative then Neg u else Pos u)), rest)
  end.

(** [s] without its first [n] characters. *)
Fixpoint drop (n : nat) (s : str) : str :=
  match n, s with
  | S n', String _ s' => drop n' s'
  | _, _ => s
  end.

(** [scan_once] with the object and array loops.  [fuel] bounds the number
    of nested calls; [json_loads] supplies enough of it for any text. *)
Fixpoint parse_value (fuel : nat) (s : str) {struct fuel} : parsed value :=
  match fuel with
  | O => inl JSONDecodeError
  | S fuel' =>
      match s with
      | EmptyString => inl JSONDecodeError
      | String c r =>
          let n := code c in
          if (n =? 34)%nat then map_parsed VStr (scanstring r)
          else if (n =? 123)%nat then
            match skip_ws r with
            | EmptyString => inl JSONDecodeError
            | String c1 r1 =>
                if (code c1 =? 125)%nat then inr (VDict [], r1)
                else parse_members fuel' (String c1 r1) []
            end
          else if (n =? 91)%nat then
            match skip_ws r with
            | EmptyString => inl JSONDecodeError
            | String c1 r1 =>
                if (code c1 =? 93)%nat then inr (VList [], r1)
                else parse_items fuel' (String c1 r1) []
            end
          else if String.prefix "null" s then inr (VNone, drop 4 s)
          else if String.prefix "true" s then inr (VBool true, drop 4 s)
          else if String.prefix "false" s then inr (VBool false, drop 5 s)
          else if String.prefix "NaN" s || String.prefix "Infinity" s
                  || String.prefix "-Infinity" s then inl Unmodelled
          else parse_number s
      end
  end

(** The array loop: [s] starts at an item, [acc] holds the items read so
    far. *)
with parse_items (fuel : nat) (s : str) (acc : list value) {struct fuel}
  : parsed value :=
  match fuel with
  | O => inl JSONDecodeError
  | S fuel' =>
      match parse_value fuel' s with
      | inl e => inl e
      | inr (v, rest) =>
          match skip_ws rest with
          | EmptyString => inl JSONDecodeError
          | String c r =>
              if (code c =? 93)%nat then inr (VList (acc ++ [v]), r)
              else if (code c =? 44)%nat
                   then parse_items fuel' (skip_ws r) (acc ++ [v])
                   else inl JSONDecodeError
          end
      end
  end

(** The object loop: [s] starts at a key, [acc] holds the entries read so
    far; a repeated key overwrites the earlier value. *)
with parse_members (fuel : nat) (s : str) (acc : list (str * value))
       {struct fuel} : parsed value :=
  match fuel with
  | O => inl JSONDecodeError
  | S fuel' =>
      match s with
      | EmptyString => inl JSONDecodeError
      | String q r0 =>
          if negb (code q =? 34)%nat then inl JSONDecodeError
          else
            match scanstring r0 with
            | inl e => inl e
            | inr (key, r1) =>
                match skip_ws r1 with
                | EmptyString => inl JSONDecodeError
                | String colon r2 =>
                    if negb (code colon =? 58)%nat then inl JSONDecodeError
                    else
                      match parse_value fuel' (skip_ws r2) with
                      | inl e => inl e
                      | inr (v, rest) =>
                          match skip_ws rest with
                          | EmptyString => inl JSONDecodeError
                          | String c r =>
                              if (code c =? 125)%nat
                              then inr (VDict (dict_set acc key v), r)
                              else if (code c =? 44)%nat
                                   then parse_members fuel' (skip_ws r)
                                          (dict_set acc key v)
                                   else inl JSONDecodeError
                          end
                      end
                end
            end
      end
  end.

(** [json.loads(s)]: one value between optional whitespace, and nothing
    after it. *)
Definition json_loads (s : str) : exn + value :=
  match parse_value (2 * String.length s + 2) (skip_ws s) with
  | inl e => inl e
  | inr (v, rest) =>
      match skip_ws rest with
      | EmptyString => inr v
      | String _ _ => inl JSONDecodeError
      end
  end.

End Json.
Import Json.

(** ** Operations on Python objects *)

(** [a == b] on values: a bool compares as the integer 0 or 1, a list
    item by item, a dict key by key whatever the order. *)
Fixpoint py_eq (a b : value) {struct a} : bool :=
  match a, b with
  | VNone, VNone => true
  | VBool x, VBool y => Bool.eqb x y
  | VBool x, VInt y => (y =? (if x then 1 else 0))%Z
  | VInt x, VBool y => (x =? (if y then 1 else 0))%Z
  | VInt x, VInt y => (x =? y)%Z
  | VStr x, VStr y => String.eqb x y
  | VList xs, VList ys =>
      (fix items_eq (xs ys : list value) {struct xs} : bool :=
         match xs, ys with
         | [], [] => true
         | x :: xs', y :: ys' => py_eq x y && items_eq xs' ys'
         | _, _ => false
         end) xs ys
  | VDict xs, VDict ys =>
      (List.length xs =? List.length ys)%nat
      && (fix entries_eq (xs : list (str * value)) : bool :=
            match xs with
            | [] => true
            | (k, x) :: xs' =>
                match entries_get ys k with
                | Some y => py_eq x y
                | None => false
                end && entries_eq xs'
            end) xs
  | _, _ => false
  end.

(** [obj.get(key, default)]: only a dict has the method. *)
Definition py_get (obj : value) (key : str) (default : value) : exn + value :=
  match obj with
  | VDict d =>
      match entries_get d key with
      | Some v => inr v
      | None => inr default
      end
  | _ => inl AttributeError
  end.

(** [obj[idx]] for a non-negative integer [idx]. *)
Definition py_getitem (obj : value) (idx : nat) : exn + value :=
  match obj with
  | VList l =>
      match nth_error l idx with
      | Some v => inr v
      | None => inl IndexError
      end
  | VStr s =>
      match String.get idx s with
      | Some c => inr (VStr (String c ""))
      | None => inl IndexError
      end
  | VDict _ => inl KeyError
  | _ => inl TypeError
  end.

(** [obj[key]] for a string [key]. *)
Definition py_getitem_key (obj : value) (key : str) : exn + value :=
  match obj with
  | VDict d =>
      match entries_get d key with
      | Some v => inr v
      | None => inl KeyError
      end
  | _ => inl TypeError
  end.

(** [obj.append(x)] *)
Definition py_append (obj : value) (x : value) : exn + value :=
  match obj with
  | VList l => inr (VList (l ++ [x]))
  | _ => inl AttributeError
  end.

(** [del obj[idx]] *)
Definition py_delitem (obj : value) (idx : nat) : exn + value :=
  match obj with
  | VList l =>
      if (idx <? List.length l)%nat
      then inr (VList (firstn idx l ++ skipn (S idx) l))
      else inl IndexError
  | VDict _ => inl KeyError
  | _ => inl TypeError
  end.

(** [obj[idx] = x]; a dict would get an integer key, which [value] does not
    have. *)
Definition py_setitem (obj : value) (idx : nat) (x : value) : exn + value :=
  match obj with
  | VList l =>
      if (idx <? List.length l)%nat
      then inr (VList (firstn idx l ++ x :: skipn (S idx) l))
      else inl IndexError
  | VDict _ => inl Unmodelled
  | _ => inl TypeError
  end.

(** The items a [for] loop over [obj] visits. *)
Definition py_iter (obj : value) : exn + list value :=
  match obj with
  | VList l => inr l
  | VDict d => inr (map (fun kv : str * value => VStr (fst kv)) d)
  | VStr s =>
      inr (map (fun c : ascii => VStr (String c "")) (list_ascii_of_string s))
  | _ => inl TypeError
  end.

(** A pure operation that may raise, as a statement. *)
Definition lift {R A} (x : exn + A) : stmt R A :=
  match x with
  | inl e => raise e
  | inr a => ret a
  end.

Definition get_self {R} : stmt R RadioApp := fun w => (Next (self w), w).

Definition update_self {R} (f : RadioApp -> RadioApp) : stmt R unit :=
  fun w => (Next tt, set_self (f (self w)) w).

(** [messagebox.showinfo] / [showerror] with the dialog's title. *)
Definition messagebox {R} (d : dialog) (title : str) : stmt R unit :=
  effect (EvDialog d title).

(** [print(f"...")] of a debug line that formats the objects [objs] of a
    search result: the text goes through the encoder of [sys.stdout],
    which may refuse it.  What is printed is not recorded in the trace.
    (The debug lines of fixed text and of exception messages are left out
    of the model.) *)
Definition print_debug {R} (objs : list value) : stmt R unit :=
  fun w =>
    match stdout_error w objs with
    | Some e => (Raise e, w)
    | None => (Next tt, w)
    end.

(** [self.after(0, callback)]: the callback runs on the main loop, which
    reports an exception of the callback and goes on. *)
Definition after {R} (callback : fn unit) : stmt R unit :=
  try_except (call callback) (fun _ => ret tt).

(** [threading.Thread(target=f, daemon=True).start()]: the thread's work
    is run to its end; an exception ends the thread only. *)
Definition start_thread {R} (target : fn unit) : stmt R unit :=
  try_except (call target) (fun _ => ret tt).

(** ** Station storage *)

(** [os.path.exists(STATIONS_FILE)] *)
Definition os_path_exists {R} : stmt R bool :=
  fun w =>
    (Next match stations_file w with Absent => false | _ => true end, w).

(** [open(path, "r", encoding="utf-8")] and the read of the whole text. *)
Definition read_text {R} : stmt R str :=
  fun w =>
    match stations_file w with
    | Absent => (Raise OSError, w)
    | Unreadable e => (Raise e, w)
    | Text s => (Next s, w)
    end.

(** [open(STATIONS_FILE, "w", encoding="utf-8")]: truncates the file. *)
Definition open_for_write {R} : stmt R unit :=
  fun w =>
    let w' := emit EvOpenForWrite w in
    match disk w with
    | OpenFails e => (Raise e, w')
    | _ => (Next tt, set_file (Text "") w')
    end.

(** The writes of [json.dump] into the open file: the whole text reaches
    the file, or the dump raises on the way (the device, or the file's
    encoder on text it refuses) and the file keeps what was written. *)
Definition write_text {R} (text : str) : stmt R unit :=
  fun w =>
    let w' := emit (EvWrite text) w in
    match disk w with
    | WriteFails e n => (Raise e, set_file (Text (substring 0 n text)) w')
    | _ => (Next tt, set_file (Text text) w')
    end.

Definition load_stations : fn value :=
  def_
    (found <- os_path_exists ;;
     when (negb found) (do_return (VList [])) ;;
     text <- read_text ;;
     data <- lift (json_loads text) ;;
     do_return data).

(** [RadioApp.save_stations] *)
Definition save_stations : fn unit :=
  proc
    (try_except
       (open_for_write ;;
        app <- get_self ;;
        write_text (json_dumps (stations app)))
       (fun _ => messagebox showerror "Save error")).

(** ** [RadioPlayer] *)

Definition set_player {R} (p : RadioPlayer) : stmt R unit :=
  update_self (with_player p).

(** libvlc's [self.player.stop()] *)
Definition vlc_stop {R} : stmt R unit :=
  fun w =>
    let w' := emit EvVlcStop w in
    match vlc_stop_error w with
    | Some e => (Raise e, w')
    | None => (Next tt, w')
    end.

(** libvlc's [media_new(url)], [set_media(media)] and [play()] *)
Definition vlc_play {R} (url : value) : stmt R unit :=
  fun w =>
    let w' := emit (EvVlcPlay url) w in
    match vlc_play_error w with
    | Some e => (Raise e, w')
    | None => (Next tt, w')
    end.

Definition RadioPlayer_stop : fn unit :=
  proc
    (try_finally
       vlc_stop
       (app <- get_self ;;
        set_player (mkPlayer (current_url (player app)) false) ;;
        set_player (mkPlayer VNone false))).

Definition RadioPlayer_play (url : value) : fn unit :=
  proc
    (try_except
       (app <- get_self ;;
        when (playing (player app)) (call RadioPlayer_stop) ;;
        vlc_play url ;;
        app <- get_self ;;
        set_player (mkPlayer url (playing (player app))) ;;
        set_player (mkPlayer url true))
       (fun _ =>
          app <- get_self ;;
          set_player (mkPlayer (current_url (player app)) false))).

(** ** [RadioApp]: station management *)

Definition set_stations {R} (v : value) : stmt R unit :=
  update_self (with_stations v).

Definition set_status {R} (s : str) : stmt R unit :=
  update_self (with_status s).

(** [self.listbox.insert(tk.END, text)] *)
Definition listbox_append {R} (l : label) : stmt R unit :=
  app <- get_self ;;
  effect (EvListboxInsert (List.length (listbox app)) l) ;;
  update_self (with_listbox (listbox app ++ [l])).

(** [self.listbox.insert(index, text)] *)
Definition listbox_insert {R} (index : nat) (l : label) : stmt R unit :=
  app <- get_self ;;
  effect (EvListboxInsert index l) ;;
  update_self
    (with_listbox (firstn index (listbox app) ++ l :: skipn index (listbox app))).

(** [self.listbox.delete(index)] *)
Definition listbox_delete {R} (index : nat) : stmt R unit :=
  app <- get_self ;;
  effect (EvListboxDelete index) ;;
  update_self
    (with_listbox (firstn index (listbox app) ++ skipn (S index) (listbox app))).

(** [RadioApp.__init__(stations)]: binds the attributes and fills the list
    box from the stations. *)
Fixpoint fill_listbox (items : list value) : stmt unit unit :=
  match items with
  | [] => ret tt
  | s :: rest =>
      name <- lift (py_get s "name" (VStr "(no name)")) ;;
      info <- lift (py_get s "info" (VStr "")) ;;
      listbox_append (mkLabel name info) ;;
      fill_listbox rest
  end.

Definition RadioApp_init (loaded : value) : fn unit :=
  proc
    (update_self
       (fun _ => mkApp loaded (mkPlayer VNone false) (VList []) [] []
                       "Stopped" true true "") ;;
     items <- lift (py_iter loaded) ;;
     fill_listbox items).

(** [on_delete]; [sel] is the list box's selection ([None] when nothing is
    selected), [answer] what the user answers to the confirmation. *)
Definition on_delete (sel : option nat) (answer : bool) : fn unit :=
  proc
    (match sel with
     | None => messagebox showinfo "Delete station" ;; do_return tt
     | Some idx =>
         app <- get_self ;;
         st <- lift (py_getitem (stations app) idx) ;;
         _ <- lift (py_get st "name" (VStr "(no name)")) ;;
         messagebox askyesno "Delete" ;;
         when answer
           (app <- get_self ;;
            st <- lift (py_getitem (stations app) idx) ;;
            url <- lift (py_get st "url" VNone) ;;
            when (py_eq (current_url (player app)) url)
                 (call RadioPlayer_stop ;; set_status "Stopped") ;;
            app <- get_self ;;
            stations' <- lift (py_delitem (stations app) idx) ;;
            set_stations stations' ;;
            listbox_delete idx ;;
            call save_stations)
     end).

(** [on_save] *)
Definition on_save : fn unit :=
  proc (call save_stations ;; messagebox showinfo "Saved").

(** [on_ok] of the station editor; [index] is [None] for Add and the edited
    position for Edit, the three strings are the contents of the entry
    fields. *)
Definition on_ok (index : option nat) (name_var info_var url_var : str)
  : fn unit :=
  proc
    (let name := strip name_var in
     let info := strip info_var in
     let url := strip url_var in
     when (negb (truthy name) || negb (truthy url))
          (messagebox showinfo "Validation" ;; do_return tt) ;;
     let entry :=
       VDict (dict_set (dict_set (dict_set [] "name" (VStr name))
                                 "info" (VStr info))
                       "url" (VStr url)) in
     match index with
     | None =>
         app <- get_self ;;
         stations' <- lift (py_append (stations app) entry) ;;
         set_stations stations' ;;
         listbox_append (mkLabel (VStr name) (VStr info))
     | Some i =>
         app <- get_self ;;
         stations' <- lift (py_setitem (stations app) i entry) ;;
         set_stations stations' ;;
         listbox_delete i ;;
         listbox_insert i (mkLabel (VStr name) (VStr info))
     end ;;
     call save_stations).

(** [on_play] *)
Definition on_play (sel : option nat) : fn unit :=
  proc
    (match sel with
     | None => messagebox showinfo "Select station" ;; do_return tt
     | Some idx =>
         app <- get_self ;;
         st <- lift (py_getitem (stations app) idx) ;;
         url <- lift (py_get st "url" VNone) ;;
         when (negb (value_truthy url))
              (messagebox showinfo "No URL" ;; do_return tt) ;;
         set_status "Connecting..." ;;
         start_thread
           (proc
              (call (RadioPlayer_play url) ;;
               after
                 (proc
                    (app <- get_self ;;
                     set_status (if playing (player app)
                                 then "Playing" else "Stopped")))))
     end).

(** [on_stop] *)
Definition on_stop : fn unit :=
  proc (call RadioPlayer_stop ;; set_status "Stopped").

(** ** [RadioApp]: directory search *)

Definition search_url : str :=
  "https://all.api.radio-browser.info/json/stations/search".

(** [requests.get(search_url, params={m: query, "limit": 50,
    "hidebroken": True}, timeout=10)] *)
Definition search_request (m query : str) : request :=
  mkRequest GET search_url
            (dict_set (dict_set (dict_set [] m (VStr query))
                                "limit" (VInt 50))
                      "hidebroken" (VBool true))
            10 true false.

(** [r.raise_for_status()] *)
Definition raise_for_status {R} (r : Response) : stmt R unit :=
  match status_error r with
  | Some e => raise e
  | None => ret tt
  end.

(** Lines 378-389: the [for m in modes] loop; [items] is the variable's
    value when the loop is entered. *)
Fixpoint search_modes {R} (query : str) (modes : list str) (items : value)
  : stmt R value :=
  match modes with
  | [] => ret items
  | m :: rest =>
      items <- try_except
                 (r <- send (search_request m query) ;;
                  raise_for_status r ;;
                  lift (json_body r))
                 (fun _ => ret (VList [])) ;;
      if value_truthy items then ret items
      else search_modes query rest items
  end.

Definition auto_modes : list str := ["name"; "tag"; "country"; "language"].

(** [_display_search_results(items)] *)
Fixpoint display_rows (items : list value) : stmt unit unit :=
  match items with
  | [] => ret tt
  | it :: rest =>
      name <- lift (py_get it "name" (VStr "(no name)")) ;;
      country <- lift (py_get it "country" (VStr "")) ;;
      u1 <- lift (py_get it "url_resolved" VNone) ;;
      u2 <- lift (py_get it "url" VNone) ;;
      app <- get_self ;;
      update_self
        (with_results_listbox
           (results_listbox app
            ++ [mkRow name country (py_or u1 (py_or u2 (VStr "")))])) ;;
      display_rows rest
  end.

Definition _display_search_results (items : value) : fn unit :=
  proc
    (update_self (with_results_listbox []) ;;
     rows <- lift (py_iter items) ;;
     display_rows rows).

(** Lines 369-392 of [_search_thread]: the value [items] has after the
    outer [try] statement. *)
Definition search (query mode : str) : fn value :=
  def_
    (items <- try_except
                (let modes :=
                   if String.eqb mode "Auto" then auto_modes
                   else [lower mode] in
                 search_modes query modes (VList []))
                (fun _ =>
                   after (proc (messagebox showerror "Search error")) ;;
                   ret (VList [])) ;;
     do_return items).

Definition _search_thread (query mode : str) : fn unit :=
  proc
    (items <- call (search query mode) ;;
     update_self (with_search_results items) ;;
     after (_display_search_results items) ;;
     try_except (after (proc (update_self (with_search_btn true))))
                (fun _ => ret tt)).

(** [on_search]; [search_var] is the text of the search field, [mode] the
    selected search mode. *)
Definition on_search (search_var mode : str) : fn unit :=
  proc
    (let query := strip search_var in
     when (negb (truthy query)) (messagebox showinfo "Search" ;; do_return tt) ;;
     try_except (update_self (with_search_btn false)) (fun _ => ret tt) ;;
     update_self (with_results_listbox []) ;;
     start_thread (_search_thread query mode)).

(** ** [RadioApp]: add a search result *)

(** [resolve_playlist(url, timeout=timeout)] on an arbitrary object: an
    object that is not a [str] has no [endswith], the [AttributeError] is
    caught by the outer handler of [resolve_playlist], which returns the
    object. *)
Definition resolve_playlist_object (url : value) (timeout : Z) : fn value :=
  match url with
  | VStr u =>
      fun w =>
        match resolve_playlist u timeout w with
        | (Value r, w') => (Value (VStr r), w')
        | (Exception e, w') => (Exception e, w')
        end
  | other => fun w => (Value other, w)
  end.

(** [_finish] of [_add_search_thread] *)
Definition _finish (entry : value) : fn unit :=
  proc
    (try_finally
       (try_except
          (shown_name <- lift (py_get entry "name" VNone) ;;
           shown_url <- lift (py_get entry "url" VNone) ;;
           print_debug [shown_name; shown_url] ;;
           app <- get_self ;;
           stations' <- lift (py_append (stations app) entry) ;;
           set_stations stations' ;;
           name <- lift (py_getitem_key entry "name") ;;
           info <- lift (py_getitem_key entry "info") ;;
           listbox_append (mkLabel name info) ;;
           call save_stations ;;
           try_except (messagebox showinfo "Added") (fun _ => ret tt))
          (fun _ =>
             try_except (messagebox showerror "Add failed")
                        (fun _ => ret tt)))
       (try_except
          (try_except
             (app <- get_self ;;
              set_status (_add_search_prev_status app))
             (fun _ => ret tt) ;;
           update_self (with_add_search_btn true))
          (fun _ => ret tt))).

Definition _add_search_thread (item url : value) : fn unit :=
  proc
    (try_except
       (print_debug [url] ;;
        resolved <- try_except
                      (resolved <- call (resolve_playlist_object url 5) ;;
                       print_debug [resolved] ;;
                       ret resolved)
                      (fun _ => ret url) ;;
        name <- lift (py_get item "name" (VStr "(no name)")) ;;
        info <- lift (py_get item "tags" (VStr "")) ;;
        let entry :=
          VDict (dict_set (dict_set (dict_set [] "name" name) "info" info)
                          "url" resolved) in
        after (_finish entry))
       (fun _ =>
          after
            (proc
               (try_except (messagebox showerror "Error") (fun _ => ret tt) ;;
                try_except (update_self (with_add_search_btn true))
                           (fun _ => ret tt))))).

(** Lines 410-425 of [on_add_search]: what the handler does before it
    starts the thread.  [sel] is the selection of the results list box;
    the result is the selected item with its url, [None] when nothing is
    selected. *)
Definition on_add_search_begin {R} (sel : option nat)
  : stmt R (option (value * value)) :=
  match sel with
  | None => messagebox showinfo "Add" ;; ret None
  | Some idx =>
      app <- get_self ;;
      item <- lift (py_getitem (_search_results app) idx) ;;
      u1 <- lift (py_get item "url_resolved" VNone) ;;
      u2 <- lift (py_get item "url" VNone) ;;
      let url := py_or u1 (py_or u2 (VStr "")) in
      try_except
        (app <- get_self ;;
         update_self (with_prev_status (status_var app)) ;;
         set_status "Resolving..." ;;
         update_self (with_add_search_btn false))
        (fun _ => ret tt) ;;
      ret (Some (item, url))
  end.

(** [on_add_search] *)
Definition on_add_search (sel : option nat) : fn unit :=
  proc
    (begun <- on_add_search_begin sel ;;
     match begun with
     | None => do_return tt
     | Some (item, url) => start_thread (_add_search_thread item url)
     end).

(** ** [main] up to the main loop *)
Definition main : fn unit :=
  proc
    (loaded <- call load_stations ;;
     call (RadioApp_init loaded)).

(** ** Vocabulary of the statements

    The definitions below are not part of the program: they name what the
    theorems speak about. *)

(** Strings made of whitespace only; strings that start, or end, with a
    whitespace character. *)
Fixpoint all_space (s : str) : bool :=
  match s with
  | EmptyString => true
  | String c s' => is_space c && all_space s'
  end.

Definition starts_with_space (s : str) : bool :=
  match s with
  | EmptyString => false
  | String c _ => is_space c
  end.

Fixpoint ends_with_space (s : str) : bool :=
  match s with
  | EmptyString => false
  | String c EmptyString => is_space c
  | String _ s' => ends_with_space s'
  end.

(** A line that starts with [http://] or [https://]. *)
Definition is_url_line (line : str) : bool :=
  startswith line "http://" || startswith line "https://".

(** The lines of a body that the scan classifies, stripped: the [str]
    items, a blank [bytes] item as the empty line, up to the first [bytes]
    item that is not blank, which the scan cannot classify. *)
Fixpoint text_lines (items : list (option body_line)) : list str :=
  match items with
  | [] => []
  | None :: rest => text_lines rest
  | Some (StrLine raw) :: rest => strip raw :: text_lines rest
  | Some (BytesLine raw) :: rest =>
      if PyBytes.truthy (PyBytes.strip raw) then []
      else "" :: text_lines rest
  end.

(** The exception that ends the scan of a body which neither a URL line
    nor the budget ends: [TypeError] at the first [bytes] item that is not
    blank, else the exception of the iterator. *)
Fixpoint scan_error (items : list (option body_line)) (err : option exn)
  : option exn :=
  match items with
  | [] => err
  | None :: rest => scan_error rest err
  | Some (StrLine _) :: rest => scan_error rest err
  | Some (BytesLine raw) :: rest =>
      if PyBytes.truthy (PyBytes.strip raw) then Some TypeError
      else scan_error rest err
  end.

(** The first URL line among the first 64 of these lines. *)
Definition first_url_line (items : list (option body_line)) : option str :=
  find is_url_line (firstn max_lines (text_lines items)).

(** The content-type test of line 61. *)
Definition is_audio (r : Response) : bool :=
  contains "audio" (lower (content_type_of r)).

(** The response of the content-type probe and the trace once it is
    received: the HEAD response, or the streamed GET response when HEAD
    fails; [None] when both fail. *)
Definition probe (w : world) (url : str) (timeout : Z)
  : option (Response * list event) :=
  let t1 := (trace w ++ [EvRequest (head_request url timeout)])%list in
  match network w (trace w) (head_request url timeout) with
  | inr r => Some (r, t1)
  | inl _ =>
      match network w t1 (get_request url timeout) with
      | inr r => Some (r, (t1 ++ [EvRequest (get_request url timeout)])%list)
      | inl _ => None
      end
  end.

(** The response whose body the playlist-sniff step scans, when the
    resolution of [url] reaches that step and has a response to scan: the
    probe's response, or the response of a new streamed GET when the
    probe's has no [iter_lines]. *)
Definition sniffed_response (w : world) (url : str) (timeout : Z)
  : option Response :=
  if endswith_any url stream_extensions then None
  else
    match probe w url timeout with
    | None => None
    | Some (r, t) =>
        if is_audio r then None
        else if has_iter_lines r then Some r
        else
          match network w t (get_request url timeout) with
          | inr r' => Some r'
          | inl _ => None
          end
    end.

(** A well-formed object: the keys of every dict are pairwise distinct, as
    Python's dicts guarantee. *)
Fixpoint well_formed (v : value) : Prop :=
  match v with
  | VList items =>
      (fix all (l : list value) : Prop :=
         match l with
         | [] => True
         | x :: l' => well_formed x /\ all l'
         end) items
  | VDict entries =>
      NoDup (map fst entries)
      /\ (fix all (l : list (str * value)) : Prop :=
            match l with
            | [] => True
            | (_, x) :: l' => well_formed x /\ all l'
            end) entries
  | _ => True
  end.

(** The requests among the events of a trace, oldest first. *)
Fixpoint requests_of (t : list event) : list request :=
  match t with
  | [] => []
  | EvRequest rq :: t' => rq :: requests_of t'
  | _ :: t' => requests_of t'
  end.

(** What [resolve_playlist] is expected to return: the first URL line of
    the sniffed body, and [url] itself when there is none or when the
    sniff step is not reached. *)
Definition resolved_url (w : world) (url : str) (timeout : Z) : str :=
  match sniffed_response w url timeout with
  | Some r =>
      match first_url_line (body_lines r) with
      | Some line => line
      | None => url
      end
  | None => url
  end.

(** ** Sample worlds and responses for the examples *)

Definition fresh_app : RadioApp :=
  mkApp (VList []) (mkPlayer VNone false) (VList []) [] [] "Stopped"
        true true "".

(** A standard output that takes every text. *)
Definition accepting : list value -> option exn := fun _ => None.

(** A world with the given remote side and stations file, an empty trace
    and no fault. *)
Definition world_of (net : list event -> request -> exn + Response)
           (f : file) : world :=
  mkWorld [] net f NoFault None None accepting fresh_app.

(** Every connection is refused. *)
Definition refusing : list event -> request -> exn + Response :=
  fun _ _ => inl ConnectionError.

(** A response with the given content type whose body is decoded: its
    lines are [str]. *)
Definition text_response (content_type : str) (lines : list str) : Response :=
  mkResponse (Some content_type) true
             (map (fun s => Some (StrLine s)) lines) None None None
             (inl JSONDecodeError).

(** A response with the given content type that declares no encoding: its
    lines are [bytes]. *)
Definition bytes_response (content_type : str) (lines : list str)
  : Response :=
  mkResponse (Some content_type) true
             (map (fun s => Some (BytesLine (PyBytes.of_text s))) lines)
             None None None (inl JSONDecodeError).

(** HEAD is answered with [h], which has headers and no body; GET is
    answered with [g]. *)
Definition head_then_get (h g : Response)
  : list event -> request -> exn + Response :=
  fun _ rq =>
    match rq_method rq with
    | HEAD => inr h
    | GET => inr g
    end.

(** A playlist as a server sends it. *)
Definition playlist_lines : list str :=
  ["#comment"; ""; "http://stream.example/a"; "http://stream.example/b"].

(** HEAD is refused, GET answers with [r]. *)
Definition get_only (r : Response) : list event -> request -> exn + Response :=
  fun _ rq =>
    match rq_method rq with
    | HEAD => inl ConnectionError
    | GET => inr r
    end.

(** Every request is answered with [r]. *)
Definition always (r : Response) : list event -> request -> exn + Response :=
  fun _ _ => inr r.

(** The directory's answer to a search request issued after the events
    [t]: the decoded JSON body, or [None] when the request, the status
    check or the decoding fails. *)
Definition answer (w : world) (t : list event) (rq : request)
  : option value :=
  match network w t rq with
  | inl _ => None
  | inr r =>
      match status_error r with
      | Some _ => None
      | None =>
          match json_body r with
          | inl _ => None
          | inr v => Some v
          end
      end
  end.

(** The trace [t] extended by one search request per mode, in order. *)
Definition asked (t : list event) (query : str) (modes : list str)
  : list event :=
  (t ++ map (fun m => EvRequest (search_request m query)) modes)%list.

(** The answer to the [k]-th mode of [modes] when the modes before it have
    been asked in order. *)
Definition answer_of (w : world) (query : str) (modes : list str) (k : nat)
  : option value :=
  answer w (asked (trace w) query (firstn k modes))
         (search_request (nth k modes "") query).

(** A mode that fails or returns the empty sequence. *)
Definition failed_or_empty (a : option value) : Prop :=
  a = None \/ a = Some (VList []).

(** A response of the directory with the given JSON body. *)
Definition json_response (v : value) : Response :=
  mkResponse (Some "application/json") true [] None None None (inr v).

(** A search result as the directory returns it. *)
Definition search_item (name country tags url url_resolved : str) : value :=
  VDict [("name", VStr name); ("country", VStr country);
         ("tags", VStr tags); ("url", VStr url);
         ("url_resolved", VStr url_resolved)].

Definition jazz_item : value :=
  search_item "Jazz FM" "FR" "jazz" "http://jazz.example/listen.pls"
              "http://jazz.example/stream.mp3".

(** A directory that knows nothing by name, one station by tag, and is
    unreachable for the other modes. *)
Definition jazz_directory : list event -> request -> exn + Response :=
  fun _ rq =>
    match rq_params rq with
    | (m, _) :: _ =>
        if String.eqb m "name" then inr (json_response (VList []))
        else if String.eqb m "tag" then inr (json_response (VList [jazz_item]))
        else inl ConnectionError
    | [] => inl ConnectionError
    end.

(** The events of one run of [save_stations] that writes [text], by the
    disk's behaviour. *)
Definition save_events (d : disk_fault) (text : str) : list event :=
  match d with
  | NoFault => [EvOpenForWrite; EvWrite text]
  | OpenFails _ => [EvOpenForWrite; EvDialog showerror "Save error"]
  | WriteFails _ _ =>
      [EvOpenForWrite; EvWrite text; EvDialog showerror "Save error"]
  end.

(** The stations file after that run. *)
Definition saved_file (d : disk_fault) (old : file) (text : str) : file :=
  match d with
  | NoFault => Text text
  | OpenFails _ => old
  | WriteFails _ n => Text (substring 0 n text)
  end.

(** [l] without its [i]-th item. *)
Definition without {A : Type} (i : nat) (l : list A) : list A :=
  (firstn i l ++ skipn (S i) l)%list.

(** A station record as the editor builds it. *)
Definition station (name info url : str) : value :=
  VDict [("name", VStr name); ("info", VStr info); ("url", VStr url)].

Definition jazz_station : value :=
  station "Jazz FM" "jazz" "http://jazz.example/stream.mp3".

Definition news_station : value :=
  station "News" "talk" "http://news.example/live".

(** The application with two stations, the first of them playing. *)
Definition playing_app : RadioApp :=
  mkApp (VList [jazz_station; news_station])
        (mkPlayer (VStr "http://jazz.example/stream.mp3") true)
        (VList [])
        [mkLabel (VStr "Jazz FM") (VStr "jazz");
         mkLabel (VStr "News") (VStr "talk")]
        [] "Playing" true true "".

Definition playing_world : world :=
  mkWorld [] refusing
          (Text (json_dumps (VList [jazz_station; news_station])))
          NoFault None None accepting playing_app.

(** A search result whose name is the empty string. *)
Definition nameless_item : value :=
  search_item "" "FR" "jazz" "http://jazz.example/listen.pls"
              "http://jazz.example/stream.mp3".

(** A search result without any url. *)
Definition urlless_item : value :=
  search_item "Jazz FM" "FR" "jazz" "" "".

(** The application after a search that found [items]. *)
Definition found_world (items : list value) : world :=
  mkWorld [] refusing Absent NoFault None None accepting
          (with_search_results (VList items) fresh_app).

(** What may follow a value in the encoder's output: the end of the text,
    a comma, or a line break. *)
Definition follows_value (rest : str) : Prop :=
  rest = ""
  \/ (exists r, rest = String "," r)
  \/ (exists r, rest = String newline r).

(** [v] is read back from its encoding: at any nesting depth, with fuel for
    the length of the text, and whatever follows the value. *)
Definition reads_back (v : value) : Prop :=
  forall (level fuel : nat) (rest : str),
    (String.length (encode level v) <= fuel)%nat ->
    follows_value rest ->
    parse_value fuel (encode level v ++ rest) = inr (v, rest).

(** The text of the items of a list, and of the entries of a dict, between
    the brackets. *)
Definition items_text (level : nat) (items : list value) : str :=
  String.concat ("," ++ newline_indent (S level))
                (map (encode (S level)) items).

Definition entries_text (level : nat) (entries : list (str * value)) : str :=
  String.concat ("," ++ newline_indent (S level))
    (map (fun kv : str * value =>
            let (k, x) := kv in
            encode_basestring k ++ ": " ++ encode (S level) x)
         entries).

(** The application with one station, as saved on disk. *)
Definition one_station_world : world :=
  mkWorld [] refusing (Text (json_dumps (VList [jazz_station])))
          NoFault None None accepting
          (mkApp (VList [jazz_station]) (mkPlayer VNone false) (VList [])
                 [mkLabel (VStr "Jazz FM") (VStr "jazz")] [] "Stopped"
                 true true "").

(** ** Tactics for running the handlers symbolically *)

(** Reduces the projections of worlds and application objects. *)
Ltac world_simpl :=
  cbn [self stations player listbox results_listbox status_var
       _search_results search_btn_enabled add_search_btn_enabled
       _add_search_prev_status current_url playing
       trace network stations_file disk vlc_stop_error vlc_play_error
       stdout_error emit set_self set_file
       with_status with_stations with_listbox with_player
       with_search_results with_results_listbox with_search_btn
       with_add_search_btn with_prev_status] in *.

(** Unfolds the statements of a handler, compound ones first. *)
Ltac unfold_statements :=
  unfold set_status, set_stations, set_player, listbox_delete, listbox_append,
    listbox_insert, messagebox, when, lift, call;
  unfold proc, bind, get_self, effect, update_self, print_debug, ret, raise,
    do_return.


(** ** Vocabulary of the further properties *)

(** The world [w] after the events [t], nothing else changed. *)
Definition extend (t : list event) (w : world) : world :=
  mkWorld (trace w ++ t) (network w) (stations_file w) (disk w)
          (vlc_stop_error w) (vlc_play_error w) (stdout_error w) (self w).

(** The events of the playlist-sniff step entered in the world [w] with the
    response [r]: a new GET when [r] has no [iter_lines], and the close of
    the response held at the end. *)
Definition sniff_events (w : world) (url : str) (timeout : Z) (r : Response)
  : list event :=
  if has_iter_lines r then [EvClose r]
  else
    match network w (trace w) (get_request url timeout) with
    | inr r' => [EvRequest (get_request url timeout); EvClose r']
    | inl _ => [EvRequest (get_request url timeout); EvClose r]
    end.

(** The events of [resolve_playlist] after the probe answered with [r]. *)
Definition after_probe_events (w : world) (url : str) (timeout : Z)
           (r : Response) : list event :=
  if is_audio r then [EvClose r] else sniff_events w url timeout r.

(** The events of one run of [resolve_playlist]. *)
Definition resolve_events (w : world) (url : str) (timeout : Z)
  : list event :=
  if endswith_any url stream_extensions then []
  else
    let h := EvRequest (head_request url timeout) in
    let g := EvRequest (get_request url timeout) in
    match network w (trace w) (head_request url timeout) with
    | inr r => h :: after_probe_events (emit h w) url timeout r
    | inl _ =>
        match network w (trace w ++ [h]) (get_request url timeout) with
        | inr r =>
            h :: g :: after_probe_events (emit g (emit h w)) url timeout r
        | inl _ => [h; g]
        end
    end.

(** The responses closed among the events of a trace, oldest first. *)
Fixpoint closes_of (t : list event) : list Response :=
  match t with
  | [] => []
  | EvClose r :: t' => r :: closes_of t'
  | _ :: t' => closes_of t'
  end.

(** Requests and closes: the events of the network. *)
Definition is_network_event (ev : event) : bool :=
  match ev with
  | EvRequest _ | EvClose _ => true
  | _ => false
  end.

(** The response [resolve_playlist] holds when it returns: the probe's
    response, or the response of the new GET of the sniff step when that
    GET succeeded; [None] when no request was answered. *)
Definition held_response (w : world) (url : str) (timeout : Z)
  : option Response :=
  if endswith_any url stream_extensions then None
  else
    match probe w url timeout with
    | None => None
    | Some (r, _) =>
        Some match sniffed_response w url timeout with
             | Some r' => r'
             | None => r
             end
    end.

Definition is_dict (v : value) : bool :=
  match v with
  | VDict _ => true
  | _ => false
  end.

(** [d.get(key, default)] on the entries of a dict. *)
Definition get_or (d : list (str * value)) (key : str) (default : value)
  : value :=
  match entries_get d key with
  | Some v => v
  | None => default
  end.

(** The url of a search result: [url_resolved] when it is true, else [url]
    when it is true, else the empty string. *)
Definition stream_url (d : list (str * value)) : value :=
  py_or (get_or d "url_resolved" VNone) (py_or (get_or d "url" VNone) (VStr "")).

(** The row that [_display_search_results] shows for a search result. *)
Definition row_of (it : value) : result_row :=
  match it with
  | VDict d =>
      mkRow (get_or d "name" (VStr "(no name)")) (get_or d "country" (VStr ""))
            (stream_url d)
  | _ => mkRow VNone VNone VNone
  end.

(** The row that the stations list box shows for a station. *)
Definition label_of (st : value) : label :=
  match st with
  | VDict d => mkLabel (get_or d "name" (VStr "(no name)")) (get_or d "info" (VStr ""))
  | _ => mkLabel VNone VNone
  end.

(** The modes a search tries, in order. *)
Definition modes_of (mode : str) : list str :=
  if String.eqb mode "Auto" then auto_modes else [lower mode].

(** The events of the requests of a search for [query] in [modes]. *)
Definition search_events (query : str) (modes : list str) : list event :=
  map (fun m => EvRequest (search_request m query)) modes.

(** What the [k]-th turn of the search loop leaves in [items]: the decoded
    answer of the directory to the [k]-th mode, asked after the modes
    before it, and the empty list when the request, the status check or
    the decoding fails. *)
Definition received (w : world) (query : str) (modes : list str) (k : nat)
  : value :=
  match answer_of w query modes k with
  | Some v => v
  | None => VList []
  end.

(** [items] and the events [evs] are what a search for [query] through
    [modes] gives in the world [w]: the requests are those of a prefix of
    the modes; when the [p]-th mode is the first whose answer is true,
    [items] is that answer and the modes up to the [p]-th have been asked;
    when no answer is true, all modes have been asked and [items] is what
    the last turn left. *)
Definition search_answers (w : world) (query : str) (modes : list str)
           (items : value) (evs : list event) : Prop :=
  (exists k, evs = search_events query (firstn k modes))
  /\ (forall p,
        (p < List.length modes)%nat ->
        (forall j, (j < p)%nat ->
                   value_truthy (received w query modes j) = false) ->
        value_truthy (received w query modes p) = true ->
        items = received w query modes p
        /\ evs = search_events query (firstn (S p) modes))
  /\ ((forall j, (j < List.length modes)%nat ->
                 value_truthy (received w query modes j) = false) ->
      items = received w query modes (List.length modes - 1)
      /\ evs = search_events query modes).

(** The application object when [on_add_search] starts its thread: the
    status line shows [Resolving...], its former text is kept aside, and
    the add button is disabled. *)
Definition resolving (a : RadioApp) : RadioApp :=
  with_add_search_btn false
    (with_status "Resolving..." (with_prev_status (status_var a) a)).

(** The application once a search has stored [items] and shown [rows]. *)
Definition searched (items : value) (rows : list result_row) (a : RadioApp)
  : RadioApp :=
  with_search_btn true
    (with_results_listbox rows (with_search_results items a)).

(** The player holds a url only while it plays. *)
Definition idle_has_no_url (p : RadioPlayer) : Prop :=
  playing p = false -> current_url p = VNone.

Definition is_vlc_event (ev : event) : bool :=
  match ev with
  | EvVlcStop | EvVlcPlay _ => true
  | _ => false
  end.

(** An idle application that holds the stations [l], with the list box
    filled from them, on a disk that takes the writes. *)
Definition stations_world (l : list value) : world :=
  mkWorld [] refusing (Text (json_dumps (VList l))) NoFault None None
          accepting
          (mkApp (VList l) (mkPlayer VNone false) (VList [])
                 (map label_of l) [] "Stopped" true true "").

(** A station without a url. *)
Definition mute_station : value := VDict [("name", VStr "Mute")].

(** ** Tactics of the further properties *)

(** Normalises worlds and application objects built by the setters. *)
Ltac world_norm :=
  cbv [self stations player listbox results_listbox status_var
       _search_results search_btn_enabled add_search_btn_enabled
       _add_search_prev_status current_url playing
       trace network stations_file disk vlc_stop_error vlc_play_error
       stdout_error emit set_self set_file extend searched resolving
       with_status with_stations with_listbox with_player
       with_search_results with_results_listbox with_search_btn
       with_add_search_btn with_prev_status] in *.

(** Splits a run of [resolve_playlist] by the answers of the network. *)
Ltac resolve_cases w url timeout :=
  unfold resolve_events, after_probe_events, sniff_events, held_response,
    sniffed_response, probe;
  destruct (endswith_any url stream_extensions);
  [|destruct (network w (trace w) (head_request url timeout)) as [?e|?r];
    [destruct (network w (trace w ++ [EvRequest (head_request url timeout)])
                 (get_request url timeout)) as [?e|?r]|]];
  cbn [network emit trace];
  repeat match goal with
         | |- context [is_audio ?r] => destruct (is_audio r)
         | |- context [has_iter_lines ?r] => destruct (has_iter_lines r)
         | |- context [network w ?t ?rq] => destruct (network w t rq)
         end.


(** [l] with its [i]-th item replaced by [x]. *)
Definition replaced {A : Type} (i : nat) (x : A) (l : list A) : list A :=
  (firstn i l ++ x :: skipn (S i) l)%list.

(** The world after the stations became [l'], the list box [lb'], the
    events [evs] happened and the stations were saved. *)
Definition saved_world (l' : value) (lb' : list label) (evs : list event)
           (w : world) : world :=
  mkWorld (trace w ++ evs ++ save_events (disk w) (json_dumps l'))
          (network w)
          (saved_file (disk w) (stations_file w) (json_dumps l'))
          (disk w) (vlc_stop_error w) (vlc_play_error w) (stdout_error w)
          (with_listbox lb' (with_stations l' (self w))).

(** A world like [stations_world l] whose disk refuses to open the
    stations file for writing. *)
Definition read_only_world (l : list value) : world :=
  mkWorld [] refusing (Text (json_dumps (VList l))) (OpenFails OSError)
          None None accepting
          (mkApp (VList l) (mkPlayer VNone false) (VList [])
                 (map label_of l) [] "Stopped" true true "").

(** A world like [playing_world] whose libvlc fails to stop. *)
Definition stuck_world : world :=
  mkWorld [] refusing
          (Text (json_dumps (VList [jazz_station; news_station])))
          NoFault (Some VLCError) None accepting playing_app.

(** What [resolve_playlist] returns for the url object of a search result:
    an object that is not a string comes back as it is. *)
Definition resolved_object (w : world) (url : value) : value :=
  match url with
  | VStr u => VStr (resolved_url w u 5)
  | other => other
  end.

(** The events of that resolution. *)
Definition resolution_events (w : world) (url : value) : list event :=
  match url with
  | VStr u => resolve_events w u 5
  | _ => []
  end.

(** The station record that add-from-search builds from a search result
    with the entries [d]. *)
Definition entry_of (w : world) (d : list (str * value)) : value :=
  VDict [("name", get_or d "name" (VStr "(no name)"));
         ("info", get_or d "tags" (VStr ""));
         ("url", resolved_object w (stream_url d))].

(** [on_add_search] up to the start of its thread, where the handler
    returns to the main loop: the result is what the thread is given. *)
Definition on_add_search_clicked (sel : option nat)
  : fn (option (value * value)) :=
  def_ (begun <- on_add_search_begin sel ;; do_return begun).

(** The application plays its first station and shows one search
    result. *)
Definition playing_found_world : world :=
  mkWorld [] refusing
          (Text (json_dumps (VList [jazz_station; news_station])))
          NoFault None None accepting
          (with_search_results (VList [jazz_item]) playing_app).



(** The objects of the three debug lines of an add of the search result
    with the entries [d], in order: the url, the resolved url, and the
    name with the resolved url. *)
Definition debug_lines (w : world) (d : list (str * value))
  : list (list value) :=
  [[stream_url d];
   [resolved_object w (stream_url d)];
   [get_or d "name" (VStr "(no name)"); resolved_object w (stream_url d)]].

(** The events of inserting [labels] at the end of a list box that holds
    [n] rows. *)
Fixpoint inserts (n : nat) (labels : list label) : list event :=
  match labels with
  | [] => []
  | lb :: rest => EvListboxInsert n lb :: inserts (S n) rest
  end.

(** The application object that [__init__] builds from the stations [l]. *)
Definition started (l : list value) : RadioApp :=
  mkApp (VList l) (mkPlayer VNone false) (VList []) (map label_of l) []
        "Stopped" true true "".

(** ** The handlers as one family, and what holds between two of them *)

(** What the user can do in the main window and in the editor. *)
Inductive ui_action : Type :=
| Play (sel : option nat)
| Stop
| Delete (sel : option nat) (answer : bool)
| Save
| Ok (index : option nat) (name_var info_var url_var : str)
| Search (search_var mode : str)
| AddSearch (sel : option nat).

Definition handler (a : ui_action) : fn unit :=
  match a with
  | Play sel => on_play sel
  | Stop => on_stop
  | Delete sel answer => on_delete sel answer
  | Save => on_save
  | Ok index name_var info_var url_var =>
      on_ok index name_var info_var url_var
  | Search search_var mode => on_search search_var mode
  | AddSearch sel => on_add_search sel
  end.

(** Tk's main loop: it runs the handlers one after the other; an exception
    of a handler is reported and the loop goes on. *)
Fixpoint mainloop (actions : list ui_action) (w : world) : world :=
  match actions with
  | [] => w
  | a :: rest => mainloop rest (snd (handler a w))
  end.

(** The stations are a list of dicts and the list box shows one row per
    station, in order. *)
Definition rows_in_sync (a : RadioApp) : Prop :=
  exists l,
    stations a = VList l
    /\ forallb is_dict l = true
    /\ listbox a = map label_of l.

(** The stations file holds the dump of the stations in memory. *)
Definition file_current (w : world) : Prop :=
  stations_file w = Text (json_dumps (stations (self w))).

Definition same_devices (w w' : world) : Prop :=
  network w' = network w
  /\ disk w' = disk w
  /\ vlc_stop_error w' = vlc_stop_error w
  /\ vlc_play_error w' = vlc_play_error w
  /\ stdout_error w' = stdout_error w.

(** The stations, their rows and their file are as before. *)
Definition unchanged (w w' : world) : Prop :=
  stations (self w') = stations (self w)
  /\ listbox (self w') = listbox (self w)
  /\ stations_file w' = stations_file w.

(** The stations have been saved after their last change. *)
Definition resaved (w w' : world) : Prop :=
  rows_in_sync (self w')
  /\ stations_file w'
     = saved_file (disk w) (stations_file w)
                  (json_dumps (stations (self w'))).

(** What one handler does to the state the others rely on. *)
Definition step_ok (w w' : world) : Prop :=
  same_devices w w' /\ (unchanged w w' \/ resaved w w').

(** Closes a goal about a step between two explicit worlds when the
    stations are untouched. *)
Ltac quiet_step :=
  unfold step_ok, same_devices, unchanged;
  world_norm;
  split; [repeat split | left; repeat split].

(** Reduces a goal about a step between two explicit worlds, after which
    the stations were saved, to the rows being in sync. *)
Ltac saved_step :=
  unfold step_ok, same_devices;
  world_norm;
  split;
  [repeat split
  |right; unfold resaved; world_norm; split; [|reflexivity]].

(** A short session: add a station, delete the first one, play the one
    that is left, search, stop. *)
Definition sample_session : list ui_action :=
  [Ok None " News " "talk" "http://news.example/live";
   Delete (Some 0%nat) true;
   Play (Some 0%nat);
   Search "jazz" "Tag";
   Stop].

(** ** The station editor

    [tk.StringVar(value=v)] followed by [get()]: the text of the entry
    field.  A value that is not a string leaves the model. *)
Definition string_var {R} (v : value) : stmt R str :=
  match v with
  | VStr s => ret s
  | _ => raise Unmodelled
  end.

(** [self.stations[index].get(key, "") if index is not None else ""] in an
    entry field. *)
Definition editor_field {R} (index : option nat) (key : str) : stmt R str :=
  match index with
  | None => ret ""
  | Some i =>
      app <- get_self ;;
      st <- lift (py_getitem (stations app) i) ;;
      v <- lift (py_get st key (VStr "")) ;;
      string_var v
  end.

(** [_open_station_editor(index)]: the window that opens, as the texts of
    its name, info and url fields. *)
Definition _open_station_editor (index : option nat) : fn (str * str * str) :=
  def_
    (name_var <- editor_field index "name" ;;
     info_var <- editor_field index "info" ;;
     url_var <- editor_field index "url" ;;
     do_return (name_var, info_var, url_var)).

(** [on_add] *)
Definition on_add : fn (str * str * str) := _open_station_editor None.

(** [on_edit]; the result is the editor that opens, if any. *)
Definition on_edit (sel : option nat) : fn (option (str * str * str)) :=
  def_
    (match sel with
     | None => messagebox showinfo "Edit station" ;; do_return None
     | Some idx =>
         fields <- call (_open_station_editor (Some idx)) ;;
         do_return (Some fields)
     end).

(** * Part II: properties *)

(** ** Facts about [str] *)

Lemma substring_whole (p : str) : substring 0 (String.length p) p = p.
Proof.
  induction p as [|c p IH]; simpl; [reflexivity | now rewrite IH].
Qed.

Lemma substring_after_prefix (q p : str) :
  substring (String.length q) (String.length p) (q ++ p) = p.
Proof.
  induction q as [|c q IH]; simpl.
  - apply substring_whole.
  - exact IH.
Qed.

Lemma substring_split (s : str) :
  forall n, (n <= String.length s)%nat ->
            s = substring 0 n s ++ substring n (String.length s - n) s.
Proof.
  induction s as [|c s IH]; intros n Hn; simpl in *.
  - destruct n; [reflexivity | lia].
  - destruct n as [|n]; simpl.
    + now rewrite substring_whole.
    + f_equal. apply IH. lia.
Qed.

Lemma length_app (a b : str) :
  String.length (a ++ b) = (String.length a + String.length b)%nat.
Proof.
  induction a as [|c a IH]; simpl; [reflexivity | now rewrite IH].
Qed.

Lemma app_assoc_str (a b c : str) : (a ++ b) ++ c = a ++ (b ++ c).
Proof.
  induction a as [|x a IH]; simpl; [reflexivity | now rewrite IH].
Qed.

Lemma app_empty_r (a : str) : a ++ "" = a.
Proof.
  induction a as [|x a IH]; simpl; [reflexivity | now rewrite IH].
Qed.

(** [endswith] decides "is a suffix of". *)
Lemma endswith_spec (s p : str) :
  endswith s p = true <-> exists q, s = q ++ p.
Proof.
  unfold endswith. split.
  - intros H. apply andb_true_iff in H. destruct H as [Hle Heq].
    apply Nat.leb_le in Hle. apply String.eqb_eq in Heq.
    exists (substring 0 (String.length s - String.length p) s).
    remember (String.length p) as m eqn:Em.
    assert (Hs := substring_split s (String.length s - m)).
    replace (String.length s - (String.length s - m))%nat with m in Hs by lia.
    rewrite Heq in Hs. apply Hs. lia.
  - intros [q ->]. rewrite length_app. apply andb_true_iff. split.
    + apply Nat.leb_le. lia.
    + replace (String.length q + String.length p - String.length p)%nat
        with (String.length q) by lia.
      rewrite substring_after_prefix. apply String.eqb_refl.
Qed.

Lemma endswith_any_spec (s : str) (ps : list str) :
  endswith_any s ps = true <-> exists p q, In p ps /\ s = q ++ p.
Proof.
  unfold endswith_any. rewrite existsb_exists. split.
  - intros [p [Hin H]]. apply endswith_spec in H. destruct H as [q ->].
    now exists p, q.
  - intros [p [q [Hin ->]]]. exists p. split; [exact Hin|].
    apply endswith_spec. now exists q.
Qed.

Lemma prefix_app (p s : str) : String.prefix p (p ++ s) = true.
Proof.
  induction p as [|c p IH]; simpl; [now destruct s|].
  destruct (ascii_dec c c) as [_|n]; [exact IH | now destruct n].
Qed.

Lemma prefix_inv (p s : str) :
  String.prefix p s = true -> exists r, s = p ++ r.
Proof.
  revert s. induction p as [|c p IH]; intros s H.
  - now exists s.
  - destruct s as [|d s]; simpl in H; [discriminate|].
    destruct (ascii_dec c d) as [->|]; [|discriminate].
    destruct (IH _ H) as [r ->]. now exists r.
Qed.

Lemma contains_nil (p : str) : contains p "" = String.prefix p "".
Proof. unfold contains. apply orb_false_r. Qed.

Lemma contains_cons (p : str) (c : ascii) (s : str) :
  contains p (String c s) = String.prefix p (String c s) || contains p s.
Proof. reflexivity. Qed.

(** [contains] decides "occurs in". *)
Lemma contains_spec (p s : str) :
  contains p s = true <-> exists a b, s = a ++ p ++ b.
Proof.
  split.
  - induction s as [|c s IH]; intros H.
    + rewrite contains_nil in H. apply prefix_inv in H.
      destruct H as [r Hr]. now exists "", r.
    + rewrite contains_cons in H. apply orb_true_iff in H.
      destruct H as [H|H].
      * apply prefix_inv in H. destruct H as [r Hr]. now exists "", r.
      * destruct (IH H) as [a [b ->]]. now exists (String c a), b.
  - intros [a [b ->]]. induction a as [|c a IH].
    + change ("" ++ p ++ b) with (p ++ b).
      destruct (p ++ b) as [|x r] eqn:E.
      * rewrite contains_nil, <- E. apply prefix_app.
      * rewrite contains_cons, <- E, prefix_app. reflexivity.
    + change (String c a ++ p ++ b) with (String c (a ++ p ++ b)).
      rewrite contains_cons, IH. apply orb_true_r.
Qed.

Lemma lower_app (a b : str) : lower (a ++ b) = lower a ++ lower b.
Proof.
  induction a as [|c a IH]; simpl; [reflexivity | now rewrite IH].
Qed.

(** [strip] removes whitespace at both ends and nothing else. *)
Lemma lstrip_spec (s : str) :
  exists a,
    s = a ++ lstrip s /\ all_space a = true
    /\ starts_with_space (lstrip s) = false.
Proof.
  induction s as [|c s [a [Hs [Ha Hl]]]].
  - now exists "".
  - cbn [lstrip]. destruct (is_space c) eqn:Hc.
    + exists (String c a). cbn. rewrite Hc, Ha. now rewrite <- Hs.
    + exists "". cbn. now rewrite Hc.
Qed.

Lemma rstrip_spec (s : str) :
  exists b,
    s = rstrip s ++ b /\ all_space b = true
    /\ ends_with_space (rstrip s) = false.
Proof.
  induction s as [|c s [b [Hs [Hb Hl]]]].
  - now exists "".
  - cbn [rstrip]. destruct (rstrip s) as [|d r] eqn:Hr.
    + cbn [append] in Hs. subst s. destruct (is_space c) eqn:Hc.
      * exists (String c b). cbn. now rewrite Hc, Hb.
      * exists b. cbn. now rewrite Hc.
    + exists b. cbn [append]. rewrite Hs at 1. now repeat split.
Qed.

Lemma rstrip_head (s : str) :
  starts_with_space s = false -> starts_with_space (rstrip s) = false.
Proof.
  destruct s as [|c s]; [reflexivity|]. cbn [starts_with_space rstrip].
  intros Hc. destruct (rstrip s); [|exact Hc].
  rewrite Hc. exact Hc.
Qed.

Lemma strip_spec (s : str) :
  exists a b,
    s = a ++ strip s ++ b
    /\ all_space a = true /\ all_space b = true
    /\ starts_with_space (strip s) = false
    /\ ends_with_space (strip s) = false.
Proof.
  unfold strip.
  destruct (lstrip_spec s) as [a [Hs [Ha Hl]]].
  destruct (rstrip_spec (lstrip s)) as [b [Hr [Hb He]]].
  exists a, b. split; [now rewrite <- Hr|].
  repeat split; try assumption. now apply rstrip_head.
Qed.

Example is_space_table :
  filter (fun n => is_space (ascii_of_nat n)) (seq 0 256)
  = [9; 10; 11; 12; 13; 28; 29; 30; 31; 32; 133; 160]%nat.
Proof. vm_compute. reflexivity. Qed.

Example strip_example :
  strip (String (ascii_of_nat 9) "  http://a/b c  " ++ String (ascii_of_nat 13)
           (String (ascii_of_nat 10) ""))
  = "http://a/b c".
Proof. reflexivity. Qed.

Example lower_example : lower "Audio/MPEG; Charset=UTF-8" = "audio/mpeg; charset=utf-8".
Proof. reflexivity. Qed.

Example endswith_examples :
  endswith "http://a/b.m3u8" ".m3u8" = true
  /\ endswith "http://a/b.m3u8" ".m3u" = false
  /\ endswith "mp3" ".mp3" = false
  /\ endswith_any "http://a/b.pls" stream_extensions = true
  /\ endswith_any "http://a/b.pls?x=1" stream_extensions = false.
Proof. repeat split; reflexivity. Qed.

(** A URL line is neither blank nor a comment. *)
Lemma is_url_line_classified (line : str) :
  is_url_line line = true ->
  negb (truthy line) || startswith line "#" = false.
Proof.
  unfold is_url_line, startswith. intros H.
  apply orb_true_iff in H.
  destruct H as [H|H]; apply prefix_inv in H; destruct H as [r ->];
    reflexivity.
Qed.

(** ** The playlist-sniff loop *)

Lemma scan_lines_none (rest : list (option body_line)) (err : option exn)
      (n : nat) :
  scan_lines (None :: rest) err n = scan_lines rest err n.
Proof. reflexivity. Qed.

Lemma scan_lines_some (raw : str) (rest : list (option body_line))
      (err : option exn) (n : nat) :
  scan_lines (Some (StrLine raw) :: rest) err n =
  ((if negb (truthy (strip raw)) || startswith (strip raw) "#" then ret tt
    else if is_url_line (strip raw) then do_return (strip raw) else ret tt) ;;
   if (max_lines <=? S n)%nat then ret tt
   else scan_lines rest err (S n)).
Proof. reflexivity. Qed.

Lemma scan_lines_bytes (raw : PyBytes.bytes) (rest : list (option body_line))
      (err : option exn) (n : nat) :
  scan_lines (Some (BytesLine raw) :: rest) err n =
  ((if negb (PyBytes.truthy (PyBytes.strip raw)) then ret tt
    else raise TypeError) ;;
   if (max_lines <=? S n)%nat then ret tt
   else scan_lines rest err (S n)).
Proof. reflexivity. Qed.

Opaque max_lines.

(** What the loop does, in terms of the lines it classifies: it returns
    the first URL line among the lines the budget still allows, and
    otherwise ends normally or with an exception, the [TypeError] of a
    [bytes] line or the iterator's. *)
Lemma scan_lines_spec (items : list (option body_line)) (err : option exn) :
  forall (n : nat) (w : world),
    (n < max_lines)%nat ->
    scan_lines items err n w =
    match find is_url_line (firstn (max_lines - n) (text_lines items)) with
    | Some line => (Return line, w)
    | None =>
        if (max_lines - n <=? List.length (text_lines items))%nat
        then (Next tt, w)
        else match scan_error items err with
             | Some e => (Raise e, w)
             | None => (Next tt, w)
             end
    end.
Proof.
  induction items as [|[[raw|raw]|] rest IH]; intros n w Hn.
  - simpl text_lines. rewrite firstn_nil. simpl find.
    replace (max_lines - n <=? @List.length str [])%nat with false
      by (symmetry; apply Nat.leb_gt; unfold List.length; lia).
    simpl. now destruct err.
  - rewrite scan_lines_some. simpl text_lines. cbn [scan_error].
    replace (max_lines - n)%nat with (S (max_lines - S n)) by lia.
    rewrite firstn_cons. simpl find.
    destruct (is_url_line (strip raw)) eqn:Hurl.
    + rewrite (is_url_line_classified _ Hurl). reflexivity.
    + assert (Hpass :
        (if negb (truthy (strip raw)) || startswith (strip raw) "#"
         then @ret str unit tt else ret tt) = ret tt)
        by now destruct (negb (truthy (strip raw)) || startswith (strip raw) "#").
      rewrite Hpass. unfold bind at 1, ret at 1.
      destruct (max_lines <=? S n)%nat eqn:Hb.
      * apply Nat.leb_le in Hb.
        replace (max_lines - S n)%nat with 0%nat by lia. reflexivity.
      * apply Nat.leb_gt in Hb. rewrite IH by lia.
        replace (S (max_lines - S n) <=? List.length (strip raw :: text_lines rest))%nat
          with (max_lines - S n <=? List.length (text_lines rest))%nat
          by reflexivity.
        reflexivity.
  - rewrite scan_lines_bytes. cbn [text_lines scan_error].
    destruct (PyBytes.truthy (PyBytes.strip raw)).
    + cbn [negb]. unfold bind at 1, raise at 1.
      rewrite firstn_nil. simpl find.
      replace (max_lines - n <=? @List.length str [])%nat with false
        by (symmetry; apply Nat.leb_gt; unfold List.length; lia).
      reflexivity.
    + cbn [negb]. unfold bind at 1, ret at 1.
      replace (max_lines - n)%nat with (S (max_lines - S n)) by lia.
      rewrite firstn_cons. simpl find.
      destruct (max_lines <=? S n)%nat eqn:Hb.
      * apply Nat.leb_le in Hb.
        replace (max_lines - S n)%nat with 0%nat by lia. reflexivity.
      * apply Nat.leb_gt in Hb. rewrite IH by lia.
        replace (S (max_lines - S n) <=? List.length ("" :: text_lines rest))%nat
          with (max_lines - S n <=? List.length (text_lines rest))%nat
          by reflexivity.
        reflexivity.
  - rewrite scan_lines_none. simpl text_lines. now apply IH.
Qed.

Transparent max_lines.

(** ** [resolve_playlist] *)

Lemma close_quietly_spec {R : Type} (r : Response) (w : world) :
  @close_quietly R r w = (Next tt, emit (EvClose r) w).
Proof.
  unfold close_quietly, try_except, close.
  destruct (close_error r); reflexivity.
Qed.

(** The [try / except / finally] statement around the loop never raises:
    it returns the first URL line, or returns [url] after an exception, or
    falls through. *)
Lemma scan_block_spec (url : str) (r : Response) (w : world) :
  try_finally
    (try_except (scan_lines (body_lines r) (body_error r) 0)
                (fun _ => do_return url))
    (close_quietly r) w
  = (match first_url_line (body_lines r) with
     | Some line => Return line
     | None =>
         if (max_lines <=? List.length (text_lines (body_lines r)))%nat
         then Next tt
         else match scan_error (body_lines r) (body_error r) with
              | Some _ => Return url
              | None => Next tt
              end
     end, emit (EvClose r) w).
Proof.
  unfold try_finally, try_except.
  rewrite scan_lines_spec by (unfold max_lines; lia).
  rewrite Nat.sub_0_r. unfold first_url_line.
  destruct (find is_url_line (firstn max_lines (text_lines (body_lines r)))).
  - now rewrite close_quietly_spec.
  - destruct (max_lines <=? List.length (text_lines (body_lines r)))%nat.
    + now rewrite close_quietly_spec.
    + destruct (scan_error (body_lines r) (body_error r)); unfold do_return;
        now rewrite close_quietly_spec.
Qed.

(** The value a flow of the sniff step stands for. *)
Lemma sniff_spec (url : str) (timeout : Z) (r : Response) (w : world) :
  exists (o : flow str unit) (w' : world),
    sniff url timeout r w = (o, w')
    /\ (forall e, o <> Raise e)
    /\ match o with Return v => v | _ => url end
       = match (if has_iter_lines r then Some r
                else match network w (trace w) (get_request url timeout) with
                     | inr r' => Some r'
                     | inl _ => None
                     end) with
         | Some r' =>
             match first_url_line (body_lines r') with
             | Some line => line
             | None => url
             end
         | None => url
         end.
Proof.
  unfold sniff. destruct (has_iter_lines r).
  - cbv beta iota zeta delta [negb ret]. rewrite scan_block_spec.
    eexists; eexists; split; [reflexivity|]. split.
    + intros e. destruct (first_url_line (body_lines r)); [discriminate|].
      destruct (max_lines <=? _)%nat; [discriminate|].
      destruct (scan_error (body_lines r) (body_error r)); discriminate.
    + destruct (first_url_line (body_lines r)); [reflexivity|].
      destruct (max_lines <=? _)%nat; [reflexivity|].
      destruct (scan_error (body_lines r) (body_error r)); reflexivity.
  - cbv beta iota zeta delta [negb requests_get_stream send].
    destruct (network w (trace w) (get_request url timeout)) as [e|r'].
    + unfold try_finally, do_return. rewrite close_quietly_spec.
      eexists; eexists; split; [reflexivity|]. split; [discriminate|reflexivity].
    + rewrite scan_block_spec.
      eexists; eexists; split; [reflexivity|]. split.
      * intros e. destruct (first_url_line (body_lines r')); [discriminate|].
        destruct (max_lines <=? _)%nat; [discriminate|].
        destruct (scan_error (body_lines r') (body_error r')); discriminate.
      * destruct (first_url_line (body_lines r')); [reflexivity|].
        destruct (max_lines <=? _)%nat; [reflexivity|].
        destruct (scan_error (body_lines r') (body_error r')); reflexivity.
Qed.

Lemma short_extensions_included (url : str) :
  endswith_any url stream_extensions = false ->
  endswith_any url [".mp3"; ".aac"; ".m3u8"] = false.
Proof.
  unfold endswith_any, stream_extensions. simpl existsb.
  destruct (endswith url ".mp3"), (endswith url ".aac"),
    (endswith url ".m3u8"); simpl; intros H; try discriminate; reflexivity.
Qed.

(** Lines 60-99, entered with the probe's response [r] in a world [w]. *)
Lemma after_probe_spec (url : str) (timeout : Z) (r : Response) (w : world) :
  endswith_any url stream_extensions = false ->
  exists w',
    (when (contains "audio" (lower (content_type_of r))
           || endswith_any url [".mp3"; ".aac"; ".m3u8"])
          (close_quietly r ;; do_return url) ;;
     sniff url timeout r ;;
     @do_return str Empty_set url) w
    = (Return
         (if is_audio r then url
          else
            match (if has_iter_lines r then Some r
                   else match network w (trace w) (get_request url timeout) with
                        | inr r' => Some r'
                        | inl _ => None
                        end) with
            | Some r' =>
                match first_url_line (body_lines r') with
                | Some line => line
                | None => url
                end
            | None => url
            end), w').
Proof.
  intros Hext. rewrite (short_extensions_included _ Hext), orb_false_r.
  fold (is_audio r). unfold bind, when.
  destruct (is_audio r).
  - rewrite close_quietly_spec. unfold do_return. eexists; reflexivity.
  - unfold ret at 1.
    destruct (sniff_spec url timeout r w) as [o [w' [Hs [Hnr Hv]]]].
    rewrite Hs. destruct o as [[]|v|e].
    + unfold do_return. rewrite <- Hv. eexists; reflexivity.
    + rewrite <- Hv. eexists; reflexivity.
    + now destruct (Hnr e).
Qed.

(** [resolve_playlist] always returns, and returns [resolved_url]. *)
Lemma resolve_playlist_value (url : str) (timeout : Z) (w : world) :
  exists w',
    resolve_playlist url timeout w = (Value (resolved_url w url timeout), w').
Proof.
  unfold resolved_url, sniffed_response, probe.
  unfold resolve_playlist, def_, try_except.
  unfold bind at 1. unfold when at 1.
  destruct (endswith_any url stream_extensions) eqn:Hext.
  - unfold do_return. eexists; reflexivity.
  - unfold ret at 1. unfold bind at 1.
    unfold requests_head, requests_get_stream, send, bind, ret.
    destruct (network w (trace w) (head_request url timeout)) as [e|r].
    + cbn [network emit trace].
      destruct (network w (trace w ++ [EvRequest (head_request url timeout)])
                        (get_request url timeout)) as [e'|r].
      * unfold do_return. eexists; reflexivity.
      * destruct (after_probe_spec url timeout r
                    (emit (EvRequest (get_request url timeout))
                       (emit (EvRequest (head_request url timeout)) w)) Hext)
          as [w' Hw'].
        unfold bind in Hw'. rewrite Hw'. cbn [network emit trace].
        destruct (is_audio r); eexists; reflexivity.
    + destruct (after_probe_spec url timeout r
                  (emit (EvRequest (head_request url timeout)) w) Hext)
        as [w' Hw'].
      unfold bind in Hw'. rewrite Hw'. cbn [network emit trace].
      destruct (is_audio r); eexists; reflexivity.
Qed.

(** When HEAD succeeds with a response that has [iter_lines] and no audio
    content type, no GET follows: the body that is scanned is the body of
    the HEAD response, and the HEAD request is the only one issued. *)
Lemma resolve_playlist_reuses_head
      (url : str) (timeout : Z) (w : world) (r : Response) :
  endswith_any url stream_extensions = false ->
  network w (trace w) (head_request url timeout) = inr r ->
  is_audio r = false ->
  has_iter_lines r = true ->
  exists w',
    resolve_playlist url timeout w
    = (Value match first_url_line (body_lines r) with
             | Some line => line
             | None => url
             end, w')
    /\ trace w'
       = (trace w ++ [EvRequest (head_request url timeout); EvClose r])%list.
Proof.
  intros Hext Hhead Haudio Hiter.
  unfold resolve_playlist, def_, try_except.
  unfold bind at 1. unfold when at 1. rewrite Hext.
  unfold ret at 1. unfold bind at 1.
  unfold requests_head, send, bind at 1, ret at 1. rewrite Hhead.
  unfold bind at 1, when at 1.
  rewrite (short_extensions_included _ Hext), orb_false_r.
  fold (is_audio r). rewrite Haudio. unfold ret at 1.
  unfold bind at 1, sniff. rewrite Hiter.
  cbv beta iota zeta delta [negb ret]. rewrite scan_block_spec.
  destruct (first_url_line (body_lines r)) as [line|].
  - eexists. split; [reflexivity|]. cbn [trace emit].
    now rewrite <- List.app_assoc.
  - destruct (max_lines <=? _)%nat; [|destruct (scan_error (body_lines r) (body_error r))];
      (eexists; split; [reflexivity|]; cbn [trace emit];
       now rewrite <- List.app_assoc).
Qed.

Lemma text_lines_app (a b : list (option body_line)) :
  scan_error a None = None ->
  text_lines (a ++ b) = (text_lines a ++ text_lines b)%list.
Proof.
  induction a as [|[[x|x]|] a IH]; cbn [List.app text_lines scan_error];
    intros H.
  - reflexivity.
  - now rewrite IH.
  - destruct (PyBytes.truthy (PyBytes.strip x)); [discriminate|].
    now rewrite IH.
  - now apply IH.
Qed.

Lemma text_lines_length (a : list (option body_line)) :
  (List.length (text_lines a) <= List.length a)%nat.
Proof.
  induction a as [|[[x|x]|] a IH]; cbn [text_lines List.length]; try lia.
  destruct (PyBytes.truthy (PyBytes.strip x)); cbn [List.length]; lia.
Qed.

Lemma text_lines_in (items : list (option body_line)) (line : str) :
  In line (text_lines items) ->
  line = "" \/ exists raw, In (Some (StrLine raw)) items /\ line = strip raw.
Proof.
  induction items as [|[[x|x]|] items IH]; cbn [text_lines]; intros H.
  - contradiction.
  - destruct H as [H|H].
    + right. exists x. split; [now left | now symmetry].
    + destruct (IH H) as [-> | [raw [Hin ->]]]; [now left|].
      right. exists raw. split; [now right | reflexivity].
  - destruct (PyBytes.truthy (PyBytes.strip x)); [contradiction|].
    destruct H as [H|H]; [now left|].
    destruct (IH H) as [-> | [raw [Hin ->]]]; [now left|].
    right. exists raw. split; [now right | reflexivity].
  - destruct (IH H) as [-> | [raw [Hin ->]]]; [now left|].
    right. exists raw. split; [now right | reflexivity].
Qed.

Lemma first_url_line_in (items : list (option body_line)) (line : str) :
  first_url_line items = Some line ->
  is_url_line line = true
  /\ exists raw, In (Some (StrLine raw)) items /\ line = strip raw.
Proof.
  unfold first_url_line. intros H. apply find_some in H.
  destruct H as [Hin Hurl]. split; [exact Hurl|].
  assert (Hin' : In line (text_lines items)).
  { rewrite <- (firstn_skipn max_lines (text_lines items)).
    apply in_or_app. now left. }
  destruct (text_lines_in _ _ Hin') as [-> | H]; [discriminate | exact H].
Qed.

(** The lines of an undecoded body: every item is [bytes]. *)
Lemma text_lines_bytes (items : list (option body_line)) :
  (forall x, In (Some (StrLine x)) items -> False) ->
  forall line, In line (text_lines items) -> line = "".
Proof.
  intros Hb line Hin.
  destruct (text_lines_in _ _ Hin) as [-> | [raw [Hraw _]]]; [reflexivity|].
  destruct (Hb raw Hraw).
Qed.

(** No URL line is ever found in an undecoded body. *)
Lemma first_url_line_bytes (items : list (option body_line)) :
  (forall x, In (Some (StrLine x)) items -> False) ->
  first_url_line items = None.
Proof.
  intros Hb. destruct (first_url_line items) as [line|] eqn:E; [|reflexivity].
  apply first_url_line_in in E. destruct E as [_ [raw [Hin _]]].
  destruct (Hb raw Hin).
Qed.

(** C3: for every URL that ends in [.mp3], [.aac], [.m3u8], [.pls] or
    [.m3u], [resolve_playlist] returns the URL itself and leaves the world
    as it was: the trace gains no event, so no request has been issued. *)
Theorem resolve_playlist_known_extension
        (url stem ext : str) (timeout : Z) (w : world) :
  In ext stream_extensions ->
  url = stem ++ ext ->
  resolve_playlist url timeout w = (Value url, w).
Proof.
  intros Hin Hurl.
  assert (H : endswith_any url stream_extensions = true).
  { apply endswith_any_spec. now exists ext, stem. }
  unfold resolve_playlist, def_, try_except, bind, when.
  rewrite H. reflexivity.
Qed.

Lemma resolve_playlist_known_extension_witness :
  resolve_playlist "http://radio.example/live.m3u8" 10
                   (world_of refusing Absent)
  = (Value "http://radio.example/live.m3u8", world_of refusing Absent).
Proof.
  apply (resolve_playlist_known_extension
           _ "http://radio.example/live" ".m3u8").
  - simpl. auto.
  - reflexivity.
Defined.

(** What the sniff step returns when it is reached with a response [r]
    to scan: the first of the first 64 lines of [r]'s body it can classify
    that starts with [http://] or [https://] (whatever follows that line),
    and the URL itself when none of these lines does. *)
Lemma resolve_playlist_sniff
      (url : str) (timeout : Z) (w : world) (r : Response) :
  sniffed_response w url timeout = Some r ->
  exists w',
    resolve_playlist url timeout w
    = (Value match find is_url_line
                     (firstn 64 (text_lines (body_lines r))) with
             | Some line => line
             | None => url
             end, w').
Proof.
  intros H. destruct (resolve_playlist_value url timeout w) as [w' Hw'].
  exists w'. rewrite Hw'. unfold resolved_url. rewrite H. reflexivity.
Qed.

(** The path on which the scan works: HEAD is refused, the streamed GET is
    answered with a decoded playlist, and the first URL line is
    returned. *)
Lemma resolve_playlist_sniff_get :
  exists w',
    resolve_playlist "http://radio.example/listen" 10
      (world_of (get_only (text_response "text/plain" playlist_lines)) Absent)
    = (Value "http://stream.example/a", w').
Proof.
  apply (resolve_playlist_sniff
           "http://radio.example/listen" 10 _
           (text_response "text/plain" playlist_lines)).
  reflexivity.
Qed.

(** Whenever HEAD is answered with a response that is not audio, that
    response, which carries headers and no body, is the one whose body is
    scanned: the URL comes back after the HEAD request alone, whatever a
    GET would have been answered. *)
Lemma resolve_playlist_head_answered
      (url : str) (timeout : Z) (w : world) (r : Response) :
  endswith_any url stream_extensions = false ->
  network w (trace w) (head_request url timeout) = inr r ->
  is_audio r = false ->
  has_iter_lines r = true ->
  body_lines r = [] ->
  exists w',
    resolve_playlist url timeout w = (Value url, w')
    /\ trace w'
       = (trace w ++ [EvRequest (head_request url timeout); EvClose r])%list.
Proof.
  intros Hext Hhead Haudio Hiter Hbody.
  destruct (resolve_playlist_reuses_head url timeout w r Hext Hhead Haudio
              Hiter) as [w' [Hrun Htrace]].
  exists w'. split; [|exact Htrace].
  rewrite Hrun, Hbody. reflexivity.
Qed.

(** C1 (the code at the failing input): a server answers the HEAD request
    for [http://radio.example/listen] with [text/plain] headers and
    serves, on GET, a playlist whose first URL line is
    [http://stream.example/a].  [resolve_playlist] returns the URL it was
    given: it scans the HEAD response, which has no body, and closes it;
    the GET that would have brought the playlist is never issued. *)
Theorem resolve_playlist_scans_head_response :
  first_url_line (body_lines (text_response "text/plain" playlist_lines))
  = Some "http://stream.example/a"
  /\ exists w',
       resolve_playlist "http://radio.example/listen" 10
         (world_of
            (head_then_get (text_response "text/plain" [])
                           (text_response "text/plain" playlist_lines))
            Absent)
       = (Value "http://radio.example/listen", w')
       /\ trace w'
          = [EvRequest (head_request "http://radio.example/listen" 10);
             EvClose (text_response "text/plain" [])].
Proof.
  split; [reflexivity|].
  eexists. split; [vm_compute; reflexivity | reflexivity].
Qed.

(** C4: for every URL that none of the five extensions ends, when the
    probed response (the HEAD response, or the GET response when HEAD
    fails) has a content-type header in which [audio] occurs in any
    mixture of upper and lower case, [resolve_playlist] returns the URL
    itself. *)
Theorem resolve_playlist_audio_content_type
        (url : str) (timeout : Z) (w : world)
        (r : Response) (t : list event) (ct before word rest : str) :
  (forall ext stem, In ext stream_extensions -> url <> stem ++ ext) ->
  probe w url timeout = Some (r, t) ->
  content_type_header r = Some ct ->
  ct = before ++ word ++ rest ->
  lower word = "audio" ->
  exists w', resolve_playlist url timeout w = (Value url, w').
Proof.
  intros Hext Hprobe Hct Hsplit Hword.
  destruct (resolve_playlist_value url timeout w) as [w' Hw'].
  exists w'. rewrite Hw'. f_equal. f_equal.
  unfold resolved_url, sniffed_response.
  destruct (endswith_any url stream_extensions) eqn:E; [reflexivity|].
  rewrite Hprobe.
  assert (Haudio : is_audio r = true).
  { unfold is_audio, content_type_of. rewrite Hct, Hsplit.
    rewrite !lower_app, Hword. apply contains_spec.
    now exists (lower before), (lower rest). }
  now rewrite Haudio.
Qed.

Lemma resolve_playlist_audio_content_type_witness :
  exists w',
    resolve_playlist "http://radio.example/stream" 10
      (world_of (always (text_response "Audio/MPEG; q=1" [])) Absent)
    = (Value "http://radio.example/stream", w').
Proof.
  apply (resolve_playlist_audio_content_type
           "http://radio.example/stream" 10 _
           (text_response "Audio/MPEG; q=1" [])
           [EvRequest (head_request "http://radio.example/stream" 10)]
           "Audio/MPEG; q=1" "" "Audio" "/MPEG; q=1").
  - intros ext stem Hin Heq.
    assert (H : endswith_any "http://radio.example/stream" stream_extensions
                = true)
      by (apply endswith_any_spec; now exists ext, stem).
    discriminate H.
  - reflexivity.
  - reflexivity.
  - reflexivity.
  - reflexivity.
Defined.

Lemma comment_or_blank_not_url (line : str) :
  negb (truthy line) || startswith line "#" = true ->
  is_url_line line = false.
Proof.
  intros H. destruct (is_url_line line) eqn:E; [|reflexivity].
  rewrite (is_url_line_classified _ E) in H. discriminate.
Qed.

Lemma find_after_skipped (f : str -> bool) (pre : list str) (x : str)
      (post : list str) (n : nat) :
  (forall y, In y pre -> f y = false) ->
  (List.length pre < n)%nat ->
  f x = true ->
  find f (firstn n (pre ++ x :: post)) = Some x.
Proof.
  revert n. induction pre as [|y pre IH]; intros n Hpre Hn Hx.
  - destruct n; [simpl in Hn; lia|]. simpl. now rewrite Hx.
  - destruct n; [simpl in Hn; lia|]. simpl.
    rewrite (Hpre y) by now left.
    apply IH; [|simpl in Hn; lia|exact Hx].
    intros z Hz. apply Hpre. now right.
Qed.

Lemma text_lines_decoded (lines : list str) :
  text_lines (map (fun x => Some (StrLine x)) lines) = map strip lines.
Proof.
  induction lines as [|x lines IH]; cbn [map text_lines];
    [reflexivity | now rewrite IH].
Qed.

Lemma scan_error_decoded (lines : list str) :
  scan_error (map (fun x => Some (StrLine x)) lines) None = None.
Proof.
  induction lines as [|x lines IH]; cbn [map scan_error];
    [reflexivity | exact IH].
Qed.

(** On decoded lines the sniff step classifies the stripped form of every
    line.  When the scanned body starts with fewer than 64 [str] lines,
    each of them a line whose stripped form is empty or starts with [#]
    (whatever whitespace surrounds it in the raw line), and the next
    line's stripped form starts with [http://] or [https://],
    [resolve_playlist] returns that stripped form. *)
Lemma resolve_playlist_strips_lines
      (url : str) (timeout : Z) (w : world) (r : Response)
      (pre : list str) (raw : str) (post : list (option body_line)) :
  sniffed_response w url timeout = Some r ->
  body_lines r
  = (map (fun x => Some (StrLine x)) pre ++ Some (StrLine raw) :: post)%list ->
  (forall x, In x pre -> strip x = "" \/ startswith (strip x) "#" = true) ->
  (List.length pre < 64)%nat ->
  is_url_line (strip raw) = true ->
  exists w', resolve_playlist url timeout w = (Value (strip raw), w').
Proof.
  intros Hr Hbody Hpre Hlen Hurl.
  destruct (resolve_playlist_value url timeout w) as [w' Hw'].
  exists w'. rewrite Hw'. f_equal. f_equal.
  unfold resolved_url, first_url_line.
  rewrite Hr, Hbody, text_lines_app by apply scan_error_decoded.
  rewrite text_lines_decoded. cbn [text_lines].
  rewrite find_after_skipped; [reflexivity| |unfold max_lines|exact Hurl].
  - intros y Hy. apply in_map_iff in Hy. destruct Hy as [x [<- Hin]].
    apply comment_or_blank_not_url.
    destruct (Hpre x Hin) as [H|H]; rewrite H; [reflexivity|].
    apply orb_true_r.
  - now rewrite length_map.
Qed.

(** The same lines, decoded: the comment and the blank line are skipped
    and the stripped URL line is returned. *)
Lemma resolve_playlist_strips_decoded :
  exists w',
    resolve_playlist "http://radio.example/listen" 10
      (world_of
         (get_only (text_response "text/plain"
                      ["   # a comment"; "   "; "  http://stream.example/a  "]))
         Absent)
    = (Value "http://stream.example/a", w').
Proof.
  apply (resolve_playlist_strips_lines
           "http://radio.example/listen" 10 _
           (text_response "text/plain"
              ["   # a comment"; "   "; "  http://stream.example/a  "])
           ["   # a comment"; "   "]
           "  http://stream.example/a  " []).
  - reflexivity.
  - reflexivity.
  - intros x [<-|[<-|[]]]; [right|left]; reflexivity.
  - simpl. lia.
  - reflexivity.
Qed.

(** Whatever an undecoded body holds, the sniff step finds no URL in it:
    a line of [bytes] that is not blank cannot be classified. *)
Lemma resolve_playlist_undecoded
      (url : str) (timeout : Z) (w : world) (r : Response) :
  sniffed_response w url timeout = Some r ->
  (forall x, In (Some (StrLine x)) (body_lines r) -> False) ->
  exists w', resolve_playlist url timeout w = (Value url, w').
Proof.
  intros Hr Hbytes.
  destruct (resolve_playlist_value url timeout w) as [w' Hw'].
  exists w'. rewrite Hw'. unfold resolved_url.
  now rewrite Hr, (first_url_line_bytes _ Hbytes).
Qed.

(** C10 (the code at the failing input): HEAD is refused and the streamed
    GET is answered with a playlist that declares no encoding
    ([application/x-mpegurl]), so that its lines are [bytes]: a comment
    with leading whitespace, a blank line, and a URL line with whitespace
    around it.  The comment is not skipped: classifying it raises
    [TypeError], the scan ends, and [resolve_playlist] returns the URL it
    was given instead of the stripped URL line. *)
Theorem resolve_playlist_bytes_comment :
  exists w',
    resolve_playlist "http://radio.example/listen" 10
      (world_of
         (get_only (bytes_response "application/x-mpegurl"
                      ["   # a comment"; "   ";
                       "  http://stream.example/a  "]))
         Absent)
    = (Value "http://radio.example/listen", w').
Proof. eexists. vm_compute. reflexivity. Qed.

(** C2: [resolve_playlist] never raises.  For every URL and every
    behaviour of the remote side it returns a value, which is the URL
    itself or the stripped form of a body line that starts with [http://]
    or [https://]; when both probes fail (a refused connection, a timeout,
    a malformed response), it is the URL itself. *)
Theorem resolve_playlist_never_raises
        (url : str) (timeout : Z) (w : world) :
  exists v w',
    resolve_playlist url timeout w = (Value v, w')
    /\ (v = url
        \/ exists r raw,
             In (Some (StrLine raw)) (body_lines r) /\ v = strip raw
             /\ is_url_line v = true)
    /\ (probe w url timeout = None -> v = url).
Proof.
  destruct (resolve_playlist_value url timeout w) as [w' Hw'].
  exists (resolved_url w url timeout), w'. split; [exact Hw'|]. split.
  - unfold resolved_url.
    destruct (sniffed_response w url timeout) as [r|]; [|now left].
    destruct (first_url_line (body_lines r)) as [line|] eqn:E; [|now left].
    apply first_url_line_in in E. destruct E as [Hurl [raw [Hin ->]]].
    right. now exists r, raw.
  - intros Hp. unfold resolved_url, sniffed_response. rewrite Hp.
    now destruct (endswith_any url stream_extensions).
Qed.

Lemma resolve_playlist_never_raises_witness :
  exists w',
    resolve_playlist "http://radio.example/listen" 10
                     (world_of refusing Absent)
    = (Value "http://radio.example/listen", w').
Proof.
  destruct (resolve_playlist_never_raises
              "http://radio.example/listen" 10 (world_of refusing Absent))
    as [v [w' [Hv [_ Hrefused]]]].
  exists w'. rewrite Hv. rewrite (Hrefused eq_refl). reflexivity.
Defined.

(** ** Directory search *)

Lemma asked_cons (t : list event) (query m : str) (modes : list str) :
  asked t query (m :: modes)
  = asked (t ++ [EvRequest (search_request m query)])%list query modes.
Proof.
  unfold asked. simpl map. now rewrite <- List.app_assoc.
Qed.

Lemma asked_nil (t : list event) (query : str) : asked t query [] = t.
Proof. unfold asked. simpl. apply List.app_nil_r. Qed.

(** One turn of the loop. *)
Lemma search_modes_step {R : Type} (query m : str) (rest : list str)
      (items : value) (w : world) :
  @search_modes R query (m :: rest) items w
  = let w1 := emit (EvRequest (search_request m query)) w in
    let v := match answer w (trace w) (search_request m query) with
             | Some v => v
             | None => VList []
             end in
    if value_truthy v then (Next v, w1)
    else search_modes query rest v w1.
Proof.
  cbn [search_modes]. unfold bind, try_except, send, answer, raise_for_status.
  destruct (network w (trace w) (search_request m query)) as [e|r];
    [reflexivity|].
  destruct (status_error r) as [e|]; [reflexivity|].
  unfold ret, raise, lift.
  destruct (json_body r) as [e|v]; [reflexivity|].
  cbv zeta. unfold ret. now destruct (value_truthy v).
Qed.

Lemma answer_emit (ev : event) (w : world) (t : list event) (rq : request) :
  answer (emit ev w) t rq = answer w t rq.
Proof. reflexivity. Qed.

(** The loop stops at the first mode with a non-empty answer. *)
Lemma search_modes_stops {R : Type} (query : str) (pre : list str) :
  forall (w : world) (items : value) (m : str) (post : list str)
         (found : list value),
    (forall j, (j < List.length pre)%nat ->
               failed_or_empty (answer_of w query pre j)) ->
    answer w (asked (trace w) query pre) (search_request m query)
    = Some (VList found) ->
    found <> [] ->
    exists w',
      @search_modes R query (pre ++ m :: post) items w
      = (Next (VList found), w')
      /\ trace w' = asked (trace w) query (pre ++ [m]).
Proof.
  induction pre as [|p pre IH]; intros w items m post found Hpre Hm Hne.
  - rewrite asked_nil in Hm. cbn [List.app]. rewrite search_modes_step.
    cbv zeta. rewrite Hm.
    destruct found as [|x found]; [contradiction|].
    eexists. split; [reflexivity|].
    unfold asked. reflexivity.
  - cbn [List.app]. rewrite search_modes_step. cbv zeta.
    assert (H0 := Hpre 0%nat ltac:(simpl; lia)).
    unfold answer_of in H0. simpl firstn in H0. simpl nth in H0.
    rewrite asked_nil in H0.
    assert (Hv : value_truthy
                   match answer w (trace w) (search_request p query) with
                   | Some v => v
                   | None => VList []
                   end = false)
      by (destruct H0 as [-> | ->]; reflexivity).
    rewrite Hv.
    destruct (IH (emit (EvRequest (search_request p query)) w)
                 match answer w (trace w) (search_request p query) with
                 | Some v => v
                 | None => VList []
                 end m post found) as [w' [Hrun Htrace]].
    + intros j Hj. assert (Hj' := Hpre (S j) ltac:(simpl; lia)).
      unfold answer_of in *. simpl firstn in Hj'. simpl nth in Hj'.
      rewrite asked_cons in Hj'. exact Hj'.
    + rewrite asked_cons in Hm. exact Hm.
    + exact Hne.
    + exists w'. split; [exact Hrun|].
      rewrite Htrace. cbn [List.app]. now rewrite asked_cons.
Qed.

(** When every mode fails or answers with the empty sequence, the loop
    asks all of them and ends with the empty sequence. *)
Lemma search_modes_exhausted {R : Type} (query : str) (modes : list str) :
  forall (w : world),
    (forall j, (j < List.length modes)%nat ->
               failed_or_empty (answer_of w query modes j)) ->
    exists w',
      @search_modes R query modes (VList []) w = (Next (VList []), w')
      /\ trace w' = asked (trace w) query modes.
Proof.
  induction modes as [|p modes IH]; intros w Hall.
  - exists w. split; [reflexivity | now rewrite asked_nil].
  - rewrite search_modes_step. cbv zeta.
    assert (H0 := Hall 0%nat ltac:(simpl; lia)).
    unfold answer_of in H0. simpl firstn in H0. simpl nth in H0.
    rewrite asked_nil in H0.
    assert (Hv : match answer w (trace w) (search_request p query) with
                 | Some v => v
                 | None => VList []
                 end = VList [])
      by (destruct H0 as [-> | ->]; reflexivity).
    rewrite Hv. simpl value_truthy. cbv iota.
    destruct (IH (emit (EvRequest (search_request p query)) w))
      as [w' [Hrun Htrace]].
    + intros j Hj. assert (Hj' := Hall (S j) ltac:(simpl; lia)).
      unfold answer_of in *. simpl firstn in Hj'. simpl nth in Hj'.
      rewrite asked_cons in Hj'. exact Hj'.
    + exists w'. split; [exact Hrun|].
      rewrite Htrace. now rewrite asked_cons.
Qed.

Lemma search_modes_returns {R : Type} (query : str) (modes : list str) :
  forall (items : value) (w : world),
    exists v w', @search_modes R query modes items w = (Next v, w').
Proof.
  induction modes as [|m modes IH]; intros items w.
  - now exists items, w.
  - rewrite search_modes_step. cbv zeta.
    destruct (value_truthy _); [eexists; eexists; reflexivity | apply IH].
Qed.

Lemma search_auto_unfold (query : str) (w : world) (v : value) (w' : world) :
  @search_modes value query auto_modes (VList []) w = (Next v, w') ->
  search query "Auto" w = (Value v, w').
Proof.
  intros H. unfold search, def_, bind, try_except.
  change (String.eqb "Auto" "Auto") with true. cbv iota.
  rewrite H. reflexivity.
Qed.

Lemma after_returns {R : Type} (callback : fn unit) (w : world) :
  exists w', @after R callback w = (Next tt, w').
Proof.
  unfold after, try_except, call.
  destruct (callback w) as [[[]|e] w']; eexists; reflexivity.
Qed.

Lemma search_returns (query mode : str) (w : world) :
  exists v w', search query mode w = (Value v, w').
Proof.
  unfold search, def_, bind, try_except.
  destruct (@search_modes_returns value query
              (if String.eqb mode "Auto" then auto_modes else [lower mode])
              (VList []) w) as [v [w' H]].
  rewrite H. now exists v, w'.
Qed.

(** [_search_thread] ends normally whatever the directory answers. *)
Lemma search_thread_returns (query mode : str) (w : world) :
  exists w', _search_thread query mode w = (Value tt, w').
Proof.
  unfold _search_thread, proc, bind, call.
  destruct (search_returns query mode w) as [v [w1 H]]. rewrite H.
  unfold update_self at 1.
  match goal with
  | |- context [@after ?R ?f ?x] =>
      destruct (@after_returns R f x) as [w2 H2]; rewrite H2
  end.
  unfold try_except.
  match goal with
  | |- context [@after ?R ?f ?x] =>
      destruct (@after_returns R f x) as [w3 H3]; rewrite H3
  end.
  now exists w3.
Qed.

Lemma auto_modes_split (k : nat) :
  (k < 4)%nat ->
  auto_modes
  = (firstn k auto_modes ++ nth k auto_modes "" :: skipn (S k) auto_modes)%list.
Proof.
  intros Hk. do 4 (destruct k as [|k]; [reflexivity|]). lia.
Qed.

Lemma answer_of_firstn (w : world) (query : str) (k j : nat) :
  (k < 4)%nat -> (j < k)%nat ->
  answer_of w query (firstn k auto_modes) j = answer_of w query auto_modes j.
Proof.
  intros Hk Hj.
  do 4 (destruct k as [|k];
        [do 4 (destruct j as [|j]; [reflexivity || lia|]); lia|]).
  lia.
Qed.

(** C5: a search in Auto mode never raises.  The modes are asked in the
    order name, tag, country, language: when the [k]-th of them is the
    first to answer with a non-empty sequence (every earlier one failing
    or answering with the empty sequence), the search returns that
    sequence and has issued the requests of the modes up to the [k]-th
    and no other; when all four fail or answer with the empty sequence,
    it returns the empty sequence after asking all four.  The thread that
    runs the search ends normally as well. *)
Theorem search_auto_order (query : str) (w : world) :
  exists items w',
    search query "Auto" w = (Value items, w')
    /\ (forall k found,
          (k < 4)%nat ->
          (forall j, (j < k)%nat ->
             failed_or_empty
               (answer_of w query ["name"; "tag"; "country"; "language"] j)) ->
          answer_of w query ["name"; "tag"; "country"; "language"] k
          = Some (VList found) ->
          found <> [] ->
          items = VList found
          /\ trace w'
             = asked (trace w) query
                     (firstn (S k) ["name"; "tag"; "country"; "language"]))
    /\ ((forall j, (j < 4)%nat ->
           failed_or_empty
             (answer_of w query ["name"; "tag"; "country"; "language"] j)) ->
        items = VList []
        /\ trace w'
           = asked (trace w) query ["name"; "tag"; "country"; "language"])
    /\ exists w'', _search_thread query "Auto" w = (Value tt, w'').
Proof.
  fold auto_modes.
  destruct (@search_modes_returns value query auto_modes (VList []) w)
    as [items [w' Hrun]].
  exists items, w'. split; [now apply search_auto_unfold|].
  split; [|split].
  - intros k found Hk Hbefore Hat Hne.
    destruct (@search_modes_stops value query (firstn k auto_modes) w
                (VList []) (nth k auto_modes "") (skipn (S k) auto_modes)
                found) as [w1 [Hrun1 Htrace]].
    + intros j Hj. rewrite length_firstn in Hj.
      rewrite answer_of_firstn by (simpl in Hj; lia).
      apply Hbefore. lia.
    + exact Hat.
    + exact Hne.
    + rewrite <- auto_modes_split in Hrun1 by exact Hk.
      rewrite Hrun in Hrun1. injection Hrun1 as -> ->.
      split; [reflexivity|]. rewrite Htrace. f_equal.
      do 4 (destruct k as [|k]; [reflexivity|]). lia.
  - intros Hall.
    destruct (@search_modes_exhausted value query auto_modes w Hall)
      as [w1 [Hrun1 Htrace]].
    rewrite Hrun in Hrun1. injection Hrun1 as -> ->.
    split; [reflexivity | exact Htrace].
  - apply search_thread_returns.
Qed.

Lemma search_auto_order_witness :
  exists w',
    search "jazz" "Auto" (world_of jazz_directory Absent)
    = (Value (VList [jazz_item]), w')
    /\ trace w' = [EvRequest (search_request "name" "jazz");
                   EvRequest (search_request "tag" "jazz")].
Proof.
  destruct (search_auto_order "jazz" (world_of jazz_directory Absent))
    as [items [w' [Hrun [Hstop _]]]].
  exists w'.
  destruct (Hstop 1%nat [jazz_item]) as [Hitems Htrace].
  - lia.
  - intros j Hj. destruct j; [right; reflexivity | lia].
  - reflexivity.
  - discriminate.
  - rewrite <- Hitems. split; [exact Hrun | exact Htrace].
Defined.

(** ** The station registry *)

(** [save_stations] never raises: it writes the encoded stations, or
    reports the failure in a dialog. *)
Lemma save_stations_spec (w : world) :
  save_stations w
  = (Value tt,
     mkWorld (trace w ++ save_events (disk w) (json_dumps (stations (self w))))
             (network w)
             (saved_file (disk w) (stations_file w)
                         (json_dumps (stations (self w))))
             (disk w) (vlc_stop_error w) (vlc_play_error w) (stdout_error w)
             (self w)).
Proof.
  unfold save_stations, proc, try_except, bind, open_for_write, write_text,
    get_self, messagebox, effect.
  destruct w as [t net f d e1 e2 so a].
  destruct d; unfold set_file, emit;
    cbn [trace network stations_file disk vlc_stop_error vlc_play_error
         stdout_error self
         save_events saved_file];
    rewrite <- ?List.app_assoc; reflexivity.
Qed.

(** [RadioPlayer.stop] when libvlc's stop returns. *)
Lemma RadioPlayer_stop_spec (w : world) :
  vlc_stop_error w = None ->
  RadioPlayer_stop w
  = (Value tt,
     set_self (with_player (mkPlayer VNone false) (self w)) (emit EvVlcStop w)).
Proof.
  intros H.
  unfold RadioPlayer_stop, proc, try_finally, vlc_stop, bind, get_self,
    set_player, update_self.
  rewrite H. reflexivity.
Qed.

Lemma nth_error_valid {A : Type} (l : list A) (i : nat) (x : A) :
  nth_error l i = Some x -> (i <? List.length l)%nat = true.
Proof.
  intros H. apply Nat.ltb_lt. apply nth_error_Some. congruence.
Qed.

Lemma py_get_dict (d : list (str * value)) (key : str) (default : value) :
  exists v, py_get (VDict d) key default = inr v.
Proof.
  unfold py_get. destruct (entries_get d key); eexists; reflexivity.
Qed.

(** C8: deleting the station at a valid index [i], once the user has
    confirmed.  When the station's url equals the player's current url,
    the player is told to stop before the record leaves the list: the stop
    precedes the removal and the save in the trace, and the player ends
    stopped.  Otherwise the player is left as it was and no stop is
    issued.  In both cases exactly the [i]-th record is removed, from the
    stations and from the list box, and the remaining stations are saved.
    (The stop of libvlc is taken to return when it is called.) *)
Theorem on_delete_spec
        (w : world) (i : nat) (l : list value)
        (d : list (str * value)) (url : value) :
  stations (self w) = VList l ->
  nth_error l i = Some (VDict d) ->
  py_get (VDict d) "url" VNone = inr url ->
  (py_eq (current_url (player (self w))) url = true ->
   vlc_stop_error w = None) ->
  exists w',
    on_delete (Some i) true w = (Value tt, w')
    /\ stations (self w') = VList (without i l)
    /\ listbox (self w') = without i (listbox (self w))
    /\ (if py_eq (current_url (player (self w))) url
        then player (self w') = mkPlayer VNone false
             /\ trace w'
                = (trace w
                   ++ [EvDialog askyesno "Delete"; EvVlcStop;
                       EvListboxDelete i]
                   ++ save_events (disk w) (json_dumps (VList (without i l))))
                  %list
        else player (self w') = player (self w)
             /\ trace w'
                = (trace w
                   ++ [EvDialog askyesno "Delete"; EvListboxDelete i]
                   ++ save_events (disk w) (json_dumps (VList (without i l))))
                  %list)
    /\ stations_file w'
       = saved_file (disk w) (stations_file w)
                    (json_dumps (VList (without i l))).
Proof.
  intros Hst Hnth Hurl Hvlc.
  destruct w as [t net f dk e1 e2 so a].
  destruct a as [sts pl sr lb rlb sv b1 b2 ps].
  world_simpl. subst sts.
  destruct (py_get_dict d "name" (VStr "(no name)")) as [nm Hname].
  unfold on_delete. unfold_statements. world_simpl.
  unfold py_getitem. rewrite Hnth, Hname. world_simpl.
  rewrite Hnth, Hurl.
  unfold py_delitem.
  destruct (py_eq (current_url pl) url) eqn:Heq.
  - rewrite RadioPlayer_stop_spec by (world_simpl; now apply Hvlc).
    world_simpl. rewrite (nth_error_valid _ _ _ Hnth).
    rewrite save_stations_spec. world_simpl.
    eexists. split; [reflexivity|]. world_simpl. unfold without.
    repeat split. now rewrite <- !List.app_assoc.
  - world_simpl. rewrite (nth_error_valid _ _ _ Hnth).
    rewrite save_stations_spec. world_simpl.
    eexists. split; [reflexivity|]. world_simpl. unfold without.
    repeat split. now rewrite <- !List.app_assoc.
Qed.

Lemma on_delete_spec_witness :
  exists w',
    on_delete (Some 0%nat) true playing_world = (Value tt, w')
    /\ stations (self w') = VList [news_station]
    /\ player (self w') = mkPlayer VNone false
    /\ trace w'
       = [EvDialog askyesno "Delete"; EvVlcStop; EvListboxDelete 0;
          EvOpenForWrite; EvWrite (json_dumps (VList [news_station]))].
Proof.
  destruct (on_delete_spec playing_world 0
              [jazz_station; news_station]
              [("name", VStr "Jazz FM"); ("info", VStr "jazz");
               ("url", VStr "http://jazz.example/stream.mp3")]
              (VStr "http://jazz.example/stream.mp3"))
    as [w' [Hrun [Hst [_ [Hplayer _]]]]].
  - reflexivity.
  - reflexivity.
  - reflexivity.
  - reflexivity.
  - exists w'. split; [exact Hrun|]. split; [exact Hst|].
    exact Hplayer.
Defined.

(** The editor's Add and Edit refuse an empty name or url: the sibling of
    the add-from-search path does validate. *)
Lemma on_ok_validates
      (index : option nat) (name_var info_var url_var : str) (w : world) :
  strip name_var = "" \/ strip url_var = "" ->
  on_ok index name_var info_var url_var w
  = (Value tt, emit (EvDialog showinfo "Validation") w).
Proof.
  intros H. unfold on_ok. unfold_statements.
  destruct H as [-> | ->]; [reflexivity|].
  now destruct (strip name_var).
Qed.

(** C6 (the code at the failing input): adding a search result whose name
    is the empty string appends a record with an empty name and saves it;
    no validation takes place on this path. *)
Theorem add_search_skips_validation :
  exists w',
    on_add_search (Some 0%nat) (found_world [nameless_item]) = (Value tt, w')
    /\ stations (self w')
       = VList [station "" "jazz" "http://jazz.example/stream.mp3"]
    /\ stations_file w'
       = Text (json_dumps
                 (VList [station "" "jazz" "http://jazz.example/stream.mp3"])).
Proof.
  eexists. split; [vm_compute; reflexivity|]. split; reflexivity.
Qed.

(** The same path with a result that has no url: the record is appended
    and saved with an empty url. *)
Lemma add_search_empty_url :
  exists w',
    on_add_search (Some 0%nat) (found_world [urlless_item]) = (Value tt, w')
    /\ stations (self w') = VList [station "Jazz FM" "jazz" ""]
    /\ stations_file w' = Text (json_dumps (VList [station "Jazz FM" "jazz" ""])).
Proof.
  eexists. split; [vm_compute; reflexivity|]. split; reflexivity.
Qed.

(** ** Loading the stations *)

(** What [load_stations] returns, by the state of the stations file. *)
Lemma load_stations_value (w : world) :
  load_stations w
  = (match stations_file w with
     | Absent => Value (VList [])
     | Unreadable e => Exception e
     | Text s =>
         match json_loads s with
         | inr data => Value data
         | inl e => Exception e
         end
     end, w).
Proof.
  unfold load_stations, def_, os_path_exists, read_text.
  unfold_statements.
  destruct (stations_file w) as [|e|s] eqn:Hf; cbn [negb];
    cbv beta iota zeta; rewrite ?Hf; try reflexivity.
  now destruct (json_loads s).
Qed.

Lemma main_after_load (w : world) :
  main w
  = match fst (load_stations w) with
    | Value data => RadioApp_init data w
    | Exception e => (Exception e, w)
    end.
Proof.
  unfold main. unfold proc at 1. unfold bind, call.
  rewrite load_stations_value. cbn [fst].
  destruct (stations_file w) as [|e|s].
  - now destruct (RadioApp_init (VList []) w) as [[[]|e] w1].
  - reflexivity.
  - destruct (json_loads s) as [e|data]; [reflexivity|].
    now destruct (RadioApp_init data w) as [[[]|e] w1].
Qed.

(** C7 (as amended): [main] loads the stations once, before the
    application object is built.  The load yields the empty list when the
    file is absent, and the decoded content when the file holds JSON text
    that the decoder of the model reads; the application is then built
    from it.  When the file cannot be read, or its content is not JSON,
    the load raises, and so does [main]: no empty list is substituted.
    ([Unmodelled] marks JSON text outside the model, a float or a code
    point above U+00FF, about which nothing is stated.) *)
Theorem load_stations_spec (w : world) :
  (stations_file w = Absent ->
   load_stations w = (Value (VList []), w)
   /\ main w = RadioApp_init (VList []) w)
  /\ (forall s data,
        stations_file w = Text s ->
        json_loads s = inr data ->
        load_stations w = (Value data, w)
        /\ main w = RadioApp_init data w)
  /\ (forall e,
        e <> Unmodelled ->
        stations_file w = Unreadable e
        \/ (exists s, stations_file w = Text s /\ json_loads s = inl e) ->
        load_stations w = (Exception e, w)
        /\ main w = (Exception e, w)).
Proof.
  split; [|split].
  - intros Hf. rewrite main_after_load, load_stations_value, Hf.
    split; reflexivity.
  - intros s data Hf Hjson.
    rewrite main_after_load, load_stations_value, Hf, Hjson.
    split; reflexivity.
  - intros e _ [Hf | [s [Hf Hjson]]];
      rewrite main_after_load, load_stations_value, Hf, ?Hjson;
      split; reflexivity.
Qed.

(** C7 (counterexample): a stations file whose content is not JSON makes
    the load raise instead of yielding the empty list. *)
Lemma load_stations_malformed :
  load_stations (world_of refusing (Text "[{ not json"))
  = (Exception JSONDecodeError, world_of refusing (Text "[{ not json")).
Proof. reflexivity. Qed.

Lemma load_stations_absent :
  load_stations (world_of refusing Absent)
  = (Value (VList []), world_of refusing Absent).
Proof. reflexivity. Qed.

(** ** JSON: what the decoder reads back from the encoder's text *)

Lemma follows_value_not_digit (rest : str) :
  follows_value rest ->
  match rest with
  | EmptyString => True
  | String c _ => is_digit c = false
  end.
Proof.
  intros [-> | [[r ->] | [r ->]]]; [exact I | reflexivity | reflexivity].
Qed.

Lemma follows_value_not_float (rest : str) :
  follows_value rest -> starts_float rest = false.
Proof.
  intros [-> | [[r ->] | [r ->]]]; [reflexivity | |]; now destruct r.
Qed.

Lemma scan_digits_stop (rest : str) :
  match rest with
  | EmptyString => True
  | String c _ => is_digit c = false
  end ->
  scan_digits rest = (Nil, rest).
Proof.
  destruct rest as [|c r]; [reflexivity|]. simpl. now intros ->.
Qed.

(** The digits the encoder writes are read back as the same number. *)
Lemma scan_digits_spec (d : uint) (rest : str) :
  match rest with
  | EmptyString => True
  | String c _ => is_digit c = false
  end ->
  scan_digits (NilEmpty.string_of_uint d ++ rest) = (d, rest).
Proof.
  intros Hrest. induction d as [|d IH|d IH|d IH|d IH|d IH|d IH|d IH|d IH|d IH|d IH];
    [now apply scan_digits_stop | ..];
    cbn [NilEmpty.string_of_uint append scan_digits];
    change (is_digit _) with true; cbv iota; rewrite IH; reflexivity.
Qed.

Lemma to_uint_normal (p : positive) : unorm (Pos.to_uint p) = Pos.to_uint p.
Proof.
  rewrite <- (Unsigned.to_of (Pos.to_uint p)), Unsigned.of_to. reflexivity.
Qed.

(** A positive number's decimal writing starts with a digit other than 0. *)
Lemma to_uint_head (p : positive) :
  exists c r,
    NilEmpty.string_of_uint (Pos.to_uint p) = String c r
    /\ is_digit c = true /\ (code c =? 48)%nat = false.
Proof.
  assert (Hn := to_uint_normal p).
  assert (Hnil := Unsigned.to_uint_nonnil p).
  assert (Hzero := Unsigned.to_uint_nonzero p).
  destruct (Pos.to_uint p) as [|d|d|d|d|d|d|d|d|d|d];
    [now destruct Hnil | | | | | | | | | |];
    try (eexists; eexists; split; [reflexivity | split; reflexivity]).
  exfalso. rewrite unorm_D0 in Hn. unfold unorm in Hn.
  destruct (nzhead d) eqn:E;
    apply (nzhead_nonzero d d); congruence.
Qed.

Lemma digit_code (c : ascii) :
  is_digit c = true -> (code c =? 45)%nat = false.
Proof.
  unfold is_digit. intros H. apply andb_true_iff in H. destruct H as [H _].
  apply Nat.leb_le in H. apply Nat.eqb_neq. lia.
Qed.

Lemma string_of_uint_nonnil (d : uint) :
  d <> Nil -> NilZero.string_of_uint d = NilEmpty.string_of_uint d.
Proof. destruct d; [now intros H | reflexivity ..]. Qed.

(** [parse_number] reads back the integers the encoder writes. *)
Lemma parse_number_spec (z : Z) (rest : str) :
  follows_value rest ->
  parse_number (int_repr z ++ rest) = inr (VInt z, rest).
Proof.
  intros Hrest.
  assert (Hfloat := follows_value_not_float _ Hrest).
  assert (Hdigit := follows_value_not_digit _ Hrest).
  unfold int_repr. destruct z as [|p|p].
  - change (NilZero.string_of_int (Z.to_int 0)) with "0".
    unfold parse_number. cbn [append].
    change (code "0"%char =? 45)%nat with false. cbv beta iota.
    change (is_digit "0"%char) with true.
    change (code "0"%char =? 48)%nat with true.
    cbn [negb]. cbv beta iota. now rewrite Hfloat.
  - cbn [Z.to_int NilZero.string_of_int].
    rewrite string_of_uint_nonnil by apply Unsigned.to_uint_nonnil.
    destruct (to_uint_head p) as [c [r [Hs [Hd Hz]]]].
    unfold parse_number. rewrite Hs. cbn [append].
    rewrite (digit_code _ Hd). cbv beta iota.
    rewrite Hd, Hz. cbn [negb]. cbv beta iota.
    change (String c (r ++ rest)) with (String c r ++ rest).
    rewrite <- Hs, scan_digits_spec by exact Hdigit.
    rewrite Hfloat.
    change (Pos (Pos.to_uint p)) with (Z.to_int (Zpos p)).
    now rewrite DecimalZ.of_to.
  - cbn [Z.to_int NilZero.string_of_int].
    rewrite string_of_uint_nonnil by apply Unsigned.to_uint_nonnil.
    destruct (to_uint_head p) as [c [r [Hs [Hd Hz]]]].
    unfold parse_number. cbn [append].
    change (code "-"%char =? 45)%nat with true. cbv beta iota.
    rewrite Hs. cbn [append]. rewrite Hd, Hz. cbn [negb]. cbv beta iota.
    change (String c (r ++ rest)) with (String c r ++ rest).
    rewrite <- Hs, scan_digits_spec by exact Hdigit.
    rewrite Hfloat.
    change (Neg (Pos.to_uint p)) with (Z.to_int (Zneg p)).
    now rewrite DecimalZ.of_to.
Qed.

(** A text that starts with a digit, or with a minus sign and a digit, is
    read as a number. *)
Lemma digit_dispatch (fuel : nat) (c : ascii) (r : str) :
  is_digit c = true ->
  parse_value (S fuel) (String c r) = parse_number (String c r).
Proof.
  destruct c as [[] [] [] [] [] [] [] []]; intros H;
    try discriminate H; reflexivity.
Qed.

Lemma minus_dispatch (fuel : nat) (d : ascii) (r : str) :
  is_digit d = true ->
  parse_value (S fuel) (String "-" (String d r))
  = parse_number (String "-" (String d r)).
Proof.
  destruct d as [[] [] [] [] [] [] [] []]; intros H;
    try discriminate H; reflexivity.
Qed.

Lemma parse_value_int (fuel : nat) (z : Z) (rest : str) :
  follows_value rest ->
  parse_value (S fuel) (int_repr z ++ rest) = inr (VInt z, rest).
Proof.
  intros Hrest. rewrite <- (parse_number_spec z rest Hrest).
  unfold int_repr. destruct z as [|p|p].
  - reflexivity.
  - cbn [Z.to_int NilZero.string_of_int].
    rewrite string_of_uint_nonnil by apply Unsigned.to_uint_nonnil.
    destruct (to_uint_head p) as [c [r [Hs [Hd Hz]]]].
    rewrite Hs. cbn [append]. now apply digit_dispatch.
  - cbn [Z.to_int NilZero.string_of_int].
    rewrite string_of_uint_nonnil by apply Unsigned.to_uint_nonnil.
    destruct (to_uint_head p) as [c [r [Hs [Hd Hz]]]].
    rewrite Hs. cbn [append]. now apply minus_dispatch.
Qed.

(** The decoder undoes the escape of one character. *)
Lemma scanstring_escape_char (c : ascii) (r : str) :
  scanstring (escape_char c ++ r) = map_parsed (String c) (scanstring r).
Proof.
  destruct c as [[] [] [] [] [] [] [] []]; reflexivity.
Qed.

Lemma scanstring_escape (s rest : str) :
  scanstring (escape s ++ String dquote rest) = inr (s, rest).
Proof.
  induction s as [|c s IH]; [reflexivity|].
  cbn [escape]. rewrite app_assoc_str, scanstring_escape_char, IH.
  reflexivity.
Qed.

Lemma parse_value_str (fuel : nat) (s rest : str) :
  parse_value (S fuel) (encode_basestring s ++ rest) = inr (VStr s, rest).
Proof.
  unfold encode_basestring. cbn [append parse_value].
  change (code dquote =? 34)%nat with true. cbv iota.
  rewrite app_assoc_str. cbn [append].
  now rewrite scanstring_escape.
Qed.

Lemma skip_ws_spaces (n : nat) (s : str) : skip_ws (spaces n ++ s) = skip_ws s.
Proof. induction n as [|n IH]; [reflexivity | exact IH]. Qed.

Lemma skip_ws_newline_indent (level : nat) (s : str) :
  skip_ws (newline_indent level ++ s) = skip_ws s.
Proof. unfold newline_indent. cbn. apply skip_ws_spaces. Qed.

Lemma skip_ws_head (c : ascii) (s : str) :
  is_ws c = false -> skip_ws (String c s) = String c s.
Proof. intros H. cbn. now rewrite H. Qed.

(** The first character of an encoded value: not whitespace, and neither
    of the closing brackets. *)
Lemma encode_head (level : nat) (v : value) :
  exists c r,
    encode level v = String c r
    /\ is_ws c = false
    /\ (code c =? 93)%nat = false
    /\ (code c =? 125)%nat = false.
Proof.
  destruct v as [|[]|z|s|[|x items]|[|kv entries]];
    try (eexists; eexists; split; [reflexivity | repeat split; reflexivity]).
  unfold encode, int_repr. destruct z as [|p|p];
    try (eexists; eexists; split; [reflexivity | repeat split; reflexivity]).
  cbn [Z.to_int NilZero.string_of_int].
  rewrite string_of_uint_nonnil by apply Unsigned.to_uint_nonnil.
  destruct (to_uint_head p) as [c [r [Hs [Hd Hz]]]].
  exists c, r. split; [exact Hs|].
  clear Hs. destruct c as [[] [] [] [] [] [] [] []];
    try discriminate Hd; repeat split; reflexivity.
Qed.

Example json_dumps_nested :
  json_dumps (VList [VInt 1; VList [VNone; VBool false]; VDict []; VInt (-20)])
  = String.concat (String newline "")
      ["["; "  1,"; "  ["; "    null,"; "    false"; "  ],"; "  {},";
       "  -20"; "]"].
Proof. reflexivity. Qed.

Example json_dumps_station :
  json_dumps (VList [station "Jazz FM" "jazz" "http://jazz.example/a"])
  = String.concat (String newline "")
      ["[";
       "  {";
       "    " ++ encode_basestring "name" ++ ": "
         ++ encode_basestring "Jazz FM" ++ ",";
       "    " ++ encode_basestring "info" ++ ": "
         ++ encode_basestring "jazz" ++ ",";
       "    " ++ encode_basestring "url" ++ ": "
         ++ encode_basestring "http://jazz.example/a";
       "  }";
       "]"].
Proof. reflexivity. Qed.

Example escape_example :
  escape (String dquote (String backslash
            (String newline (String (ascii_of_nat 1)
               (String (ascii_of_nat 127) (String (ascii_of_nat 233) ""))))))
  = String backslash (String dquote
      (String backslash (String backslash
         (String backslash ("n" ++ String backslash "u0001"
            ++ String (ascii_of_nat 127) (String (ascii_of_nat 233) "")))))).
Proof. reflexivity. Qed.

Example json_loads_examples :
  json_loads " [1 , [true, null] , {} ] " = inr (VList [VInt 1; VList [VBool true; VNone]; VDict []])
  /\ json_loads "[1, 2,]" = inl JSONDecodeError
  /\ json_loads "[01]" = inl JSONDecodeError
  /\ json_loads "[-0]" = inr (VList [VInt 0])
  /\ json_loads "[1] x" = inl JSONDecodeError
  /\ json_loads "" = inl JSONDecodeError
  /\ json_loads "nul" = inl JSONDecodeError
  /\ json_loads "[1.5]" = inl Unmodelled.
Proof. repeat split; reflexivity. Qed.

Lemma value_induction (P : value -> Prop) :
  P VNone ->
  (forall b, P (VBool b)) ->
  (forall z, P (VInt z)) ->
  (forall s, P (VStr s)) ->
  (forall items, Forall P items -> P (VList items)) ->
  (forall entries, Forall (fun kv => P (snd kv)) entries -> P (VDict entries)) ->
  forall v, P v.
Proof.
  intros HN HB HI HS HL HD. fix IH 1.
  intros [|b|z|s|items|entries].
  - exact HN.
  - apply HB.
  - apply HI.
  - apply HS.
  - apply HL. revert items. fix IHl 1.
    intros [|x items]; constructor; [apply IH | apply IHl].
  - apply HD. revert entries. fix IHl 1.
    intros [|[k x] entries]; constructor; [apply IH | apply IHl].
Qed.

Lemma well_formed_list (items : list value) :
  well_formed (VList items) <-> Forall well_formed items.
Proof.
  induction items as [|x items IH]; cbn.
  - split; [constructor | exact (fun _ => I)].
  - split.
    + intros [Hx Hr]. constructor; [exact Hx | now apply IH].
    + intros H. inversion H; subst. split; [assumption | now apply IH].
Qed.

Lemma well_formed_dict (entries : list (str * value)) :
  well_formed (VDict entries)
  <-> NoDup (map fst entries)
      /\ Forall (fun kv => well_formed (snd kv)) entries.
Proof.
  cbn. apply and_iff_compat_l.
  induction entries as [|[k x] entries IH].
  - split; [constructor | exact (fun _ => I)].
  - split.
    + intros [Hx Hr]. constructor; [exact Hx | now apply IH].
    + intros H. inversion H; subst. split; [assumption | now apply IH].
Qed.

Lemma encode_list (level : nat) (x : value) (items : list value) :
  encode level (VList (x :: items))
  = "[" ++ newline_indent (S level) ++ items_text level (x :: items)
    ++ newline_indent level ++ "]".
Proof. reflexivity. Qed.

Lemma encode_dict (level : nat) (kv : str * value)
      (entries : list (str * value)) :
  encode level (VDict (kv :: entries))
  = "{" ++ newline_indent (S level) ++ entries_text level (kv :: entries)
    ++ newline_indent level ++ "}".
Proof. reflexivity. Qed.

Lemma items_text_one (level : nat) (x : value) :
  items_text level [x] = encode (S level) x.
Proof. reflexivity. Qed.

Lemma items_text_more (level : nat) (x y : value) (items : list value) :
  items_text level (x :: y :: items)
  = encode (S level) x ++ ("," ++ newline_indent (S level))
    ++ items_text level (y :: items).
Proof. reflexivity. Qed.

(** The text of the items starts with a character that is not whitespace
    and not a closing bracket. *)
Lemma items_text_head (level : nat) (x : value) (items : list value)
      (tail : str) :
  exists c r,
    items_text level (x :: items) ++ tail = String c r
    /\ is_ws c = false /\ (code c =? 93)%nat = false.
Proof.
  destruct (encode_head (S level) x) as [c [r [He [Hws [Hb _]]]]].
  destruct items as [|y items].
  - rewrite items_text_one, He. exists c, (r ++ tail). now repeat split.
  - rewrite items_text_more, He. eexists c, _. now repeat split.
Qed.

Lemma follows_comma (s : str) : follows_value (String "," s).
Proof. right. left. now exists s. Qed.

Lemma follows_newline (level : nat) (s : str) :
  follows_value (newline_indent level ++ s).
Proof. right. right. unfold newline_indent. now eexists. Qed.

(** The array loop reads back the items the encoder writes. *)
Lemma parse_items_spec (level : nat) (items : list value) :
  items <> [] ->
  Forall reads_back items ->
  forall (fuel : nat) (acc : list value) (rest : str),
    (String.length (items_text level items) + 1 <= fuel)%nat ->
    parse_items fuel
      (items_text level items ++ newline_indent level ++ "]" ++ rest) acc
    = inr (VList (acc ++ items), rest).
Proof.
  induction items as [|x items IH]; [now intros H|].
  intros _ Hall fuel acc rest Hfuel.
  inversion Hall as [|? ? Hx Hrest]; subst.
  destruct fuel as [|f]; [lia|].
  destruct items as [|y items].
  - rewrite items_text_one in *. cbn [parse_items].
    rewrite (Hx (S level) f) by (lia || apply follows_newline).
    rewrite skip_ws_newline_indent. cbn [append].
    rewrite skip_ws_head by reflexivity.
    reflexivity.
  - rewrite items_text_more in *. rewrite !length_app in Hfuel.
    remember (newline_indent level ++ "]" ++ rest) as tail eqn:Etail.
    cbn [parse_items]. rewrite !app_assoc_str.
    rewrite (Hx (S level) f) by (lia || (cbn [append]; apply follows_comma)).
    cbn [append]. rewrite skip_ws_head by reflexivity.
    cbv beta iota.
    change (code ","%char =? 93)%nat with false.
    change (code ","%char =? 44)%nat with true. cbv iota.
    rewrite skip_ws_newline_indent.
    destruct (items_text_head level y items tail)
      as [c [r [Hhead [Hws _]]]].
    rewrite Hhead, skip_ws_head by exact Hws. rewrite <- Hhead.
    subst tail. rewrite IH; [|discriminate|exact Hrest|].
    + now rewrite <- List.app_assoc.
    + cbn [String.length] in Hfuel. lia.
Qed.

Lemma entries_text_one (level : nat) (k : str) (x : value) :
  entries_text level [(k, x)]
  = encode_basestring k ++ ": " ++ encode (S level) x.
Proof. reflexivity. Qed.

Lemma entries_text_more (level : nat) (k : str) (x : value)
      (kv : str * value) (entries : list (str * value)) :
  entries_text level ((k, x) :: kv :: entries)
  = (encode_basestring k ++ ": " ++ encode (S level) x)
    ++ ("," ++ newline_indent (S level))
    ++ entries_text level (kv :: entries).
Proof. reflexivity. Qed.

Lemma entries_text_head (level : nat) (kv : str * value)
      (entries : list (str * value)) (tail : str) :
  exists r, entries_text level (kv :: entries) ++ tail = String dquote r.
Proof.
  destruct kv as [k x]. destruct entries as [|kv' entries].
  - rewrite entries_text_one. unfold encode_basestring. now eexists.
  - rewrite entries_text_more. unfold encode_basestring. now eexists.
Qed.

Lemma dict_set_fresh (acc : list (str * value)) (k : str) (v : value) :
  ~ In k (map fst acc) -> dict_set acc k v = (acc ++ [(k, v)])%list.
Proof.
  induction acc as [|[k' v'] acc IH]; intros Hk; [reflexivity|].
  cbn [dict_set]. destruct (String.eqb k' k) eqn:E.
  - apply String.eqb_eq in E. subst. destruct Hk. now left.
  - cbn [List.app]. rewrite IH; [reflexivity|].
    intros Hin. apply Hk. now right.
Qed.

Lemma fresh_key (acc : list (str * value)) (k : str) (x : value)
      (entries : list (str * value)) :
  NoDup (map fst (acc ++ (k, x) :: entries)) -> ~ In k (map fst acc).
Proof.
  rewrite map_app. cbn [map fst]. intros H Hin.
  apply NoDup_remove_2 in H. apply H. apply in_or_app. now left.
Qed.

(** One entry: the key, the colon and the value. *)
Lemma parse_member (level f : nat) (k : str) (x : value) (tail : str) :
  reads_back x ->
  (String.length (encode (S level) x) <= f)%nat ->
  follows_value tail ->
  exists c r,
    encode_basestring k ++ ": " ++ encode (S level) x ++ tail = String c r
    /\ negb (code c =? 34)%nat = false
    /\ scanstring r = inr (k, ": " ++ encode (S level) x ++ tail)
    /\ parse_value f (skip_ws (" " ++ encode (S level) x ++ tail))
       = inr (x, tail).
Proof.
  intros Hx Hf Htail.
  unfold encode_basestring. cbn [append].
  eexists; eexists. split; [reflexivity|]. split; [reflexivity|]. split.
  - rewrite app_assoc_str. cbn [append]. now rewrite scanstring_escape.
  - cbn [skip_ws append]. change (is_ws " "%char) with true. cbv iota.
    destruct (encode_head (S level) x) as [c [r [He [Hws _]]]].
    rewrite He. cbn [append]. rewrite skip_ws_head by exact Hws.
    change (String c (r ++ tail)) with (String c r ++ tail).
    rewrite <- He. now apply Hx.
Qed.

(** The object loop reads back the entries the encoder writes. *)
Lemma parse_members_spec (level : nat) (entries : list (str * value)) :
  entries <> [] ->
  Forall (fun kv => reads_back (snd kv)) entries ->
  forall (fuel : nat) (acc : list (str * value)) (rest : str),
    NoDup (map fst (acc ++ entries)) ->
    (String.length (entries_text level entries) + 1 <= fuel)%nat ->
    parse_members fuel
      (entries_text level entries ++ newline_indent level ++ "}" ++ rest) acc
    = inr (VDict (acc ++ entries), rest).
Proof.
  induction entries as [|[k x] entries IH]; [now intros H|].
  intros _ Hall fuel acc rest Hkeys Hfuel.
  inversion Hall as [|? ? Hx Hrest]; subst. cbn [snd] in Hx.
  destruct fuel as [|f]; [lia|].
  assert (Hfresh := fresh_key _ _ _ _ Hkeys).
  destruct entries as [|kv entries].
  - rewrite entries_text_one in *. rewrite !length_app in Hfuel.
    destruct (parse_member level f k x
                (newline_indent level ++ "}" ++ rest) Hx)
      as [c [r [Htext [Hq [Hkey Hval]]]]];
      [lia | apply follows_newline |].
    cbn [parse_members]. rewrite !app_assoc_str. rewrite Htext, Hq, Hkey.
    cbn [append]. rewrite skip_ws_head by reflexivity.
    change (negb (code ":"%char =? 58)%nat) with false. cbv iota.
    cbn [append] in Hval. rewrite Hval.
    rewrite skip_ws_newline_indent. cbn [append].
    rewrite skip_ws_head by reflexivity.
    change (code "}"%char =? 125)%nat with true. cbv iota.
    now rewrite dict_set_fresh.
  - rewrite entries_text_more in *. rewrite !length_app in Hfuel.
    remember (newline_indent level ++ "}" ++ rest) as tail eqn:Etail.
    destruct (parse_member level f k x
                ("," ++ newline_indent (S level)
                 ++ entries_text level (kv :: entries) ++ tail) Hx)
      as [c [r [Htext [Hq [Hkey Hval]]]]];
      [lia | cbn [append]; apply follows_comma |].
    cbn [parse_members]. rewrite !app_assoc_str.
    rewrite Htext, Hq, Hkey.
    cbn [append]. rewrite skip_ws_head by reflexivity.
    change (negb (code ":"%char =? 58)%nat) with false. cbv iota.
    cbn [append] in Hval. rewrite Hval.
    rewrite skip_ws_head by reflexivity.
    change (code ","%char =? 125)%nat with false.
    change (code ","%char =? 44)%nat with true. cbv iota.
    rewrite skip_ws_newline_indent.
    destruct (entries_text_head level kv entries tail) as [r' Hhead].
    rewrite Hhead, skip_ws_head by reflexivity. rewrite <- Hhead.
    subst tail. rewrite dict_set_fresh by exact Hfresh.
    rewrite IH; [|discriminate|exact Hrest| |].
    + now rewrite <- List.app_assoc.
    + now rewrite <- List.app_assoc.
    + cbn [String.length] in Hfuel. lia.
Qed.

Lemma fuel_positive (level : nat) (v : value) (fuel : nat) :
  (String.length (encode level v) <= fuel)%nat -> exists f, fuel = S f.
Proof.
  destruct (encode_head level v) as [c [r [He _]]]. rewrite He.
  cbn [String.length]. intros H. destruct fuel as [|f]; [lia | now exists f].
Qed.

Lemma parse_value_null (f : nat) (rest : str) :
  parse_value (S f) ("null" ++ rest) = inr (VNone, rest).
Proof.
  change ("null" ++ rest) with (String "n" ("ull" ++ rest)).
  cbn [parse_value].
  change (code "n"%char =? 34)%nat with false.
  change (code "n"%char =? 123)%nat with false.
  change (code "n"%char =? 91)%nat with false. cbv beta iota zeta.
  change (String "n" ("ull" ++ rest)) with ("null" ++ rest).
  now rewrite prefix_app.
Qed.

Lemma parse_value_true (f : nat) (rest : str) :
  parse_value (S f) ("true" ++ rest) = inr (VBool true, rest).
Proof.
  change ("true" ++ rest) with (String "t" ("rue" ++ rest)).
  cbn [parse_value].
  change (code "t"%char =? 34)%nat with false.
  change (code "t"%char =? 123)%nat with false.
  change (code "t"%char =? 91)%nat with false. cbv beta iota zeta.
  change (String.prefix "null" (String "t" ("rue" ++ rest))) with false.
  cbv iota.
  change (String "t" ("rue" ++ rest)) with ("true" ++ rest).
  now rewrite prefix_app.
Qed.

Lemma parse_value_false (f : nat) (rest : str) :
  parse_value (S f) ("false" ++ rest) = inr (VBool false, rest).
Proof.
  change ("false" ++ rest) with (String "f" ("alse" ++ rest)).
  cbn [parse_value].
  change (code "f"%char =? 34)%nat with false.
  change (code "f"%char =? 123)%nat with false.
  change (code "f"%char =? 91)%nat with false. cbv beta iota zeta.
  change (String.prefix "null" (String "f" ("alse" ++ rest))) with false.
  change (String.prefix "true" (String "f" ("alse" ++ rest))) with false.
  cbv iota.
  change (String "f" ("alse" ++ rest)) with ("false" ++ rest).
  now rewrite prefix_app.
Qed.

(** Every well-formed value is read back from its encoding. *)
Lemma encode_reads_back (v : value) : well_formed v -> reads_back v.
Proof.
  induction v as [|b|z|s|items IH|entries IH] using value_induction;
    intros Hwf level fuel rest Hfuel Hrest;
    destruct (fuel_positive _ _ _ Hfuel) as [f ->].
  - apply parse_value_null.
  - destruct b; [apply parse_value_true | apply parse_value_false].
  - now apply parse_value_int.
  - apply parse_value_str.
  - destruct items as [|x items]; [reflexivity|].
    rewrite encode_list in *. rewrite !app_assoc_str.
    rewrite !length_app in Hfuel. cbn [String.length] in Hfuel.
    cbn [append parse_value].
    change (code "["%char =? 34)%nat with false.
    change (code "["%char =? 123)%nat with false.
    change (code "["%char =? 91)%nat with true. cbv iota.
    rewrite skip_ws_newline_indent.
    destruct (items_text_head level x items
                (newline_indent level ++ String "]" rest))
      as [c [r [Hhead [Hws Hclose]]]].
    rewrite Hhead, skip_ws_head by exact Hws. rewrite Hclose, <- Hhead.
    apply (parse_items_spec level (x :: items)); [discriminate| |lia].
    apply well_formed_list in Hwf.
    rewrite Forall_forall in *. intros y Hy. apply IH; [exact Hy|].
    now apply Hwf.
  - destruct entries as [|kv entries]; [reflexivity|].
    rewrite encode_dict in *. rewrite !app_assoc_str.
    rewrite !length_app in Hfuel. cbn [String.length] in Hfuel.
    cbn [append parse_value].
    change (code "{"%char =? 34)%nat with false.
    change (code "{"%char =? 123)%nat with true. cbv iota.
    rewrite skip_ws_newline_indent.
    destruct (entries_text_head level kv entries
                (newline_indent level ++ String "}" rest)) as [r Hhead].
    rewrite Hhead, skip_ws_head by reflexivity.
    change (code dquote =? 125)%nat with false. cbv iota. rewrite <- Hhead.
    apply well_formed_dict in Hwf. destruct Hwf as [Hkeys Hvals].
    apply (parse_members_spec level (kv :: entries));
      [discriminate| |exact Hkeys|lia].
    rewrite Forall_forall in *. intros y Hy. apply IH; [exact Hy|].
    now apply Hvals.
Qed.

(** [json.loads] undoes [json.dumps] on well-formed values. *)
Lemma json_loads_dumps (v : value) :
  well_formed v -> json_loads (json_dumps v) = inr v.
Proof.
  intros Hwf. unfold json_loads, json_dumps.
  destruct (encode_head 0 v) as [c [r [He [Hws _]]]].
  rewrite He, skip_ws_head by exact Hws. rewrite <- He.
  rewrite <- (app_empty_r (encode 0 v)) at 2.
  rewrite (encode_reads_back v Hwf 0); [reflexivity|lia|now left].
Qed.

(** ** Save and reload *)

Lemma truthy_nonempty (s : str) : s <> "" -> truthy s = true.
Proof. destruct s; [now intros H | reflexivity]. Qed.

Lemma well_formed_station (name info url : str) :
  well_formed (station name info url).
Proof.
  cbn. split; [|tauto].
  repeat constructor; cbn; intuition discriminate.
Qed.

Lemma well_formed_append (l : list value) (x : value) :
  well_formed (VList l) -> well_formed x -> well_formed (VList (l ++ [x])).
Proof.
  rewrite !well_formed_list. intros Hl Hx.
  apply Forall_app. split; [exact Hl | now constructor].
Qed.

(** The stations file decides what [load_stations] returns: two worlds
    with the same file load the same value, whatever their application
    objects hold. *)
Lemma load_stations_reads_file (w w' : world) :
  stations_file w' = stations_file w ->
  fst (load_stations w') = fst (load_stations w).
Proof. intros H. now rewrite !load_stations_value, H. Qed.

(** [on_save] whatever the stations file held before: when the open and
    the dump succeed, the file holds the dump of the stations in memory,
    the trace shows the open, the write of that text and the dialog, and
    the application object is left as it was. *)
Lemma on_save_writes (w : world) (f : file) :
  disk w = NoFault ->
  on_save (set_file f w)
  = (Value tt,
     mkWorld (trace w
              ++ [EvOpenForWrite; EvWrite (json_dumps (stations (self w)));
                  EvDialog showinfo "Saved"])
             (network w) (Text (json_dumps (stations (self w))))
             (disk w) (vlc_stop_error w) (vlc_play_error w) (stdout_error w)
             (self w)).
Proof.
  intros Hdisk.
  destruct w as [t net f0 dk e1 e2 so a]. world_simpl. subst dk.
  unfold on_save. unfold_statements.
  rewrite save_stations_spec. unfold emit, set_file. world_simpl.
  cbn [save_events saved_file]. now rewrite <- List.app_assoc.
Qed.

Lemma set_file_same (w : world) : set_file (stations_file w) w = w.
Proof. now destruct w. Qed.

(** Save, then reload in a process that shares nothing with this one but
    the file, for any well-formed stations: whatever record an Add has put
    in memory, by the editor or from a search result, comes back. *)
Lemma on_save_reload (w : world) (f : file) :
  well_formed (stations (self w)) ->
  disk w = NoFault ->
  exists w',
    on_save (set_file f w) = (Value tt, w')
    /\ self w' = self w
    /\ stations_file w' = Text (json_dumps (stations (self w)))
    /\ forall w3,
         stations_file w3 = stations_file w' ->
         load_stations w3 = (Value (stations (self w)), w3).
Proof.
  intros Hwf Hdisk. rewrite (on_save_writes w f Hdisk).
  eexists. split; [reflexivity|]. world_simpl.
  split; [reflexivity|]. split; [reflexivity|].
  intros w3 Hf. rewrite load_stations_value, Hf.
  now rewrite json_loads_dumps.
Qed.

(** C9: Add, then Save, then reload.  Starting from a list of stations,
    the editor's Add (with a name and a url that are not blank) appends
    the record in memory.  Save then writes the dump of the stations in
    memory to the stations file, whatever the file held before: the trace
    shows the open and the write of that text.  A reload from that file,
    in a process that shares nothing else with this one, returns exactly
    the stations that were in memory: the former ones in their order
    followed by the new record, field by field.  (Every open and every
    dump is taken to succeed.) *)
Theorem add_save_reload
        (w : world) (l : list value) (name_var info_var url_var : str) :
  stations (self w) = VList l ->
  well_formed (VList l) ->
  strip name_var <> "" ->
  strip url_var <> "" ->
  disk w = NoFault ->
  exists w1 w2,
    on_ok None name_var info_var url_var w = (Value tt, w1)
    /\ stations (self w1)
       = VList (l ++ [station (strip name_var) (strip info_var)
                              (strip url_var)])
    /\ on_save w1 = (Value tt, w2)
    /\ self w2 = self w1
    /\ trace w2
       = (trace w1
          ++ [EvOpenForWrite; EvWrite (json_dumps (stations (self w1)));
              EvDialog showinfo "Saved"])%list
    /\ stations_file w2 = Text (json_dumps (stations (self w1)))
    /\ (forall f,
          stations_file (snd (on_save (set_file f w1))) = stations_file w2)
    /\ (forall w3,
          stations_file w3 = stations_file w2 ->
          load_stations w3 = (Value (stations (self w1)), w3)).
Proof.
  intros Hst Hwf Hname Hurl Hdisk.
  assert (Hadd :
    exists w1,
      on_ok None name_var info_var url_var w = (Value tt, w1)
      /\ stations (self w1)
         = VList (l ++ [station (strip name_var) (strip info_var)
                                (strip url_var)])
      /\ disk w1 = NoFault).
  { destruct w as [t net f dk e1 e2 so a].
    destruct a as [sts pl sr lb rlb sv b1 b2 ps].
    world_simpl. subst sts dk.
    unfold on_ok. unfold_statements.
    rewrite (truthy_nonempty _ Hname), (truthy_nonempty _ Hurl).
    cbn [negb orb]. world_simpl. unfold py_append.
    rewrite save_stations_spec. world_simpl.
    eexists. split; [reflexivity|]. world_simpl. split; reflexivity. }
  destruct Hadd as [w1 [Hrun [Hst1 Hdisk1]]].
  assert (Hwf1 : well_formed (stations (self w1))).
  { rewrite Hst1. apply well_formed_append;
      [exact Hwf | apply well_formed_station]. }
  pose proof (on_save_writes w1 (stations_file w1) Hdisk1) as Hsave.
  rewrite set_file_same in Hsave.
  exists w1. eexists. split; [exact Hrun|]. split; [exact Hst1|].
  split; [exact Hsave|]. world_simpl.
  split; [reflexivity|]. split; [reflexivity|]. split; [reflexivity|].
  split.
  - intros f. now rewrite (on_save_writes w1 f Hdisk1).
  - intros w3 Hf. rewrite load_stations_value, Hf.
    now rewrite json_loads_dumps.
Qed.

Lemma add_save_reload_witness :
  exists w1 w2,
    on_ok None "  News " "talk" "http://news.example/live "
          one_station_world
    = (Value tt, w1)
    /\ on_save w1 = (Value tt, w2)
    /\ stations (self w1) = VList [jazz_station; news_station]
    /\ stations_file w2 = Text (json_dumps (VList [jazz_station; news_station]))
    /\ load_stations (world_of refusing (stations_file w2))
       = (Value (VList [jazz_station; news_station]),
          world_of refusing (stations_file w2)).
Proof.
  destruct (add_save_reload one_station_world [jazz_station]
              "  News " "talk" "http://news.example/live ")
    as [w1 [w2 [Hadd [Hst [Hsave [_ [_ [Hfile [_ Hload]]]]]]]]].
  - reflexivity.
  - apply well_formed_list. constructor; [|constructor].
    apply well_formed_station.
  - discriminate.
  - discriminate.
  - reflexivity.
  - exists w1, w2. rewrite Hst in Hfile, Hload.
    split; [exact Hadd|]. split; [exact Hsave|]. split; [exact Hst|].
    split; [exact Hfile|]. apply Hload. reflexivity.
Defined.

(** * Part III: further properties of the code *)

(** ** Worlds that differ by events only *)

Lemma extend_nil (w : world) : extend [] w = w.
Proof. destruct w. unfold extend. cbn. now rewrite List.app_nil_r. Qed.

Lemma emit_extend (ev : event) (t : list event) (w : world) :
  emit ev (extend t w) = extend (t ++ [ev]) w.
Proof. unfold emit, extend. cbn. now rewrite <- List.app_assoc. Qed.

Lemma emit_as_extend (ev : event) (w : world) : emit ev w = extend [ev] w.
Proof. reflexivity. Qed.

Lemma extend_extend (t1 t2 : list event) (w : world) :
  extend t2 (extend t1 w) = extend (t1 ++ t2) w.
Proof. unfold extend. cbn. now rewrite <- List.app_assoc. Qed.

(** ** [resolve_playlist]: what it does to the world *)

Lemma first_url_flow (url : str) (r : Response) :
  match (match first_url_line (body_lines r) with
         | Some line => @Return str unit line
         | None =>
             if (max_lines <=? List.length (text_lines (body_lines r)))%nat
             then Next tt
             else match scan_error (body_lines r) (body_error r) with
                  | Some _ => Return url
                  | None => Next tt
                  end
         end) with
  | Return v => v
  | _ => url
  end
  = match first_url_line (body_lines r) with
    | Some line => line
    | None => url
    end.
Proof.
  destruct (first_url_line (body_lines r)); [reflexivity|].
  destruct (max_lines <=? _)%nat; [reflexivity|].
  now destruct (scan_error (body_lines r) (body_error r)).
Qed.

(** The sniff step with the world it leaves. *)
Lemma sniff_world (url : str) (timeout : Z) (r : Response) (w : world) :
  exists o : flow str unit,
    sniff url timeout r w = (o, extend (sniff_events w url timeout r) w)
    /\ (forall e, o <> Raise e)
    /\ match o with Return v => v | _ => url end
       = match (if has_iter_lines r then Some r
                else match network w (trace w) (get_request url timeout) with
                     | inr r' => Some r'
                     | inl _ => None
                     end) with
         | Some r' =>
             match first_url_line (body_lines r') with
             | Some line => line
             | None => url
             end
         | None => url
         end.
Proof.
  unfold sniff, sniff_events. destruct (has_iter_lines r).
  - cbv beta iota zeta delta [negb ret]. rewrite scan_block_spec.
    eexists. split; [reflexivity|]. split; [|apply first_url_flow].
    intros e. destruct (first_url_line (body_lines r)); [discriminate|].
    destruct (max_lines <=? _)%nat; [discriminate|].
    destruct (scan_error (body_lines r) (body_error r)); discriminate.
  - cbv beta iota zeta delta [negb requests_get_stream send].
    destruct (network w (trace w) (get_request url timeout)) as [e|r'].
    + unfold try_finally, do_return. rewrite close_quietly_spec.
      eexists. split.
      { rewrite !emit_as_extend, extend_extend. reflexivity. }
      split; [discriminate|reflexivity].
    + rewrite scan_block_spec.
      eexists. split.
      { rewrite !emit_as_extend, extend_extend. reflexivity. }
      split; [|apply first_url_flow].
      intros e. destruct (first_url_line (body_lines r')); [discriminate|].
      destruct (max_lines <=? _)%nat; [discriminate|].
      destruct (scan_error (body_lines r') (body_error r')); discriminate.
Qed.

Lemma after_probe_world (url : str) (timeout : Z) (r : Response) (w : world) :
  endswith_any url stream_extensions = false ->
  (when (contains "audio" (lower (content_type_of r))
         || endswith_any url [".mp3"; ".aac"; ".m3u8"])
        (close_quietly r ;; do_return url) ;;
   sniff url timeout r ;;
   @do_return str Empty_set url) w
  = (Return
       (if is_audio r then url
        else
          match (if has_iter_lines r then Some r
                 else match network w (trace w) (get_request url timeout) with
                      | inr r' => Some r'
                      | inl _ => None
                      end) with
          | Some r' =>
              match first_url_line (body_lines r') with
              | Some line => line
              | None => url
              end
          | None => url
          end), extend (after_probe_events w url timeout r) w).
Proof.
  intros Hext. rewrite (short_extensions_included _ Hext), orb_false_r.
  fold (is_audio r). unfold bind, when, after_probe_events.
  destruct (is_audio r).
  - rewrite close_quietly_spec. reflexivity.
  - unfold ret at 1.
    destruct (sniff_world url timeout r w) as [o [Hs [Hnr Hv]]].
    rewrite Hs. destruct o as [[]|v|e].
    + unfold do_return. now rewrite <- Hv.
    + now rewrite <- Hv.
    + now destruct (Hnr e).
Qed.

(** [resolve_playlist] returns [resolved_url] and leaves the world it found,
    extended by [resolve_events]. *)
Lemma resolve_playlist_world (url : str) (timeout : Z) (w : world) :
  resolve_playlist url timeout w
  = (Value (resolved_url w url timeout),
     extend (resolve_events w url timeout) w).
Proof.
  unfold resolved_url, sniffed_response, probe, resolve_events.
  unfold resolve_playlist, def_, try_except.
  unfold bind at 1. unfold when at 1.
  destruct (endswith_any url stream_extensions) eqn:Hext.
  - unfold do_return. now rewrite extend_nil.
  - unfold ret at 1. unfold bind at 1.
    unfold requests_head, requests_get_stream, send, bind, ret.
    destruct (network w (trace w) (head_request url timeout)) as [e|r].
    + cbn [network emit trace].
      destruct (network w (trace w ++ [EvRequest (head_request url timeout)])
                        (get_request url timeout)) as [e'|r].
      * unfold do_return. rewrite !emit_as_extend, extend_extend. reflexivity.
      * assert (Hw := after_probe_world url timeout r
                    (emit (EvRequest (get_request url timeout))
                       (emit (EvRequest (head_request url timeout)) w)) Hext).
        unfold bind in Hw. rewrite Hw. cbv zeta. cbn [network emit trace].
        rewrite !emit_as_extend, !extend_extend.
        destruct (is_audio r); reflexivity.
    + assert (Hw := after_probe_world url timeout r
                  (emit (EvRequest (head_request url timeout)) w) Hext).
      unfold bind in Hw. rewrite Hw. cbv zeta. cbn [network emit trace].
      rewrite !emit_as_extend, !extend_extend.
      destruct (is_audio r); reflexivity.
Qed.

(** X1: [resolve_playlist] touches nothing but the network.  It returns a
    value and leaves the world as it found it, the application object and
    the stations file included, up to the events it appends: requests and
    closes only, with at most one HEAD followed by at most two GETs, each
    for the url and with the timeout it was given. *)
Theorem resolve_playlist_effects (url : str) (timeout : Z) (w : world) :
  exists v evs,
    resolve_playlist url timeout w = (Value v, extend evs w)
    /\ forallb is_network_event evs = true
    /\ In (requests_of evs)
          [[];
           [head_request url timeout];
           [head_request url timeout; get_request url timeout];
           [head_request url timeout; get_request url timeout;
            get_request url timeout]].
Proof.
  exists (resolved_url w url timeout), (resolve_events w url timeout).
  split; [apply resolve_playlist_world|].
  resolve_cases w url timeout; cbn; tauto.
Qed.

(** X2: [resolve_playlist] closes the response it holds when it returns,
    and only that one: nothing is closed when no request was answered, and
    otherwise the close of the held response is the last event. *)
Theorem resolve_playlist_closes (url : str) (timeout : Z) (w : world) :
  exists v evs,
    resolve_playlist url timeout w = (Value v, extend evs w)
    /\ closes_of evs
       = match held_response w url timeout with
         | Some r => [r]
         | None => []
         end
    /\ (forall r, held_response w url timeout = Some r ->
                  exists before, evs = (before ++ [EvClose r])%list).
Proof.
  exists (resolved_url w url timeout), (resolve_events w url timeout).
  split; [apply resolve_playlist_world|].
  resolve_cases w url timeout; cbn; (split; [reflexivity|]);
    intros held Hr; try discriminate Hr; injection Hr as <-;
    first [ now exists [] | now eexists [_] | now eexists [_; _]
          | now eexists [_; _; _] ].
Qed.

(** ** Directory search: requests and widgets *)

Lemma search_modes_world {R : Type} (query : str) (modes : list str) :
  forall (items : value) (w : world),
    exists v k,
      @search_modes R query modes items w
      = (Next v,
         extend (map (fun m => EvRequest (search_request m query))
                     (firstn k modes)) w).
Proof.
  induction modes as [|m modes IH]; intros items w.
  - exists items, 0%nat. cbn. now rewrite extend_nil.
  - rewrite search_modes_step. cbv zeta.
    destruct (value_truthy _).
    + eexists. exists 1%nat. reflexivity.
    + destruct (IH match answer w (trace w) (search_request m query) with
                   | Some v => v
                   | None => VList []
                   end (emit (EvRequest (search_request m query)) w))
        as [v [k Hk]].
      exists v, (S k). rewrite Hk, emit_as_extend, extend_extend.
      reflexivity.
Qed.

(** X3: a search in a concrete mode issues exactly one request, whose
    parameter is named by the lower-cased mode, and returns the decoded
    answer; a failing request, status or decoding gives the empty list. *)
Theorem search_concrete_mode (query mode : str) (w : world) :
  mode <> "Auto" ->
  search query mode w
  = (Value match answer w (trace w) (search_request (lower mode) query) with
           | Some v => v
           | None => VList []
           end,
     emit (EvRequest (search_request (lower mode) query)) w).
Proof.
  intros Hmode. apply String.eqb_neq in Hmode.
  unfold search, def_, bind, try_except. rewrite Hmode.
  rewrite search_modes_step. cbv zeta.
  now destruct (value_truthy _).
Qed.

Lemma search_concrete_mode_witness :
  search "jazz" "Tag" (world_of jazz_directory Absent)
  = (Value (VList [jazz_item]),
     emit (EvRequest (search_request "tag" "jazz"))
          (world_of jazz_directory Absent)).
Proof.
  apply (search_concrete_mode "jazz" "Tag" (world_of jazz_directory Absent)).
  discriminate.
Defined.

Lemma app_eta (a : RadioApp) :
  with_results_listbox (results_listbox a) a = a.
Proof. now destruct a. Qed.

Lemma world_eta (w : world) : set_self (self w) w = w.
Proof. now destruct w. Qed.

(** Showing rows changes the results list box and nothing else. *)
Lemma display_rows_world (items : list value) :
  forall w : world,
    exists o rows,
      display_rows items w
      = (o, set_self (with_results_listbox rows (self w)) w).
Proof.
  induction items as [|it items IH]; intros w.
  - exists (Next tt), (results_listbox (self w)).
    now rewrite app_eta, world_eta.
  - cbn [display_rows]. unfold_statements.
    destruct (py_get it "name" (VStr "(no name)")) as [e|name];
      [exists (Raise e), (results_listbox (self w));
       now rewrite app_eta, world_eta|].
    destruct (py_get it "country" (VStr "")) as [e|country];
      [exists (Raise e), (results_listbox (self w));
       now rewrite app_eta, world_eta|].
    destruct (py_get it "url_resolved" VNone) as [e|u1];
      [exists (Raise e), (results_listbox (self w));
       now rewrite app_eta, world_eta|].
    destruct (py_get it "url" VNone) as [e|u2];
      [exists (Raise e), (results_listbox (self w));
       now rewrite app_eta, world_eta|].
    match goal with
    | |- context [display_rows items ?x] =>
        destruct (IH x) as [o [rows Hrows]]; rewrite Hrows
    end.
    exists o, rows. destruct o; reflexivity.
Qed.

Lemma display_world (items : value) (w : world) :
  exists o rows,
    _display_search_results items w
    = (o, set_self (with_results_listbox rows (self w)) w).
Proof.
  unfold _display_search_results. unfold_statements.
  destruct (py_iter items) as [e|l].
  - exists (Exception e), []. reflexivity.
  - match goal with
    | |- context [display_rows l ?x] =>
        destruct (display_rows_world l x) as [o [rows Hrows]]; rewrite Hrows
    end.
    destruct o; eexists; exists rows; reflexivity.
Qed.

(** The rows shown for results that are all dicts. *)
Lemma display_rows_dicts (items : list value) :
  forallb is_dict items = true ->
  forall w : world,
    display_rows items w
    = (Next tt,
       set_self (with_results_listbox
                   (results_listbox (self w) ++ map row_of items) (self w)) w).
Proof.
  induction items as [|it items IH]; intros Hd w.
  - cbn. now rewrite List.app_nil_r, app_eta, world_eta.
  - cbn [forallb] in Hd. apply andb_prop in Hd. destruct Hd as [Hit Hd].
    destruct it as [| | | | |d]; try discriminate.
    cbn [display_rows]. unfold_statements. unfold py_get.
    assert (Hget : forall key default,
               match entries_get d key with
               | Some v => @inr exn value v
               | None => inr default
               end = inr (get_or d key default))
      by (intros key default; unfold get_or; now destruct (entries_get d key)).
    rewrite !Hget. rewrite (IH Hd). destruct w as [t net f dk e1 e2 so a].
    destruct a. world_simpl. cbn [map row_of]. unfold stream_url.
    now rewrite <- List.app_assoc.
Qed.

Lemma display_list_world (items : list value) (w : world) :
  forallb is_dict items = true ->
  _display_search_results (VList items) w
  = (Value tt, set_self (with_results_listbox (map row_of items) (self w)) w).
Proof.
  intros Hd. unfold _display_search_results. unfold_statements.
  cbn [py_iter]. rewrite (display_rows_dicts items Hd).
  destruct w as [t net f dk e1 e2 so a]. now destruct a.
Qed.

(** X4: [_display_search_results] on a list of dicts replaces the rows of
    the results list box by one row per result, in order: the name (or
    [(no name)]), the country (or the empty string) and the url, which is
    [url_resolved] when that is true, else [url], else the empty string.
    Nothing else changes. *)
Theorem display_search_results_rows (items : list value) (w : world) :
  forallb is_dict items = true ->
  _display_search_results (VList items) w
  = (Value tt, set_self (with_results_listbox (map row_of items) (self w)) w).
Proof. exact (display_list_world items w). Qed.

Lemma display_search_results_rows_witness :
  _display_search_results (VList [jazz_item; urlless_item])
                          (found_world [nameless_item])
  = (Value tt,
     set_self
       (with_results_listbox
          [mkRow (VStr "Jazz FM") (VStr "FR")
                 (VStr "http://jazz.example/stream.mp3");
           mkRow (VStr "Jazz FM") (VStr "FR") (VStr "")]
          (self (found_world [nameless_item])))
       (found_world [nameless_item])).
Proof.
  apply (display_search_results_rows [jazz_item; urlless_item]
           (found_world [nameless_item])).
  reflexivity.
Defined.

Lemma received_head (w : world) (query m : str) (rest : list str) :
  received w query (m :: rest) 0
  = match answer w (trace w) (search_request m query) with
    | Some v => v
    | None => VList []
    end.
Proof.
  unfold received, answer_of. cbn [firstn nth]. now rewrite asked_nil.
Qed.

Lemma received_tail (w : world) (query m : str) (rest : list str) (j : nat) :
  received w query (m :: rest) (S j)
  = received (emit (EvRequest (search_request m query)) w) query rest j.
Proof.
  unfold received, answer_of. cbn [firstn nth]. now rewrite asked_cons.
Qed.

(** The loop stops at the first mode whose answer is true. *)
Lemma search_modes_found {R : Type} (query : str) (p : nat) :
  forall (modes : list str) (w : world) (items : value),
    (p < List.length modes)%nat ->
    (forall j, (j < p)%nat ->
               value_truthy (received w query modes j) = false) ->
    value_truthy (received w query modes p) = true ->
    @search_modes R query modes items w
    = (Next (received w query modes p),
       extend (search_events query (firstn (S p) modes)) w).
Proof.
  induction p as [|p IH]; intros [|m rest] w items Hp Hbefore Hat;
    try (cbn [List.length] in Hp; lia).
  - rewrite search_modes_step. cbv zeta. rewrite <- (received_head w query m rest).
    rewrite Hat. reflexivity.
  - rewrite search_modes_step. cbv zeta. rewrite <- (received_head w query m rest).
    rewrite (Hbefore 0%nat) by lia.
    rewrite (IH rest).
    + rewrite received_tail, emit_as_extend, extend_extend. reflexivity.
    + cbn [List.length] in Hp. lia.
    + intros j Hj. rewrite <- received_tail. apply Hbefore. lia.
    + now rewrite <- received_tail.
Qed.

(** When no answer is true, the loop asks every mode and ends with what
    the last turn left. *)
Lemma search_modes_exhaust {R : Type} (query : str) (modes : list str) :
  forall (w : world) (items : value),
    (forall j, (j < List.length modes)%nat ->
               value_truthy (received w query modes j) = false) ->
    @search_modes R query modes items w
    = (Next match modes with
            | [] => items
            | _ => received w query modes (List.length modes - 1)
            end,
       extend (search_events query modes) w).
Proof.
  induction modes as [|m rest IH]; intros w items Hall.
  - cbn. now rewrite extend_nil.
  - rewrite search_modes_step. cbv zeta. rewrite <- (received_head w query m rest).
    rewrite (Hall 0%nat) by (cbn [List.length]; lia).
    rewrite IH.
    + rewrite emit_as_extend, extend_extend. f_equal. f_equal.
      destruct rest as [|m' rest']; [reflexivity|].
      replace (List.length (m :: m' :: rest') - 1)%nat
        with (S (List.length (m' :: rest') - 1))
        by (cbn [List.length]; lia).
      now rewrite received_tail, emit_as_extend.
    + intros j Hj. rewrite <- received_tail. apply Hall.
      cbn [List.length]. lia.
Qed.

(** Among the first [n] answers, one is the first that is true, or none
    is. *)
Lemma first_true_answer (w : world) (query : str) (modes : list str)
      (n : nat) :
  (exists p, (p < n)%nat
             /\ (forall j, (j < p)%nat ->
                           value_truthy (received w query modes j) = false)
             /\ value_truthy (received w query modes p) = true)
  \/ (forall j, (j < n)%nat ->
                value_truthy (received w query modes j) = false).
Proof.
  induction n as [|n [[p [Hp [Hbefore Hat]]] | Hnone]].
  - right. intros j Hj. lia.
  - left. exists p. split; [lia | now split].
  - destruct (value_truthy (received w query modes n)) eqn:Hn.
    + left. exists n. split; [lia | now split].
    + right. intros j Hj.
      destruct (Nat.eq_dec j n) as [-> | Hne]; [exact Hn|].
      apply Hnone. lia.
Qed.

Lemma modes_of_nonempty (mode : str) : modes_of mode <> [].
Proof. unfold modes_of. now destruct (String.eqb mode "Auto"). Qed.

(** What the loop gives, for modes that are not empty. *)
Lemma search_modes_answers {R : Type} (query : str) (modes : list str)
      (w : world) :
  modes <> [] ->
  exists items evs,
    @search_modes R query modes (VList []) w = (Next items, extend evs w)
    /\ search_answers w query modes items evs.
Proof.
  intros Hne.
  destruct (first_true_answer w query modes (List.length modes))
    as [[p [Hp [Hbefore Hat]]] | Hnone].
  - exists (received w query modes p),
           (search_events query (firstn (S p) modes)).
    split; [now apply search_modes_found|].
    split; [now exists (S p)|]. split.
    + intros p' Hp' Hbefore' Hat'.
      assert (p' = p) as ->; [|now split].
      destruct (Nat.lt_trichotomy p' p) as [Hlt | [Heq | Hgt]];
        [|exact Heq|].
      * rewrite (Hbefore p' Hlt) in Hat'. discriminate.
      * rewrite (Hbefore' p Hgt) in Hat. discriminate.
    + intros Hall. rewrite (Hall p Hp) in Hat. discriminate.
  - exists (received w query modes (List.length modes - 1)),
           (search_events query modes).
    split.
    + rewrite (search_modes_exhaust query modes w (VList []) Hnone).
      destruct modes; [now destruct Hne | reflexivity].
    + split; [|split].
      * exists (List.length modes). now rewrite firstn_all.
      * intros p Hp _ Hat. rewrite (Hnone p Hp) in Hat. discriminate.
      * intros _. now split.
Qed.

Lemma search_world (query mode : str) (w : world) :
  exists items evs,
    search query mode w = (Value items, extend evs w)
    /\ search_answers w query (modes_of mode) items evs.
Proof.
  destruct (@search_modes_answers value query (modes_of mode) w
              (modes_of_nonempty mode)) as [items [evs [Hrun Hans]]].
  exists items, evs. split; [|exact Hans].
  unfold search, def_, bind, try_except.
  fold (modes_of mode). now rewrite Hrun.
Qed.

Lemma search_thread_world (query mode : str) (w : world) :
  exists items rows evs,
    _search_thread query mode w
    = (Value tt, set_self (searched items rows (self w)) (extend evs w))
    /\ (forall l, items = VList l -> forallb is_dict l = true ->
                  rows = map row_of l)
    /\ search_answers w query (modes_of mode) items evs.
Proof.
  destruct (search_world query mode w) as [items [evs [Hk Hans]]].
  unfold _search_thread, after. unfold_statements. unfold try_except.
  rewrite Hk.
  match goal with
  | |- context [_display_search_results items ?x] =>
      destruct (display_world items x) as [o [rows Hrows]];
      pose proof (fun l => display_list_world l x) as Hlist
  end.
  exists items, rows, evs. split; [|split; [|exact Hans]].
  - rewrite Hrows. destruct w as [t net f dk e1 e2 so a]. destruct a.
    destruct o; reflexivity.
  - intros l -> Hd. rewrite (Hlist l Hd) in Hrows.
    destruct w as [t net f dk e1 e2 so a]. destruct a. world_simpl.
    unfold extend in Hrows. world_simpl. now inversion Hrows.
Qed.

Lemma strip_all_space (s : str) : all_space s = true -> strip s = "".
Proof.
  unfold strip. induction s as [|c s IH]; [reflexivity|].
  cbn [all_space lstrip]. intros H. apply andb_prop in H.
  destruct H as [Hc Hs]. rewrite Hc. now apply IH.
Qed.

(** The answers of the directory are the same for two worlds that differ
    in the application object only. *)
Lemma search_answers_self (a : RadioApp) (w : world) (query : str)
      (modes : list str) (items : value) (evs : list event) :
  search_answers (set_self a w) query modes items evs ->
  search_answers w query modes items evs.
Proof. intros H. exact H. Qed.

Lemma on_search_world (search_var mode : str) (w : world) :
  strip search_var <> "" ->
  exists items rows evs,
    on_search search_var mode w
    = (Value tt, set_self (searched items rows (self w)) (extend evs w))
    /\ (forall l, items = VList l -> forallb is_dict l = true ->
                  rows = map row_of l)
    /\ search_answers w (strip search_var) (modes_of mode) items evs.
Proof.
  intros Hq. unfold on_search, start_thread. unfold_statements.
  unfold try_except. rewrite (truthy_nonempty _ Hq). cbn [negb].
  match goal with
  | |- context [_search_thread ?q mode ?x] =>
      destruct (search_thread_world q mode x)
        as [items [rows [evs [Hrun [Hrows Hans]]]]]
  end.
  exists items, rows, evs. split; [|split; [exact Hrows|]].
  - rewrite Hrun. destruct w as [t net f dk e1 e2 so a]. now destruct a.
  - exact (search_answers_self _ w _ _ _ _ Hans).
Qed.

(** X5: a search with a query that is not blank runs to its end whatever
    the network does.  The query is sent stripped, to the modes in their
    order.  The value stored in [_search_results] is what the directory
    answered: the answer of the first mode whose answer is true, after
    which no further mode is asked, and, when no answer is true, what the
    last mode left after all have been asked (a failing request, status
    check or decoding counts as the empty list).  The rows are replaced
    (by one row per result when the results are dicts) and the search
    button is enabled again.  The search requests are the only events; the
    stations, the player, the stations list box, the status line and the
    stations file are left as they were. *)
Theorem on_search_effects (search_var mode : str) (w : world) :
  strip search_var <> "" ->
  exists items rows evs,
    on_search search_var mode w
    = (Value tt, set_self (searched items rows (self w)) (extend evs w))
    /\ (forall l, items = VList l -> forallb is_dict l = true ->
                  rows = map row_of l)
    /\ search_answers w (strip search_var) (modes_of mode) items evs.
Proof. exact (on_search_world search_var mode w). Qed.

Lemma on_search_effects_witness :
  on_search " jazz " "Auto" (world_of jazz_directory Absent)
  = (Value tt,
     set_self (searched (VList [jazz_item]) [row_of jazz_item]
                        (self (world_of jazz_directory Absent)))
              (extend [EvRequest (search_request "name" "jazz");
                       EvRequest (search_request "tag" "jazz")]
                      (world_of jazz_directory Absent))).
Proof.
  destruct (on_search_effects " jazz " "Auto" (world_of jazz_directory Absent))
    as [items [rows [evs [Hrun [Hrows [_ [Hfound _]]]]]]];
    [discriminate|].
  destruct (Hfound 1%nat) as [Hitems Hevs].
  - cbn. lia.
  - intros j Hj. assert (j = 0%nat) as -> by lia. reflexivity.
  - reflexivity.
  - rewrite Hrun. rewrite (Hrows [jazz_item]); [|exact Hitems|reflexivity].
    rewrite Hitems, Hevs. reflexivity.
Defined.

(** X6: a search whose query is empty or made of whitespace only shows the
    [Search] dialog and does nothing else: no request is sent and the
    search button stays enabled. *)
Theorem on_search_blank (search_var mode : str) (w : world) :
  all_space search_var = true ->
  on_search search_var mode w
  = (Value tt, emit (EvDialog showinfo "Search") w).
Proof.
  intros Hb. unfold on_search. unfold_statements.
  now rewrite (strip_all_space _ Hb).
Qed.

Lemma on_search_blank_witness :
  on_search "   " "Auto" (world_of jazz_directory Absent)
  = (Value tt,
     emit (EvDialog showinfo "Search") (world_of jazz_directory Absent)).
Proof.
  apply (on_search_blank "   " "Auto" (world_of jazz_directory Absent)).
  reflexivity.
Defined.

(** ** The player *)

(** [RadioPlayer.stop], also when libvlc raises. *)
Lemma RadioPlayer_stop_world (w : world) :
  RadioPlayer_stop w
  = (match vlc_stop_error w with
     | Some e => Exception e
     | None => Value tt
     end,
     set_self (with_player (mkPlayer VNone false) (self w)) (emit EvVlcStop w)).
Proof.
  destruct w as [t net f dk e1 e2 so a]. destruct a.
  unfold RadioPlayer_stop, try_finally, vlc_stop. unfold_statements.
  world_simpl. now destruct e1.
Qed.

(** X7: [RadioPlayer.stop] tells libvlc to stop, once, and leaves the
    player idle with no current url, also when libvlc raises; the
    exception of libvlc, if any, is the one that leaves [stop]. *)
Theorem RadioPlayer_stop_resets (w : world) :
  exists r w',
    RadioPlayer_stop w = (r, w')
    /\ player (self w') = mkPlayer VNone false
    /\ trace w' = (trace w ++ [EvVlcStop])%list
    /\ r = match vlc_stop_error w with
           | Some e => Exception e
           | None => Value tt
           end.
Proof.
  rewrite RadioPlayer_stop_world. eexists; eexists.
  split; [reflexivity|]. destruct w as [t net f dk e1 e2 so a]. now destruct a.
Qed.

Lemma RadioPlayer_play_world (url : value) (w : world) :
  exists p evs,
    RadioPlayer_play url w
    = (Value tt, set_self (with_player p (self w)) (extend evs w))
    /\ forallb is_vlc_event evs = true
    /\ (playing p = true ->
        current_url p = url /\ vlc_play_error w = None
        /\ exists before, evs = (before ++ [EvVlcPlay url])%list)
    /\ (playing p = false ->
        (idle_has_no_url (player (self w)) -> current_url p = VNone)
        /\ (vlc_play_error w = None ->
            playing (player (self w)) = true
            /\ vlc_stop_error w <> None /\ evs = [EvVlcStop]))
    /\ (playing (player (self w)) = true ->
        exists rest, evs = EvVlcStop :: rest).
Proof.
  destruct w as [t net f dk e1 e2 so a].
  destruct a as [sts pl sr lb rlb sv b1 b2 ps]. destruct pl as [cur on].
  unfold RadioPlayer_play, try_except. unfold_statements. world_simpl.
  destruct on.
  - rewrite RadioPlayer_stop_world. unfold vlc_play.
    destruct e1 as [e1|]; [|destruct e2 as [e2|]];
      world_norm.
    + exists (mkPlayer VNone false), [EvVlcStop].
      repeat split; try discriminate. now exists [].
    + exists (mkPlayer VNone false), [EvVlcStop; EvVlcPlay url].
      world_norm. rewrite <- List.app_assoc.
      repeat split; try discriminate. now eexists.
    + exists (mkPlayer url true), [EvVlcStop; EvVlcPlay url].
      world_norm. rewrite <- List.app_assoc.
      repeat split; try discriminate.
      * now exists [EvVlcStop].
      * now eexists.
  - unfold vlc_play. destruct e2 as [e2|]; world_norm.
    + exists (mkPlayer cur false), [EvVlcPlay url].
      unfold idle_has_no_url. world_norm.
      repeat split; try discriminate. intros Hidle. now apply Hidle.
    + exists (mkPlayer url true), [EvVlcPlay url].
      world_norm.
      repeat split; try discriminate. now exists [].
Qed.

(** X8: [RadioPlayer.play] never raises and touches nothing but the player
    and libvlc.  The player ends playing exactly when libvlc took the
    stream, and then [current_url] is the url and the play request is the
    last event.  A player that was playing is stopped first.  When the
    play fails the player is idle, and it holds no url if an idle player
    held none before. *)
Theorem RadioPlayer_play_outcome (url : value) (w : world) :
  exists p evs,
    RadioPlayer_play url w
    = (Value tt, set_self (with_player p (self w)) (extend evs w))
    /\ forallb is_vlc_event evs = true
    /\ (playing p = true ->
        current_url p = url /\ vlc_play_error w = None
        /\ exists before, evs = (before ++ [EvVlcPlay url])%list)
    /\ (playing p = false ->
        (idle_has_no_url (player (self w)) -> current_url p = VNone)
        /\ (vlc_play_error w = None ->
            playing (player (self w)) = true
            /\ vlc_stop_error w <> None /\ evs = [EvVlcStop]))
    /\ (playing (player (self w)) = true ->
        exists rest, evs = EvVlcStop :: rest).
Proof. exact (RadioPlayer_play_world url w). Qed.

Lemma py_get_value (d : list (str * value)) (key : str) (default : value) :
  py_get (VDict d) key default = inr (get_or d key default).
Proof. unfold py_get, get_or. now destruct (entries_get d key). Qed.

Lemma on_play_world (w : world) (idx : nat) (l : list value)
      (d : list (str * value)) :
  stations (self w) = VList l ->
  nth_error l idx = Some (VDict d) ->
  value_truthy (get_or d "url" VNone) = true ->
  exists p evs,
    on_play (Some idx) w
    = (Value tt,
       set_self (with_status (if playing p then "Playing" else "Stopped")
                             (with_player p (self w)))
                (extend evs w))
    /\ forallb is_vlc_event evs = true
    /\ (playing p = true ->
        current_url p = get_or d "url" VNone /\ vlc_play_error w = None)
    /\ (playing p = false ->
        idle_has_no_url (player (self w)) -> current_url p = VNone).
Proof.
  intros Hst Hnth Hurl.
  destruct w as [t net f dk e1 e2 so a].
  destruct a as [sts pl sr lb rlb sv b1 b2 ps]. world_simpl. subst sts.
  unfold on_play, start_thread, after, try_except. unfold_statements.
  world_simpl. unfold py_getitem. rewrite Hnth, py_get_value, Hurl.
  cbn [negb].
  match goal with
  | |- context [RadioPlayer_play ?u ?x] =>
      destruct (RadioPlayer_play_world u x)
        as [p [evs [Hrun [Hevs [Hon [Hoff _]]]]]]
  end.
  world_simpl. exists p, evs. rewrite Hrun. world_norm.
  repeat split.
  - exact Hevs.
  - now apply Hon.
  - now apply Hon.
  - intros Hp Hidle. now apply Hoff.
Qed.

(** X9: [on_play] on a station that has a url always returns, touching
    only the player, libvlc and the status line.  The status ends as
    [Playing] when the player plays and as [Stopped] otherwise; when it
    plays, the current url is the url of the selected station. *)
Theorem on_play_outcome (w : world) (idx : nat) (l : list value)
        (d : list (str * value)) :
  stations (self w) = VList l ->
  nth_error l idx = Some (VDict d) ->
  value_truthy (get_or d "url" VNone) = true ->
  exists p evs,
    on_play (Some idx) w
    = (Value tt,
       set_self (with_status (if playing p then "Playing" else "Stopped")
                             (with_player p (self w)))
                (extend evs w))
    /\ forallb is_vlc_event evs = true
    /\ (playing p = true ->
        current_url p = get_or d "url" VNone /\ vlc_play_error w = None)
    /\ (playing p = false ->
        idle_has_no_url (player (self w)) -> current_url p = VNone).
Proof. exact (on_play_world w idx l d). Qed.

Lemma on_play_outcome_witness :
  exists p evs,
    on_play (Some 1%nat) playing_world
    = (Value tt,
       set_self (with_status (if playing p then "Playing" else "Stopped")
                             (with_player p (self playing_world)))
                (extend evs playing_world))
    /\ forallb is_vlc_event evs = true
    /\ (playing p = true ->
        current_url p = VStr "http://news.example/live"
        /\ vlc_play_error playing_world = None)
    /\ (playing p = false ->
        idle_has_no_url (player (self playing_world)) ->
        current_url p = VNone).
Proof.
  apply (on_play_outcome playing_world 1 [jazz_station; news_station]
           [("name", VStr "News"); ("info", VStr "talk");
            ("url", VStr "http://news.example/live")]);
    reflexivity.
Defined.

(** X10: [on_play] on a station whose url is missing, [None] or empty
    shows the [No URL] dialog and does nothing else: libvlc is not called
    and the player and the status line are left as they were. *)
Theorem on_play_without_url (w : world) (idx : nat) (l : list value)
        (d : list (str * value)) :
  stations (self w) = VList l ->
  nth_error l idx = Some (VDict d) ->
  value_truthy (get_or d "url" VNone) = false ->
  on_play (Some idx) w = (Value tt, emit (EvDialog showinfo "No URL") w).
Proof.
  intros Hst Hnth Hurl.
  destruct w as [t net f dk e1 e2 so a].
  destruct a as [sts pl sr lb rlb sv b1 b2 ps]. world_simpl. subst sts.
  unfold on_play. unfold_statements. world_simpl.
  unfold py_getitem. now rewrite Hnth, py_get_value, Hurl.
Qed.

Lemma on_play_without_url_witness :
  on_play (Some 0%nat) (stations_world [mute_station])
  = (Value tt,
     emit (EvDialog showinfo "No URL") (stations_world [mute_station])).
Proof.
  apply (on_play_without_url (stations_world [mute_station]) 0
           [mute_station] [("name", VStr "Mute")]);
    reflexivity.
Defined.

(** X11: [on_stop] always leaves the player idle with no current url.
    When libvlc stops, the status line becomes [Stopped]; when libvlc
    raises, the exception leaves [on_stop] and the status line keeps the
    text it had. *)
Theorem on_stop_outcome (w : world) :
  exists r w',
    on_stop w = (r, w')
    /\ player (self w') = mkPlayer VNone false
    /\ trace w' = (trace w ++ [EvVlcStop])%list
    /\ (vlc_stop_error w = None ->
        r = Value tt /\ status_var (self w') = "Stopped")
    /\ (forall e, vlc_stop_error w = Some e ->
                  r = Exception e
                  /\ status_var (self w') = status_var (self w)).
Proof.
  unfold on_stop. unfold_statements. rewrite RadioPlayer_stop_world.
  destruct w as [t net f dk e1 e2 so a]. destruct a. world_simpl.
  destruct e1 as [e1|]; eexists; eexists; (split; [reflexivity|]);
    world_simpl; repeat split; try discriminate; congruence.
Qed.

(** ** Deleting and editing stations *)

(** X12: when the user declines the confirmation, [on_delete] changes
    nothing: the confirmation dialog is the only event. *)
Theorem on_delete_declined (w : world) (i : nat) (l : list value)
        (d : list (str * value)) :
  stations (self w) = VList l ->
  nth_error l i = Some (VDict d) ->
  on_delete (Some i) false w
  = (Value tt, emit (EvDialog askyesno "Delete") w).
Proof.
  intros Hst Hnth.
  destruct w as [t net f dk e1 e2 so a].
  destruct a as [sts pl sr lb rlb sv b1 b2 ps]. world_simpl. subst sts.
  unfold on_delete. unfold_statements. world_simpl.
  unfold py_getitem. now rewrite Hnth, py_get_value.
Qed.

Lemma on_delete_declined_witness :
  on_delete (Some 0%nat) false playing_world
  = (Value tt, emit (EvDialog askyesno "Delete") playing_world).
Proof.
  apply (on_delete_declined playing_world 0 [jazz_station; news_station]
           [("name", VStr "Jazz FM"); ("info", VStr "jazz");
            ("url", VStr "http://jazz.example/stream.mp3")]);
    reflexivity.
Defined.

(** X13: when the station to delete is the current one and libvlc fails
    to stop, the exception leaves [on_delete] before anything is removed:
    the stations, the list box, the status line and the stations file are
    as they were, nothing is saved, and the player is idle. *)
Theorem on_delete_stop_fails (w : world) (i : nat) (l : list value)
        (d : list (str * value)) (e : exn) :
  stations (self w) = VList l ->
  nth_error l i = Some (VDict d) ->
  py_eq (current_url (player (self w))) (get_or d "url" VNone) = true ->
  vlc_stop_error w = Some e ->
  on_delete (Some i) true w
  = (Exception e,
     set_self (with_player (mkPlayer VNone false) (self w))
              (extend [EvDialog askyesno "Delete"; EvVlcStop] w)).
Proof.
  intros Hst Hnth Hcur Hstop.
  destruct w as [t net f dk e1 e2 so a].
  destruct a as [sts pl sr lb rlb sv b1 b2 ps]. world_simpl. subst sts e1.
  unfold on_delete. unfold_statements. world_simpl.
  unfold py_getitem. rewrite Hnth, !py_get_value. world_simpl.
  rewrite Hnth, py_get_value, Hcur, RadioPlayer_stop_world.
  world_norm. now rewrite <- List.app_assoc.
Qed.

Lemma on_delete_stop_fails_witness :
  on_delete (Some 0%nat) true stuck_world
  = (Exception VLCError,
     set_self (with_player (mkPlayer VNone false) (self stuck_world))
              (extend [EvDialog askyesno "Delete"; EvVlcStop] stuck_world)).
Proof.
  apply (on_delete_stop_fails stuck_world 0 [jazz_station; news_station]
           [("name", VStr "Jazz FM"); ("info", VStr "jazz");
            ("url", VStr "http://jazz.example/stream.mp3")] VLCError);
    reflexivity.
Defined.

Lemma firstn_without {A : Type} (i : nat) (l : list A) :
  (i < List.length l)%nat -> firstn i (without i l) = firstn i l.
Proof.
  intros Hi. unfold without.
  rewrite firstn_app, firstn_firstn, Nat.min_id, firstn_length_le by lia.
  now rewrite Nat.sub_diag, List.app_nil_r.
Qed.

Lemma skipn_without {A : Type} (i : nat) (l : list A) :
  (i < List.length l)%nat -> skipn i (without i l) = skipn (S i) l.
Proof.
  intros Hi. unfold without.
  rewrite skipn_app, firstn_length_le by lia.
  rewrite Nat.sub_diag. cbn [skipn].
  rewrite skipn_all2; [reflexivity|]. rewrite firstn_length_le; lia.
Qed.

Lemma map_replaced {A B : Type} (f : A -> B) (i : nat) (x : A) (l : list A) :
  map f (replaced i x l) = replaced i (f x) (map f l).
Proof.
  unfold replaced. now rewrite map_app, firstn_map, map_cons, skipn_map.
Qed.

Lemma map_without {A B : Type} (f : A -> B) (i : nat) (l : list A) :
  map f (without i l) = without i (map f l).
Proof. unfold without. now rewrite map_app, firstn_map, skipn_map. Qed.

Lemma on_ok_edit_world (w : world) (i : nat) (l : list value)
      (name_var info_var url_var : str) :
  stations (self w) = VList l ->
  (i < List.length l)%nat ->
  listbox (self w) = map label_of l ->
  strip name_var <> "" ->
  strip url_var <> "" ->
  on_ok (Some i) name_var info_var url_var w
  = (Value tt,
     saved_world
       (VList (replaced i (station (strip name_var) (strip info_var)
                                   (strip url_var)) l))
       (map label_of
            (replaced i (station (strip name_var) (strip info_var)
                                 (strip url_var)) l))
       [EvListboxDelete i;
        EvListboxInsert i (mkLabel (VStr (strip name_var))
                                   (VStr (strip info_var)))]
       w).
Proof.
  intros Hst Hi Hlb Hname Hurl.
  destruct w as [t net f dk e1 e2 so a].
  destruct a as [sts pl sr lb rlb sv b1 b2 ps]. world_simpl. subst sts lb.
  unfold on_ok. unfold_statements.
  rewrite (truthy_nonempty _ Hname), (truthy_nonempty _ Hurl).
  cbn [negb orb]. world_simpl. unfold py_setitem.
  apply Nat.ltb_lt in Hi. rewrite Hi. apply Nat.ltb_lt in Hi.
  world_simpl. rewrite save_stations_spec. world_simpl.
  unfold saved_world. world_simpl.
  fold (without i (map label_of l)).
  rewrite firstn_without, skipn_without by now rewrite length_map.
  rewrite map_replaced. unfold replaced. cbn [dict_set String.eqb Ascii.eqb Bool.eqb].
  unfold station. cbn [label_of get_or entries_get String.eqb Ascii.eqb Bool.eqb].
  now rewrite <- !List.app_assoc.
Qed.

(** X14: editing the station at a valid position, with a name and a url
    that are not blank, replaces that record and its row in place, every
    other station and row keeping its position, and saves the stations.
    The player is not told anything, also when the edited station is the
    one that plays. *)
Theorem on_ok_edit (w : world) (i : nat) (l : list value)
        (name_var info_var url_var : str) :
  stations (self w) = VList l ->
  (i < List.length l)%nat ->
  listbox (self w) = map label_of l ->
  strip name_var <> "" ->
  strip url_var <> "" ->
  on_ok (Some i) name_var info_var url_var w
  = (Value tt,
     saved_world
       (VList (replaced i (station (strip name_var) (strip info_var)
                                   (strip url_var)) l))
       (map label_of
            (replaced i (station (strip name_var) (strip info_var)
                                 (strip url_var)) l))
       [EvListboxDelete i;
        EvListboxInsert i (mkLabel (VStr (strip name_var))
                                   (VStr (strip info_var)))]
       w).
Proof. exact (on_ok_edit_world w i l name_var info_var url_var). Qed.

Lemma on_ok_edit_witness :
  on_ok (Some 0%nat) " Jazz 24 " "" "http://jazz.example/24" playing_world
  = (Value tt,
     saved_world
       (VList [station "Jazz 24" "" "http://jazz.example/24"; news_station])
       [mkLabel (VStr "Jazz 24") (VStr ""); mkLabel (VStr "News") (VStr "talk")]
       [EvListboxDelete 0;
        EvListboxInsert 0 (mkLabel (VStr "Jazz 24") (VStr ""))]
       playing_world).
Proof.
  apply (on_ok_edit playing_world 0 [jazz_station; news_station]
           " Jazz 24 " "" "http://jazz.example/24");
    try reflexivity; try discriminate.
  cbn. lia.
Defined.

(** X15: the editor's OK for a position that no longer exists (the
    stations were deleted while the editor was open) raises [IndexError]
    and changes nothing: the list box is not touched and nothing is
    saved. *)
Theorem on_ok_stale_index (w : world) (i : nat) (l : list value)
        (name_var info_var url_var : str) :
  stations (self w) = VList l ->
  (List.length l <= i)%nat ->
  strip name_var <> "" ->
  strip url_var <> "" ->
  on_ok (Some i) name_var info_var url_var w = (Exception IndexError, w).
Proof.
  intros Hst Hi Hname Hurl.
  destruct w as [t net f dk e1 e2 so a].
  destruct a as [sts pl sr lb rlb sv b1 b2 ps]. world_simpl. subst sts.
  unfold on_ok. unfold_statements.
  rewrite (truthy_nonempty _ Hname), (truthy_nonempty _ Hurl).
  cbn [negb orb]. world_simpl. unfold py_setitem.
  apply Nat.ltb_ge in Hi. now rewrite Hi.
Qed.

Lemma on_ok_stale_index_witness :
  on_ok (Some 2%nat) "Jazz 24" "" "http://jazz.example/24" playing_world
  = (Exception IndexError, playing_world).
Proof.
  apply (on_ok_stale_index playing_world 2 [jazz_station; news_station]
           "Jazz 24" "" "http://jazz.example/24");
    try reflexivity; discriminate.
Defined.

(** ** Saving *)

(** X16: [on_save] reports success whatever happened: when the stations
    file cannot be opened or written, the [Save error] dialog is followed
    by the [Saved] dialog.  The application object is left as it was. *)
Theorem on_save_after_failure (w : world) :
  disk w <> NoFault ->
  exists w' before,
    on_save w = (Value tt, w')
    /\ self w' = self w
    /\ trace w'
       = (before ++ [EvDialog showerror "Save error";
                     EvDialog showinfo "Saved"])%list.
Proof.
  intros Hdisk. unfold on_save. unfold_statements.
  rewrite save_stations_spec.
  destruct w as [t net f dk e1 e2 so a]. world_simpl.
  destruct dk as [|e|e n]; [congruence| |]; cbn [save_events].
  - eexists. exists (t ++ [EvOpenForWrite])%list.
    split; [reflexivity|]. world_simpl. split; [reflexivity|].
    now rewrite <- !List.app_assoc.
  - eexists.
    exists (t ++ [EvOpenForWrite; EvWrite (json_dumps (stations a))])%list.
    split; [reflexivity|]. world_simpl. split; [reflexivity|].
    now rewrite <- !List.app_assoc.
Qed.

Lemma on_save_after_failure_witness :
  exists w' before,
    on_save (read_only_world [jazz_station]) = (Value tt, w')
    /\ self w' = self (read_only_world [jazz_station])
    /\ trace w'
       = (before ++ [EvDialog showerror "Save error";
                     EvDialog showinfo "Saved"])%list.
Proof.
  apply (on_save_after_failure (read_only_world [jazz_station])).
  discriminate.
Defined.

(** X17: an Add is not rolled back when the save fails.  When the
    stations file cannot be opened for writing, the new record is in the
    stations and in the list box, the [Save error] dialog is shown, the
    file keeps its old content, and a reload returns what it returned
    before the Add. *)
Theorem add_not_rolled_back
        (w : world) (l : list value) (name_var info_var url_var : str)
        (e : exn) :
  stations (self w) = VList l ->
  strip name_var <> "" ->
  strip url_var <> "" ->
  disk w = OpenFails e ->
  exists w',
    on_ok None name_var info_var url_var w = (Value tt, w')
    /\ stations (self w')
       = VList (l ++ [station (strip name_var) (strip info_var)
                              (strip url_var)])
    /\ listbox (self w')
       = (listbox (self w)
          ++ [mkLabel (VStr (strip name_var)) (VStr (strip info_var))])%list
    /\ trace w'
       = (trace w
          ++ [EvListboxInsert (List.length (listbox (self w)))
                              (mkLabel (VStr (strip name_var))
                                       (VStr (strip info_var)));
              EvOpenForWrite; EvDialog showerror "Save error"])%list
    /\ stations_file w' = stations_file w
    /\ fst (load_stations w') = fst (load_stations w).
Proof.
  intros Hst Hname Hurl Hdisk.
  destruct w as [t net f dk e1 e2 so a].
  destruct a as [sts pl sr lb rlb sv b1 b2 ps]. world_simpl. subst sts dk.
  unfold on_ok. unfold_statements.
  rewrite (truthy_nonempty _ Hname), (truthy_nonempty _ Hurl).
  cbn [negb orb]. world_simpl. unfold py_append.
  rewrite save_stations_spec. world_simpl. cbn [save_events saved_file].
  eexists. split; [reflexivity|]. world_simpl.
  rewrite !load_stations_value. world_simpl.
  rewrite <- !List.app_assoc. repeat split.
Qed.

Lemma add_not_rolled_back_witness :
  exists w',
    on_ok None "News" "talk" "http://news.example/live"
          (read_only_world [jazz_station])
    = (Value tt, w')
    /\ stations (self w') = VList [jazz_station; news_station]
    /\ stations_file w' = Text (json_dumps (VList [jazz_station]))
    /\ fst (load_stations w') = Value (VList [jazz_station]).
Proof.
  destruct (add_not_rolled_back (read_only_world [jazz_station])
              [jazz_station] "News" "talk" "http://news.example/live"
              OSError)
    as [w' [Hrun [Hst [_ [_ [Hfile Hload]]]]]].
  - reflexivity.
  - discriminate.
  - discriminate.
  - reflexivity.
  - exists w'. split; [exact Hrun|]. split; [exact Hst|].
    split; [exact Hfile|]. rewrite Hload. reflexivity.
Defined.

(** X18: the editor's OK refuses a name or a url that is empty or made of
    whitespace only, for Add as for Edit: the [Validation] dialog is the
    only event, nothing is stored and nothing is saved. *)
Theorem on_ok_rejects_blank
        (index : option nat) (name_var info_var url_var : str) (w : world) :
  all_space name_var = true \/ all_space url_var = true ->
  on_ok index name_var info_var url_var w
  = (Value tt, emit (EvDialog showinfo "Validation") w).
Proof.
  intros H. unfold on_ok. unfold_statements.
  destruct H as [H | H]; rewrite (strip_all_space _ H); [reflexivity|].
  now destruct (strip name_var).
Qed.

Lemma on_ok_rejects_blank_witness :
  on_ok (Some 0%nat) "Jazz FM" "jazz" "   " playing_world
  = (Value tt, emit (EvDialog showinfo "Validation") playing_world).
Proof.
  apply (on_ok_rejects_blank (Some 0%nat) "Jazz FM" "jazz" "   "
           playing_world).
  right. reflexivity.
Defined.

(** ** Adding a search result *)

Lemma resolve_object_world (url : value) (w : world) :
  resolve_playlist_object url 5 w
  = (Value (resolved_object w url), extend (resolution_events w url) w).
Proof.
  destruct url; cbn [resolve_playlist_object resolved_object resolution_events];
    try now rewrite extend_nil.
  now rewrite resolve_playlist_world.
Qed.

Lemma resolve_events_network (w : world) (url : str) (timeout : Z) :
  forallb is_network_event (resolve_events w url timeout) = true.
Proof. resolve_cases w url timeout; reflexivity. Qed.

Lemma resolution_events_network (w : world) (url : value) :
  forallb is_network_event (resolution_events w url) = true.
Proof.
  destruct url; try reflexivity. apply resolve_events_network.
Qed.

Lemma on_add_search_world (w : world) (idx : nat) (items l : list value)
      (d : list (str * value)) :
  _search_results (self w) = VList items ->
  nth_error items idx = Some (VDict d) ->
  stations (self w) = VList l ->
  (forall objs, In objs (debug_lines w d) -> stdout_error w objs = None) ->
  on_add_search (Some idx) w
  = (Value tt,
     set_self
       (with_add_search_btn true
          (with_prev_status (status_var (self w))
             (with_listbox
                (listbox (self w)
                 ++ [mkLabel (get_or d "name" (VStr "(no name)"))
                             (get_or d "tags" (VStr ""))])
                (with_stations (VList (l ++ [entry_of w d])) (self w)))))
       (mkWorld
          (trace w ++ resolution_events w (stream_url d)
           ++ [EvListboxInsert (List.length (listbox (self w)))
                               (mkLabel (get_or d "name" (VStr "(no name)"))
                                        (get_or d "tags" (VStr "")))]
           ++ save_events (disk w) (json_dumps (VList (l ++ [entry_of w d])))
           ++ [EvDialog showinfo "Added"])
          (network w)
          (saved_file (disk w) (stations_file w)
                      (json_dumps (VList (l ++ [entry_of w d]))))
          (disk w) (vlc_stop_error w) (vlc_play_error w) (stdout_error w)
          (self w))).
Proof.
  intros Hsr Hnth Hst Hprints.
  assert (H1 := Hprints _ (or_introl eq_refl)).
  assert (H2 := Hprints _ (or_intror (or_introl eq_refl))).
  assert (H3 := Hprints _ (or_intror (or_intror (or_introl eq_refl)))).
  clear Hprints.
  destruct w as [t net f dk e1 e2 so a].
  destruct a as [sts pl sr lb rlb sv b1 b2 ps]. world_simpl. subst sts sr.
  unfold on_add_search, on_add_search_begin, start_thread,
    _add_search_thread, after, _finish, try_except, try_finally.
  unfold_statements. world_simpl.
  unfold py_getitem. rewrite Hnth, !py_get_value. fold (stream_url d).
  unfold try_except. world_simpl. rewrite H1.
  rewrite resolve_object_world. world_norm.
  unfold entry_of, resolved_object, resolved_url, sniffed_response, probe,
    resolution_events, resolve_events, after_probe_events, sniff_events in *.
  world_norm. rewrite H2.
  rewrite ?py_get_value. cbn [dict_set String.eqb Ascii.eqb Bool.eqb].
  cbn [py_get get_or py_append py_getitem_key entries_get
       String.eqb Ascii.eqb Bool.eqb].
  rewrite H3. world_norm.
  cbn [py_append py_getitem_key entries_get String.eqb Ascii.eqb Bool.eqb].
  world_norm.
  rewrite save_stations_spec. world_norm.
  now rewrite <- !List.app_assoc.
Qed.

(** X19: adding a search result whose debug lines pass the standard
    output always returns and appends one record, whatever the result
    holds: its name (or [(no name)] when it has none), its tags as info
    (or the empty string) and the url that [resolve_playlist] returns for
    [url_resolved], or for [url] when [url_resolved] is not true.  The row
    is appended to the list box, the save is run (with the outcome that
    the disk and the file's encoder decide), the [Added] dialog is shown,
    the status line gets its former text back and the add button is
    enabled again.  Apart from the requests of the resolution nothing
    else happens; the player is not touched.  No field is validated. *)
Theorem on_add_search_appends (w : world) (idx : nat) (items l : list value)
        (d : list (str * value)) :
  _search_results (self w) = VList items ->
  nth_error items idx = Some (VDict d) ->
  stations (self w) = VList l ->
  (forall objs, In objs (debug_lines w d) -> stdout_error w objs = None) ->
  exists w' evs,
    on_add_search (Some idx) w = (Value tt, w')
    /\ stations (self w') = VList (l ++ [entry_of w d])
    /\ listbox (self w')
       = (listbox (self w) ++ [label_of (entry_of w d)])%list
    /\ status_var (self w') = status_var (self w)
    /\ add_search_btn_enabled (self w') = true
    /\ player (self w') = player (self w)
    /\ forallb is_network_event evs = true
    /\ trace w'
       = (trace w ++ evs
          ++ [EvListboxInsert (List.length (listbox (self w)))
                              (label_of (entry_of w d))]
          ++ save_events (disk w) (json_dumps (VList (l ++ [entry_of w d])))
          ++ [EvDialog showinfo "Added"])%list
    /\ stations_file w'
       = saved_file (disk w) (stations_file w)
                    (json_dumps (VList (l ++ [entry_of w d]))).
Proof.
  intros Hsr Hnth Hst Hprints.
  rewrite (on_add_search_world w idx items l d Hsr Hnth Hst Hprints).
  eexists. exists (resolution_events w (stream_url d)).
  split; [reflexivity|].
  destruct w as [t net f dk e1 e2 so a]. destruct a. world_norm.
  repeat split. apply resolution_events_network.
Qed.

Lemma on_add_search_appends_witness :
  exists w' evs,
    on_add_search (Some 0%nat) (found_world [jazz_item]) = (Value tt, w')
    /\ stations (self w')
       = VList [station "Jazz FM" "jazz" "http://jazz.example/stream.mp3"]
    /\ status_var (self w') = "Stopped"
    /\ add_search_btn_enabled (self w') = true
    /\ forallb is_network_event evs = true.
Proof.
  destruct (on_add_search_appends (found_world [jazz_item]) 0 [jazz_item] []
              [("name", VStr "Jazz FM"); ("country", VStr "FR");
               ("tags", VStr "jazz");
               ("url", VStr "http://jazz.example/listen.pls");
               ("url_resolved", VStr "http://jazz.example/stream.mp3")])
    as [w' [evs [Hrun [Hst [_ [Hstatus [Hbtn [_ [Hevs _]]]]]]]]].
  - reflexivity.
  - reflexivity.
  - reflexivity.
  - reflexivity.
  - exists w', evs. split; [exact Hrun|]. split; [exact Hst|].
    split; [exact Hstatus|]. split; [exact Hbtn | exact Hevs].
Defined.

(** The thread of an add from a search result when the debug lines pass
    the standard output, in any world: the record is appended and saved,
    and the status line gets the text that was kept aside. *)
Lemma add_search_thread_world (w : world) (l : list value)
      (d : list (str * value)) :
  stations (self w) = VList l ->
  (forall objs, In objs (debug_lines w d) -> stdout_error w objs = None) ->
  exists w',
    _add_search_thread (VDict d) (stream_url d) w = (Value tt, w')
    /\ stations (self w') = VList (l ++ [entry_of w d])
    /\ listbox (self w')
       = (listbox (self w) ++ [label_of (entry_of w d)])%list
    /\ status_var (self w') = _add_search_prev_status (self w)
    /\ add_search_btn_enabled (self w') = true
    /\ player (self w') = player (self w)
    /\ stations_file w'
       = saved_file (disk w) (stations_file w)
                    (json_dumps (VList (l ++ [entry_of w d]))).
Proof.
  intros Hst Hprints.
  assert (H1 := Hprints _ (or_introl eq_refl)).
  assert (H2 := Hprints _ (or_intror (or_introl eq_refl))).
  assert (H3 := Hprints _ (or_intror (or_intror (or_introl eq_refl)))).
  clear Hprints.
  destruct w as [t net f dk e1 e2 so a].
  destruct a as [sts pl sr lb rlb sv b1 b2 ps]. world_simpl. subst sts.
  unfold _add_search_thread, after, _finish, try_except, try_finally.
  unfold_statements. world_simpl. rewrite H1.
  rewrite resolve_object_world. world_norm.
  unfold entry_of, resolved_object, resolved_url, sniffed_response, probe,
    resolution_events, resolve_events, after_probe_events, sniff_events in *.
  world_norm. rewrite H2.
  rewrite ?py_get_value. cbn [dict_set String.eqb Ascii.eqb Bool.eqb].
  cbn [py_get get_or py_append py_getitem_key entries_get
       String.eqb Ascii.eqb Bool.eqb].
  rewrite H3. world_norm.
  cbn [py_append py_getitem_key entries_get String.eqb Ascii.eqb Bool.eqb].
  world_norm.
  rewrite save_stations_spec. world_norm.
  eexists. split; [reflexivity|]. world_norm.
  cbn [label_of get_or entries_get String.eqb Ascii.eqb Bool.eqb].
  repeat split.
Qed.

(** X24: the status line can end up saying [Playing] while the player is
    idle.  [on_add_search] keeps the text of the status line aside before
    it starts its thread, and the thread's [_finish] puts that text back.
    When Stop is pressed in between (the resolution of the url can take
    seconds), the player becomes idle and the status line [Stopped]; then
    the thread ends, the record is added, and the status line shows again
    the text it had when the add was started. *)
Theorem stop_during_add_search (w : world) (idx : nat) (items l : list value)
        (d : list (str * value)) :
  _search_results (self w) = VList items ->
  nth_error items idx = Some (VDict d) ->
  stations (self w) = VList l ->
  vlc_stop_error w = None ->
  (forall objs,
      In objs (debug_lines (emit EvVlcStop w) d) ->
      stdout_error w objs = None) ->
  exists w1 w2 w3,
    on_add_search_clicked (Some idx) w
    = (Value (Some (VDict d, stream_url d)), w1)
    /\ on_stop w1 = (Value tt, w2)
    /\ status_var (self w2) = "Stopped"
    /\ _add_search_thread (VDict d) (stream_url d) w2 = (Value tt, w3)
    /\ status_var (self w3) = status_var (self w)
    /\ player (self w3) = mkPlayer VNone false
    /\ stations (self w3) = VList (l ++ [entry_of (emit EvVlcStop w) d]).
Proof.
  intros Hsr Hnth Hst Hstop Hprints.
  destruct w as [t net f dk e1 e2 so a].
  destruct a as [sts pl sr lb rlb sv b1 b2 ps]. world_simpl.
  subst sts sr e1.
  set (a1 := resolving (mkApp (VList l) pl (VList items) lb rlb sv b1 b2 ps)).
  set (w1 := mkWorld t net f dk None e2 so a1).
  set (w2 := set_self (with_status "Stopped"
                         (with_player (mkPlayer VNone false) a1))
                      (emit EvVlcStop w1)).
  destruct (add_search_thread_world w2 l d eq_refl) as [w3 [Hrun H3]].
  { intros objs Hin. apply Hprints. exact Hin. }
  exists w1, w2, w3. split; [|split; [|split; [reflexivity|]]].
  - unfold on_add_search_clicked, on_add_search_begin, def_, try_except.
    unfold_statements. world_simpl. unfold py_getitem.
    rewrite Hnth, !py_get_value. reflexivity.
  - unfold on_stop. unfold_statements. rewrite RadioPlayer_stop_world.
    reflexivity.
  - split; [exact Hrun|].
    destruct H3 as [Hst3 [_ [Hstatus [_ [Hplayer _]]]]].
    split; [exact Hstatus|]. split; [exact Hplayer | exact Hst3].
Qed.

Lemma stop_during_add_search_witness :
  exists w1 w2 w3,
    on_add_search_clicked (Some 0%nat) playing_found_world
    = (Value (Some (jazz_item, VStr "http://jazz.example/stream.mp3")), w1)
    /\ on_stop w1 = (Value tt, w2)
    /\ _add_search_thread jazz_item (VStr "http://jazz.example/stream.mp3") w2
       = (Value tt, w3)
    /\ status_var (self w3) = "Playing"
    /\ player (self w3) = mkPlayer VNone false.
Proof.
  destruct (stop_during_add_search playing_found_world 0 [jazz_item]
              [jazz_station; news_station]
              [("name", VStr "Jazz FM"); ("country", VStr "FR");
               ("tags", VStr "jazz");
               ("url", VStr "http://jazz.example/listen.pls");
               ("url_resolved", VStr "http://jazz.example/stream.mp3")])
    as [w1 [w2 [w3 [H1 [H2 [_ [H3 [Hstatus [Hplayer _]]]]]]]]].
  - reflexivity.
  - reflexivity.
  - reflexivity.
  - reflexivity.
  - reflexivity.
  - exists w1, w2, w3. split; [exact H1|]. split; [exact H2|].
    split; [exact H3|]. split; [exact Hstatus | exact Hplayer].
Defined.



(** ** Start-up *)

Lemma fill_listbox_dicts (l : list value) :
  forallb is_dict l = true ->
  forall w : world,
    fill_listbox l w
    = (Next tt,
       set_self (with_listbox (listbox (self w) ++ map label_of l) (self w))
                (extend (inserts (List.length (listbox (self w)))
                                 (map label_of l)) w)).
Proof.
  induction l as [|s l IH]; intros Hd w.
  - destruct w as [t net f dk e1 e2 so a]. destruct a. cbn [fill_listbox map inserts].
    unfold ret. world_norm. now rewrite !List.app_nil_r.
  - cbn [forallb] in Hd. apply andb_prop in Hd. destruct Hd as [Hs Hd].
    destruct s as [| | | | |d]; try discriminate.
    cbn [fill_listbox]. unfold_statements. rewrite !py_get_value.
    rewrite (IH Hd). destruct w as [t net f dk e1 e2 so a]. destruct a.
    world_norm. cbn [map inserts label_of]. rewrite List.length_app.
    cbn [List.length]. rewrite Nat.add_1_r.
    now rewrite <- !List.app_assoc.
Qed.

Lemma init_world (l : list value) (w : world) :
  forallb is_dict l = true ->
  RadioApp_init (VList l) w
  = (Value tt,
     set_self (started l) (extend (inserts 0 (map label_of l)) w)).
Proof.
  intros Hd. unfold RadioApp_init. unfold_statements. cbn [py_iter].
  rewrite (fill_listbox_dicts l Hd).
  destruct w as [t net f dk e1 e2 so a]. now destruct a.
Qed.

Lemma fill_listbox_raises (l : list value) :
  forallb is_dict l = false ->
  forall w : world, exists w', fill_listbox l w = (Raise AttributeError, w').
Proof.
  induction l as [|s l IH]; intros Hd w; [discriminate|].
  cbn [forallb] in Hd. cbn [fill_listbox]. unfold_statements.
  destruct s as [| | | | |d]; try (eexists; reflexivity).
  rewrite !py_get_value. cbn [is_dict andb] in Hd.
  match goal with
  | |- context [fill_listbox l ?x] => destruct (IH Hd x) as [w' Hw']
  end.
  exists w'. now rewrite Hw'.
Qed.

(** X20: [RadioApp.__init__] on a list of dicts starts idle, with the
    status [Stopped], no search results and both search buttons enabled,
    and fills the list box with one row per station, in order: the name
    (or [(no name)]) and the info (or the empty string). *)
Theorem RadioApp_init_rows (l : list value) (w : world) :
  forallb is_dict l = true ->
  RadioApp_init (VList l) w
  = (Value tt,
     set_self (started l) (extend (inserts 0 (map label_of l)) w)).
Proof. exact (init_world l w). Qed.

Lemma RadioApp_init_rows_witness :
  RadioApp_init (VList [jazz_station; mute_station]) (world_of refusing Absent)
  = (Value tt,
     set_self (started [jazz_station; mute_station])
              (extend [EvListboxInsert 0 (mkLabel (VStr "Jazz FM") (VStr "jazz"));
                       EvListboxInsert 1 (mkLabel (VStr "Mute") (VStr ""))]
                      (world_of refusing Absent))).
Proof.
  apply (RadioApp_init_rows [jazz_station; mute_station]
           (world_of refusing Absent)).
  reflexivity.
Defined.

(** X21: [RadioApp.__init__] on a list that holds an item which is not a
    dict raises [AttributeError]: the application does not start. *)
Theorem RadioApp_init_rejects (l : list value) (w : world) :
  forallb is_dict l = false ->
  exists w', RadioApp_init (VList l) w = (Exception AttributeError, w').
Proof.
  intros Hd. unfold RadioApp_init. unfold_statements. cbn [py_iter].
  match goal with
  | |- context [fill_listbox l ?x] =>
      destruct (fill_listbox_raises l Hd x) as [w' Hw']
  end.
  exists w'. now rewrite Hw'.
Qed.

Lemma RadioApp_init_rejects_witness :
  exists w',
    RadioApp_init (VList [jazz_station; VStr "http://news.example/live"])
                  (world_of refusing Absent)
    = (Exception AttributeError, w').
Proof.
  apply (RadioApp_init_rejects
           [jazz_station; VStr "http://news.example/live"]
           (world_of refusing Absent)).
  reflexivity.
Defined.

(** ** What every handler preserves *)

Lemma nth_error_dict (l : list value) (i : nat) (st : value) :
  forallb is_dict l = true -> nth_error l i = Some st ->
  exists d, st = VDict d.
Proof.
  intros Hd Hnth. apply nth_error_In in Hnth.
  rewrite forallb_forall in Hd. specialize (Hd st Hnth).
  destruct st; try discriminate. now eexists.
Qed.

Lemma forallb_without {A : Type} (p : A -> bool) (i : nat) (l : list A) :
  forallb p l = true -> forallb p (without i l) = true.
Proof.
  intros Hl. unfold without. rewrite forallb_app.
  rewrite <- (firstn_skipn i l) in Hl. rewrite forallb_app in Hl.
  apply andb_prop in Hl. destruct Hl as [Ha Hb]. rewrite Ha. cbn [andb].
  replace (skipn (S i) l) with (skipn 1 (skipn i l))
    by (rewrite skipn_skipn; reflexivity).
  destruct (skipn i l) as [|x rest]; [reflexivity|].
  cbn [skipn]. cbn [forallb] in Hb. apply andb_prop in Hb. now destruct Hb.
Qed.

Lemma forallb_replaced {A : Type} (p : A -> bool) (i : nat) (x : A)
      (l : list A) :
  forallb p l = true -> p x = true -> forallb p (replaced i x l) = true.
Proof.
  intros Hl Hx. unfold replaced. rewrite forallb_app. cbn [forallb].
  rewrite Hx. pose proof (forallb_without p i l Hl) as Hw.
  unfold without in Hw. rewrite forallb_app in Hw.
  apply andb_prop in Hw. destruct Hw as [Ha Hb]. now rewrite Ha, Hb.
Qed.

Lemma truthy_not_empty (s : str) : truthy s = true -> s <> "".
Proof. now destruct s. Qed.

Lemma play_step (sel : option nat) (w : world) :
  rows_in_sync (self w) -> step_ok w (snd (on_play sel w)).
Proof.
  intros [l [Hst [Hd Hlb]]].
  destruct sel as [idx|].
  - destruct (nth_error l idx) as [st|] eqn:Hnth.
    + destruct (nth_error_dict l idx st Hd Hnth) as [d ->].
      destruct (value_truthy (get_or d "url" VNone)) eqn:Hurl.
      * destruct (on_play_world w idx l d Hst Hnth Hurl)
          as [p [evs [Hrun _]]].
        rewrite Hrun. cbn [snd].
        destruct w as [t net f dk e1 e2 so a].
        destruct a as [sts pl sr lb rlb sv b1 b2 ps].
        quiet_step.
      * destruct w as [t net f dk e1 e2 so a].
        destruct a as [sts pl sr lb rlb sv b1 b2 ps]. world_simpl.
        subst sts. unfold on_play. unfold_statements. world_simpl.
        unfold py_getitem. rewrite Hnth, py_get_value, Hurl. cbn [negb snd].
        quiet_step.
    + destruct w as [t net f dk e1 e2 so a].
      destruct a as [sts pl sr lb rlb sv b1 b2 ps]. world_simpl.
      subst sts. unfold on_play. unfold_statements. world_simpl.
      unfold py_getitem. rewrite Hnth. cbn [snd]. quiet_step.
  - destruct w as [t net f dk e1 e2 so a].
    destruct a as [sts pl sr lb rlb sv b1 b2 ps]. cbn [on_play snd].
    unfold_statements. cbn [snd]. quiet_step.
Qed.

Lemma stop_step (w : world) : step_ok w (snd (on_stop w)).
Proof.
  unfold on_stop. unfold_statements. rewrite RadioPlayer_stop_world.
  destruct w as [t net f dk e1 e2 so a].
  destruct a as [sts pl sr lb rlb sv b1 b2 ps].
  destruct e1 as [e1|]; world_norm; cbn [snd]; quiet_step.
Qed.

Lemma save_step (w : world) :
  rows_in_sync (self w) -> step_ok w (snd (on_save w)).
Proof.
  intros Hsync. unfold on_save. unfold_statements.
  rewrite save_stations_spec.
  destruct w as [t net f dk e1 e2 so a].
  destruct a as [sts pl sr lb rlb sv b1 b2 ps]. world_norm. cbn [snd].
  saved_step. exact Hsync.
Qed.

Lemma delete_step (sel : option nat) (answer : bool) (w : world) :
  rows_in_sync (self w) -> step_ok w (snd (on_delete sel answer w)).
Proof.
  intros [l [Hst [Hd Hlb]]].
  destruct w as [t net f dk e1 e2 so a].
  destruct a as [sts pl sr lb rlb sv b1 b2 ps]. destruct pl as [cur on].
  world_simpl. subst sts lb.
  unfold on_delete. destruct sel as [idx|];
    [|unfold_statements; cbn [snd]; quiet_step].
  unfold_statements. world_simpl. unfold py_getitem.
  destruct (nth_error l idx) as [st|] eqn:Hnth;
    [|cbn [snd]; quiet_step].
  destruct (nth_error_dict l idx st Hd Hnth) as [d ->].
  rewrite !py_get_value. world_simpl.
  destruct answer; [|cbn [snd]; quiet_step].
  world_simpl. rewrite Hnth, py_get_value. unfold py_delitem.
  assert (Hsync : forall p s,
             rows_in_sync
               (mkApp (VList (firstn idx l ++ skipn (S idx) l)) p sr
                      (firstn idx (map label_of l)
                       ++ skipn (S idx) (map label_of l))
                      rlb s b1 b2 ps)).
  { intros p s. exists (without idx l). split; [reflexivity|].
    split; [now apply forallb_without|]. cbn [listbox].
    now rewrite map_without. }
  destruct (py_eq cur (get_or d "url" VNone)).
  - rewrite RadioPlayer_stop_world. world_simpl.
    destruct e1 as [e1|]; world_norm.
    + cbn [snd]. quiet_step.
    + rewrite (nth_error_valid _ _ _ Hnth). rewrite save_stations_spec.
      world_norm. cbn [snd]. saved_step. apply Hsync.
  - world_norm. rewrite (nth_error_valid _ _ _ Hnth).
    rewrite save_stations_spec. world_norm. cbn [snd]. saved_step.
    apply Hsync.
Qed.

Lemma label_of_station (name info url : str) :
  label_of (station name info url) = mkLabel (VStr name) (VStr info).
Proof. reflexivity. Qed.

Lemma ok_step (index : option nat) (name_var info_var url_var : str)
      (w : world) :
  rows_in_sync (self w) ->
  step_ok w (snd (on_ok index name_var info_var url_var w)).
Proof.
  intros [l [Hst [Hd Hlb]]].
  destruct (truthy (strip name_var)) eqn:Hname;
    [destruct (truthy (strip url_var)) eqn:Hurl|].
  - destruct index as [i|].
    + destruct (Nat.ltb_spec i (List.length l)) as [Hi|Hi].
      * rewrite (on_ok_edit_world w i l name_var info_var url_var Hst Hi Hlb
                   (truthy_not_empty _ Hname) (truthy_not_empty _ Hurl)).
        cbn [snd].
        destruct w as [t net f dk e1 e2 so a].
        destruct a as [sts pl sr lb rlb sv b1 b2 ps].
        unfold saved_world. saved_step.
        eexists. split; [reflexivity|]. split; [|reflexivity].
        now apply forallb_replaced.
      * destruct w as [t net f dk e1 e2 so a].
        destruct a as [sts pl sr lb rlb sv b1 b2 ps]. world_simpl.
        subst sts lb. unfold on_ok. unfold_statements.
        rewrite Hname, Hurl. cbn [negb orb]. world_simpl. unfold py_setitem.
        apply Nat.ltb_ge in Hi. rewrite Hi. cbn [snd]. quiet_step.
    + destruct w as [t net f dk e1 e2 so a].
      destruct a as [sts pl sr lb rlb sv b1 b2 ps]. world_simpl.
      subst sts lb. unfold on_ok. unfold_statements.
      rewrite Hname, Hurl. cbn [negb orb]. world_simpl. unfold py_append.
      rewrite save_stations_spec. world_norm. cbn [snd]. saved_step.
      eexists. split; [reflexivity|]. split.
      * rewrite forallb_app, Hd. reflexivity.
      * world_norm. now rewrite map_app.
  - destruct w as [t net f dk e1 e2 so a].
    destruct a as [sts pl sr lb rlb sv b1 b2 ps].
    unfold on_ok. unfold_statements. rewrite Hname, Hurl.
    cbn [negb orb snd]. quiet_step.
  - destruct w as [t net f dk e1 e2 so a].
    destruct a as [sts pl sr lb rlb sv b1 b2 ps].
    unfold on_ok. unfold_statements. rewrite Hname.
    cbn [negb orb snd]. quiet_step.
Qed.

Lemma search_step (search_var mode : str) (w : world) :
  step_ok w (snd (on_search search_var mode w)).
Proof.
  destruct (truthy (strip search_var)) eqn:Hq.
  - destruct (on_search_world search_var mode w (truthy_not_empty _ Hq))
      as [items [rows [evs [Hrun _]]]].
    rewrite Hrun. cbn [snd].
    destruct w as [t net f dk e1 e2 so a].
    destruct a as [sts pl sr lb rlb sv b1 b2 ps]. quiet_step.
  - destruct w as [t net f dk e1 e2 so a].
    destruct a as [sts pl sr lb rlb sv b1 b2 ps].
    unfold on_search. unfold_statements. rewrite Hq. cbn [negb snd].
    quiet_step.
Qed.

(** The record that the add from a search result builds is a dict, and
    its row shows its name and its info. *)
Lemma built_entry (name info url : value) :
  is_dict (VDict (dict_set (dict_set (dict_set [] "name" name) "info" info)
                           "url" url)) = true
  /\ label_of (VDict (dict_set (dict_set (dict_set [] "name" name)
                                          "info" info) "url" url))
     = mkLabel name info.
Proof. split; reflexivity. Qed.

(** [_finish], whatever the standard output does with its debug line: the
    record is appended and the stations are saved, or nothing is
    changed. *)
Lemma finish_step (name info url : value) (w : world) :
  rows_in_sync (self w) ->
  step_ok w
    (snd (_finish
            (VDict (dict_set (dict_set (dict_set [] "name" name) "info" info)
                             "url" url)) w)).
Proof.
  intros [l [Hst [Hd Hlb]]].
  destruct w as [t net f dk e1 e2 so a].
  destruct a as [sts pl sr lb rlb sv b1 b2 ps]. world_simpl. subst sts lb.
  unfold _finish, try_except, try_finally. unfold_statements.
  cbn [dict_set String.eqb Ascii.eqb Bool.eqb].
  cbn [py_get entries_get String.eqb Ascii.eqb Bool.eqb]. world_simpl.
  destruct (so [name; url]) as [e|].
  - world_norm. cbn [snd]. quiet_step.
  - world_norm.
    cbn [py_append py_getitem_key entries_get String.eqb Ascii.eqb Bool.eqb].
    world_norm. rewrite save_stations_spec. world_norm. cbn [snd].
    saved_step. eexists. split; [reflexivity|]. split.
    + rewrite forallb_app, Hd. reflexivity.
    + world_norm. now rewrite map_app.
Qed.

Lemma step_ok_trans (w w1 w2 : world) :
  stations (self w1) = stations (self w) ->
  listbox (self w1) = listbox (self w) ->
  stations_file w1 = stations_file w ->
  same_devices w w1 ->
  step_ok w1 w2 -> step_ok w w2.
Proof.
  intros Hs Hl Hf [D1 [D2 [D3 [D4 D5]]]]
         [[E1 [E2 [E3 [E4 E5]]]] [[U1 [U2 U3]] | [Hsync Hsaved]]].
  - split; [repeat split; congruence | left; repeat split; congruence].
  - split; [repeat split; congruence|]. right. split; [exact Hsync|].
    now rewrite Hsaved, D2, Hf.
Qed.

(** [on_add_search] on a selected result that is a dict: the handler
    prepares the widgets and the thread does the rest. *)
Lemma on_add_search_split (idx : nat) (d : list (str * value)) (w : world) :
  py_getitem (_search_results (self w)) idx = inr (VDict d) ->
  on_add_search (Some idx) w
  = (Value tt,
     snd (_add_search_thread (VDict d) (stream_url d)
            (set_self (resolving (self w)) w))).
Proof.
  intros Hitem.
  unfold on_add_search, on_add_search_begin, start_thread, try_except.
  unfold_statements. rewrite Hitem, !py_get_value. fold (stream_url d).
  unfold try_except.
  destruct w as [t net f dk e1 e2 so a].
  destruct a as [sts pl sr lb rlb sv b1 b2 ps]. world_norm.
  match goal with
  | |- context [_add_search_thread ?i ?u ?x] =>
      destruct (_add_search_thread i u x) as [[[]|e] w']
  end; reflexivity.
Qed.

(** The thread of an add from a search result, whatever the standard
    output does with the debug lines. *)
Lemma add_search_thread_step (d : list (str * value)) (url : value)
      (w : world) :
  rows_in_sync (self w) ->
  step_ok w (snd (_add_search_thread (VDict d) url w)).
Proof.
  intros Hsync.
  unfold _add_search_thread, after, try_except. unfold_statements.
  cbv beta.
  destruct (stdout_error w [url]) as [e|].
  - destruct w as [t net f dk e1 e2 so a].
    destruct a as [sts pl sr lb rlb sv b1 b2 ps]. cbn [snd]. quiet_step.
  - rewrite resolve_object_world. cbv beta iota.
    change (stdout_error (extend (resolution_events w url) w))
      with (stdout_error w).
    assert (Hrest : forall res,
               step_ok w
                 (snd (_finish
                         (VDict (dict_set
                                   (dict_set
                                      (dict_set [] "name"
                                         (get_or d "name" (VStr "(no name)")))
                                      "info" (get_or d "tags" (VStr "")))
                                   "url" res))
                         (extend (resolution_events w url) w)))).
    { intros res.
      apply (step_ok_trans w (extend (resolution_events w url) w)).
      - reflexivity.
      - reflexivity.
      - reflexivity.
      - now repeat split.
      - apply finish_step. exact Hsync. }
    destruct (stdout_error w [resolved_object w url]) as [e|];
      rewrite !py_get_value; cbv beta iota.
    + specialize (Hrest url).
      destruct (_finish _ _) as [[[]|e'] w3]; exact Hrest.
    + specialize (Hrest (resolved_object w url)).
      destruct (_finish _ _) as [[[]|e'] w3]; exact Hrest.
Qed.

Lemma add_search_step (sel : option nat) (w : world) :
  rows_in_sync (self w) -> step_ok w (snd (on_add_search sel w)).
Proof.
  intros Hsync.
  destruct sel as [idx|].
  - destruct (py_getitem (_search_results (self w)) idx) as [e|item] eqn:Hitem.
    + destruct w as [t net f dk e1 e2 so a].
      destruct a as [sts pl sr lb rlb sv b1 b2 ps]. world_simpl.
      unfold on_add_search, on_add_search_begin. unfold_statements.
      world_simpl. rewrite Hitem. cbn [snd]. quiet_step.
    + destruct item as [| | | | |d];
        try solve [destruct w as [t net f dk e1 e2 so a];
                   destruct a as [sts pl sr lb rlb sv b1 b2 ps]; world_simpl;
                   unfold on_add_search, on_add_search_begin;
                   unfold_statements; world_simpl;
                   rewrite Hitem; cbn [py_get snd]; quiet_step].
      rewrite (on_add_search_split idx d w Hitem). cbn [snd].
      apply (step_ok_trans w (set_self (resolving (self w)) w)).
      * destruct w as [t net f dk e1 e2 so a]. now destruct a.
      * destruct w as [t net f dk e1 e2 so a]. now destruct a.
      * reflexivity.
      * now repeat split.
      * apply add_search_thread_step.
        destruct Hsync as [l [Hst [Hd Hlb]]]. exists l.
        destruct w as [t net f dk e1 e2 so a].
        destruct a as [sts pl sr lb rlb sv b1 b2 ps]. now repeat split.
  - destruct w as [t net f dk e1 e2 so a].
    destruct a as [sts pl sr lb rlb sv b1 b2 ps].
    unfold on_add_search, on_add_search_begin. unfold_statements.
    cbn [snd]. quiet_step.
Qed.

Lemma handler_step (a : ui_action) (w : world) :
  rows_in_sync (self w) -> step_ok w (snd (handler a w)).
Proof.
  intros Hsync. destruct a; cbn [handler].
  - now apply play_step.
  - apply stop_step.
  - now apply delete_step.
  - now apply save_step.
  - now apply ok_step.
  - apply search_step.
  - now apply add_search_step.
Qed.

Lemma step_keeps_sync (w w' : world) :
  rows_in_sync (self w) -> step_ok w w' -> rows_in_sync (self w').
Proof.
  intros [l [Hst [Hd Hlb]]] [_ [[H1 [H2 _]] | [Hsync _]]];
    [|exact Hsync].
  exists l. rewrite H1, H2. now repeat split.
Qed.

(** X22: the list box stays in step with the stations.  When the stations
    are a list of dicts shown row by row in the list box, they still are
    after any sequence of handlers, whatever the selections, the answers,
    the network, the disk, the standard output and libvlc do, and whether
    the handlers return or raise. *)
Theorem mainloop_rows_in_sync (actions : list ui_action) (w : world) :
  rows_in_sync (self w) -> rows_in_sync (self (mainloop actions w)).
Proof.
  revert w. induction actions as [|a rest IH]; intros w Hsync; [exact Hsync|].
  cbn [mainloop]. apply IH.
  exact (step_keeps_sync w _ Hsync (handler_step a w Hsync)).
Qed.

Lemma mainloop_rows_in_sync_witness :
  rows_in_sync (self (mainloop sample_session (stations_world [jazz_station]))).
Proof.
  apply (mainloop_rows_in_sync sample_session (stations_world [jazz_station])).
  exists [jazz_station]. repeat split.
Defined.

(** X25: every change of the stations reaches the stations file.  As long
    as every open of the file and every dump into it succeeds (the disk
    takes the writes and the encoder takes the text), after any sequence
    of handlers either the stations file holds the dump of the stations in
    memory, or neither the stations nor the file have changed. *)
Theorem mainloop_file_current (actions : list ui_action) (w : world) :
  rows_in_sync (self w) ->
  disk w = NoFault ->
  file_current (mainloop actions w)
  \/ (stations (self (mainloop actions w)) = stations (self w)
      /\ stations_file (mainloop actions w) = stations_file w).
Proof.
  revert w. induction actions as [|a rest IH]; intros w Hsync Hdisk;
    [now right|].
  cbn [mainloop]. pose proof (handler_step a w Hsync) as Hstep.
  pose proof (step_keeps_sync w _ Hsync Hstep) as Hsync'.
  destruct Hstep as [[_ [Hd _]] Hchange].
  rewrite Hdisk in Hd.
  destruct (IH _ Hsync' Hd) as [Hcur | [Hs Hf]]; [now left|].
  destruct Hchange as [[H1 [_ H3]] | [_ Hsaved]].
  - right. split; congruence.
  - left. unfold file_current. rewrite Hf, Hs, Hsaved, Hdisk. reflexivity.
Qed.

Lemma mainloop_file_current_witness :
  file_current (mainloop sample_session (stations_world [jazz_station]))
  \/ (stations (self (mainloop sample_session (stations_world [jazz_station])))
      = stations (self (stations_world [jazz_station]))
      /\ stations_file (mainloop sample_session (stations_world [jazz_station]))
         = stations_file (stations_world [jazz_station])).
Proof.
  apply (mainloop_file_current sample_session (stations_world [jazz_station])).
  - exists [jazz_station]. repeat split.
  - reflexivity.
Defined.

(** ** Restarting *)

Lemma main_world (w : world) :
  main w
  = match load_stations w with
    | (Value loaded, w') => RadioApp_init loaded w'
    | (Exception e, w') => (Exception e, w')
    end.
Proof.
  unfold main. unfold_statements.
  destruct (load_stations w) as [[loaded|e] w']; [|reflexivity].
  now destruct (RadioApp_init loaded w') as [[[]|e] w''].
Qed.

(** X26: a restart restores what was saved.  When the stations file holds
    the dump of the stations in memory, a well-formed list of dicts,
    [main] starts the application with exactly these stations and these
    rows, idle and with the status [Stopped]. *)
Theorem restart_restores (w : world) (l : list value) :
  stations (self w) = VList l ->
  forallb is_dict l = true ->
  well_formed (VList l) ->
  file_current w ->
  main w
  = (Value tt, set_self (started l) (extend (inserts 0 (map label_of l)) w)).
Proof.
  intros Hst Hd Hwf Hfile. unfold file_current in Hfile.
  rewrite main_world, load_stations_value, Hfile, Hst.
  rewrite (json_loads_dumps _ Hwf). now apply init_world.
Qed.

Lemma restart_restores_witness :
  main playing_world
  = (Value tt,
     set_self (started [jazz_station; news_station])
              (extend [EvListboxInsert 0 (mkLabel (VStr "Jazz FM") (VStr "jazz"));
                       EvListboxInsert 1 (mkLabel (VStr "News") (VStr "talk"))]
                      playing_world)).
Proof.
  apply (restart_restores playing_world [jazz_station; news_station]).
  - reflexivity.
  - reflexivity.
  - apply well_formed_list.
    constructor; [apply well_formed_station|].
    constructor; [apply well_formed_station | constructor].
  - reflexivity.
Defined.

(** X27: without a stations file the application starts empty: no
    station, no row, nothing read and nothing written. *)
Theorem main_first_start (w : world) :
  stations_file w = Absent ->
  main w = (Value tt, set_self (started []) w).
Proof.
  intros Hfile. rewrite main_world, load_stations_value, Hfile.
  rewrite (init_world [] w eq_refl). cbn [map inserts].
  now rewrite extend_nil.
Qed.

Lemma main_first_start_witness :
  main (world_of refusing Absent)
  = (Value tt, set_self (started []) (world_of refusing Absent)).
Proof.
  apply (main_first_start (world_of refusing Absent)). reflexivity.
Defined.

(** X28: when the stations file cannot be read or does not hold JSON, the
    exception leaves [main]: no application object is built, no row is
    shown and the file is left as it is.  ([Unmodelled] is not an
    exception of the program: it marks JSON text outside the model, about
    which nothing is stated.) *)
Theorem main_load_error (w : world) (e : exn) :
  e <> Unmodelled ->
  stations_file w = Unreadable e
  \/ (exists s, stations_file w = Text s /\ json_loads s = inl e) ->
  main w = (Exception e, w).
Proof.
  intros _ [Hfile | [s [Hfile Hjson]]];
    rewrite main_world, load_stations_value, Hfile; [reflexivity|].
  now rewrite Hjson.
Qed.

Lemma main_load_error_witness :
  main (world_of refusing (Text "[{"))
  = (Exception JSONDecodeError, world_of refusing (Text "[{")).
Proof.
  apply (main_load_error (world_of refusing (Text "[{")) JSONDecodeError).
  - discriminate.
  - right. exists "[{". split; reflexivity.
Defined.

(** ** The editor *)

Lemma lstrip_fixed (s : str) : starts_with_space s = false -> lstrip s = s.
Proof. destruct s as [|c s]; [reflexivity|]. cbn. now intros ->. Qed.

Lemma rstrip_fixed (s : str) : ends_with_space s = false -> rstrip s = s.
Proof.
  induction s as [|c s IH]; [reflexivity|].
  destruct s as [|c' s'].
  - cbn. now intros ->.
  - intros H. change (ends_with_space (String c' s') = false) in H.
    change (rstrip (String c (String c' s')))
      with (match rstrip (String c' s') with
            | EmptyString =>
                if is_space c then EmptyString else String c EmptyString
            | r => String c r
            end).
    now rewrite (IH H).
Qed.

Lemma strip_idempotent (s : str) : strip (strip s) = strip s.
Proof.
  destruct (strip_spec s) as [a [b [_ [_ [_ [Hstart Hend]]]]]].
  unfold strip at 1. rewrite (lstrip_fixed _ Hstart).
  now apply rstrip_fixed.
Qed.

Lemma replaced_last {A : Type} (x y : A) (l : list A) :
  replaced (List.length l) x (l ++ [y]) = (l ++ [x])%list.
Proof.
  unfold replaced.
  rewrite firstn_app, firstn_all, Nat.sub_diag. cbn [firstn].
  rewrite List.app_nil_r.
  rewrite skipn_all2 by (rewrite List.length_app; cbn [List.length]; lia).
  reflexivity.
Qed.

Lemma on_ok_add_world (w : world) (l : list value)
      (name_var info_var url_var : str) :
  stations (self w) = VList l ->
  strip name_var <> "" ->
  strip url_var <> "" ->
  on_ok None name_var info_var url_var w
  = (Value tt,
     saved_world
       (VList (l ++ [station (strip name_var) (strip info_var)
                             (strip url_var)]))
       (listbox (self w)
        ++ [mkLabel (VStr (strip name_var)) (VStr (strip info_var))])
       [EvListboxInsert (List.length (listbox (self w)))
                        (mkLabel (VStr (strip name_var))
                                 (VStr (strip info_var)))]
       w).
Proof.
  intros Hst Hname Hurl.
  destruct w as [t net f dk e1 e2 so a].
  destruct a as [sts pl sr lb rlb sv b1 b2 ps]. world_simpl. subst sts.
  unfold on_ok. unfold_statements.
  rewrite (truthy_nonempty _ Hname), (truthy_nonempty _ Hurl).
  cbn [negb orb]. world_simpl. unfold py_append.
  rewrite save_stations_spec. unfold saved_world. world_norm.
  now rewrite <- !List.app_assoc.
Qed.

(** X29: the editor shows what it stored.  [on_add] opens the editor with
    empty fields.  After an Add with a name and a url that are not blank,
    the new station is the last one; [on_edit] on it opens the editor with
    the stripped name, info and url, without touching anything; and OK on
    these fields as they are leaves the stations and the rows as they
    were after the Add. *)
Theorem edit_without_change
        (w : world) (l : list value) (name_var info_var url_var : str) :
  stations (self w) = VList l ->
  listbox (self w) = map label_of l ->
  strip name_var <> "" ->
  strip url_var <> "" ->
  exists w1 w2,
    on_add w = (Value ("", "", ""), w)
    /\ on_ok None name_var info_var url_var w = (Value tt, w1)
    /\ on_edit (Some (List.length l)) w1
       = (Value (Some (strip name_var, strip info_var, strip url_var)), w1)
    /\ on_ok (Some (List.length l))
             (strip name_var) (strip info_var) (strip url_var) w1
       = (Value tt, w2)
    /\ stations (self w2) = stations (self w1)
    /\ listbox (self w2) = listbox (self w1).
Proof.
  intros Hst Hlb Hname Hurl.
  rewrite (on_ok_add_world w l name_var info_var url_var Hst Hname Hurl).
  set (entry := station (strip name_var) (strip info_var) (strip url_var)).
  set (w1 := saved_world _ _ _ w).
  exists w1. eexists. split; [reflexivity|]. split; [reflexivity|].
  assert (Hst1 : stations (self w1) = VList (l ++ [entry]))
    by (destruct w as [t net f dk e1 e2 so a]; now destruct a).
  assert (Hlb1 : listbox (self w1) = map label_of (l ++ [entry])).
  { rewrite map_app. cbn [map]. rewrite <- Hlb.
    destruct w as [t net f dk e1 e2 so a]. now destruct a. }
  assert (Hnth : nth_error (l ++ [entry]) (List.length l) = Some entry)
    by (rewrite nth_error_app2, Nat.sub_diag by lia; reflexivity).
  split.
  - unfold on_edit, _open_station_editor, editor_field, string_var, def_.
    unfold_statements. unfold py_getitem.
    repeat (rewrite ?Hst1, ?Hnth; unfold entry at 1, station;
            cbn [py_get entries_get String.eqb Ascii.eqb Bool.eqb];
            cbv beta iota).
    reflexivity.
  - assert (Hi : (List.length l < List.length (l ++ [entry]))%nat)
      by (rewrite List.length_app; cbn [List.length]; lia).
    rewrite (on_ok_edit_world w1 (List.length l) (l ++ [entry])
               (strip name_var) (strip info_var) (strip url_var) Hst1 Hi Hlb1)
      by (rewrite strip_idempotent; assumption).
    split; [reflexivity|].
    rewrite !strip_idempotent. fold entry. rewrite replaced_last.
    unfold saved_world. world_simpl. now rewrite Hst1, Hlb1.
Qed.

Lemma edit_without_change_witness :
  exists w1 w2,
    on_add (stations_world [jazz_station])
    = (Value ("", "", ""), stations_world [jazz_station])
    /\ on_ok None " News " "talk" "http://news.example/live"
             (stations_world [jazz_station])
       = (Value tt, w1)
    /\ on_edit (Some 1%nat) w1
       = (Value (Some ("News", "talk", "http://news.example/live")), w1)
    /\ on_ok (Some 1%nat) "News" "talk" "http://news.example/live" w1
       = (Value tt, w2)
    /\ stations (self w2) = stations (self w1)
    /\ listbox (self w2) = listbox (self w1).
Proof.
  apply (edit_without_change (stations_world [jazz_station]) [jazz_station]
           " News " "talk" "http://news.example/live");
    try reflexivity; discriminate.
Defined.
